(** * live-dither-wp: the image-to-animated-bitmap core of [main.cpp]

    A shallow embedding of the resampler, the classifier, the xorshift
    generator and the three dithering strategies of [src/main.cpp], and the
    properties of the specification proved (or refuted) on it; then the
    command line and the start of [main] and the pixel loop of the X11
    [platformRender], with further properties of the code.

    - C [float] is IEEE-754 binary32, modelled by [spec_float] with the
      operations of [SpecFloat] at precision 24 and maximal exponent 128
      (round to nearest, ties to even), so every float expression of the
      source is evaluated bit for bit.
    - C [int] is modelled by [Z]; signed overflow is undefined behaviour in
      the source and is outside the model.  [uint32_t] is a [Z] with the
      wrap-around written out.
    - [std::vector] is a [list]; a cell is read with [vget] and written with
      [vset]; [memcpy] of four bytes is [list_inserts].
    - [sinf] comes from the C library and is a parameter of the model. *)

From Stdlib Require Import ZArith Lia Bool Sorted Reals Lra Psatz.
From Stdlib Require Import SpecFloat.
From stdpp Require Import base numbers list sorting.

Open Scope Z_scope.

(** ** binary32 arithmetic *)

Module F32.

Definition float32 : Type := spec_float.
Definition prec : Z := 24.
Definition emax : Z := 128.

Definition add : float32 -> float32 -> float32 := SFadd prec emax.
Definition sub : float32 -> float32 -> float32 := SFsub prec emax.
Definition mul : float32 -> float32 -> float32 := SFmul prec emax.
Definition div : float32 -> float32 -> float32 := SFdiv prec emax.
Definition sqrtf : float32 -> float32 := SFsqrt prec emax.
Definition ltb : float32 -> float32 -> bool := SFltb.
Definition leb : float32 -> float32 -> bool := SFleb.
Definition eqb : float32 -> float32 -> bool := SFeqb.
(** [a > b] of the source is [b < a]. *)
Definition gtb (a b : float32) : bool := SFltb b a.

(** Conversion [int -> float] (and [unsigned char -> int -> float]):
    the integer rounded to the nearest binary32 value. *)
Definition of_int (n : Z) : float32 := binary_normalize prec emax n 0 false.

(** Conversion [float -> int]: truncation toward zero.  The source only
    converts finite values that fit an [int]; anything else is undefined
    behaviour there and is given the value 0 here. *)
Definition to_int (x : float32) : Z :=
  match x with
  | S754_finite s m e =>
      let a := match e with
               | Zneg p => Z.shiftr (Zpos m) (Zpos p)
               | _ => Z.shiftl (Zpos m) e
               end in
      if s then - a else a
  | _ => 0
  end.

(** A decimal literal [n/d] of the source, correctly rounded. *)
Definition dec (n d : Z) : float32 := div (of_int n) (of_int d).

Definition is_nan (x : float32) : bool :=
  match x with S754_nan => true | _ => false end.

Definition zero : float32 := S754_zero false.
Definition one : float32 := Eval vm_compute in of_int 1.
Definition two : float32 := Eval vm_compute in of_int 2.
Definition half : float32 := Eval vm_compute in dec 5 10.

End F32.

Import F32.

Declare Scope f32_scope.
Delimit Scope f32_scope with f32.
Bind Scope f32_scope with float32.
Infix "+" := add : f32_scope.
Infix "-" := sub : f32_scope.
Infix "*" := mul : f32_scope.
Infix "/" := div : f32_scope.
Infix "<?" := ltb : f32_scope.
Infix "<=?" := leb : f32_scope.
Infix ">?" := gtb : f32_scope.

#[global] Instance float32_inhabited : Inhabited float32 := populate zero.

(** The float literals of [main.cpp]. *)
Definition c0_001 : float32 := Eval vm_compute in dec 1 1000.
Definition c0_016 : float32 := Eval vm_compute in dec 16 1000.
Definition c0_114 : float32 := Eval vm_compute in dec 114 1000.
Definition c0_299 : float32 := Eval vm_compute in dec 299 1000.
Definition c0_3 : float32 := Eval vm_compute in dec 3 10.
Definition c0_4 : float32 := Eval vm_compute in dec 4 10.
Definition c0_549 : float32 := Eval vm_compute in dec 549 1000.
Definition c0_587 : float32 := Eval vm_compute in dec 587 1000.
Definition c0_7 : float32 := Eval vm_compute in dec 7 10.
Definition c0_8 : float32 := Eval vm_compute in dec 8 10.
Definition c100 : float32 := Eval vm_compute in of_int 100.
Definition c255 : float32 := Eval vm_compute in of_int 255.
Definition c65535 : float32 := Eval vm_compute in of_int 65535.

(** ** Vectors *)

Definition vget {A} `{Inhabited A} (v : list A) (i : Z) : A := v !!! Z.to_nat i.
Definition vset {A} (v : list A) (i : Z) (a : A) : list A := <[Z.to_nat i := a]> v.
(** [memcpy(&v[i], src, 4)] *)
Definition memcpy4 (v : list Z) (i : Z) (src : list Z) : list Z :=
  list_inserts (Z.to_nat i) src v.
(** [for (int i = 0; i < n; i++) body] *)
Definition for_range {S} (n : Z) (body : Z -> S -> S) (s : S) : S :=
  fold_left (fun acc i => body i acc) (seqZ 0 n) s.

(** ** Fast random number generator (xorshift), lines 135-146 *)

Definition u32 (z : Z) : Z := Z.land z 0xFFFFFFFF.

(** [fastRand]: the new [g_rngState], which is also the value returned. *)
Definition fastRand (s : Z) : Z :=
  let s := Z.lxor s (u32 (Z.shiftl s 13)) in
  let s := Z.lxor s (Z.shiftr s 17) in
  let s := Z.lxor s (u32 (Z.shiftl s 5)) in
  s.

(** [fastRandFloat]: the value returned and the new [g_rngState]. *)
Definition fastRandFloat (s : Z) : float32 * Z :=
  let s' := fastRand s in
  ((of_int (Z.land s' 0xFFFF) / c65535)%f32, s').

(** ** Data model, lines 72-107 *)

Inductive PixelState := PIXEL_BLACK | PIXEL_ORANGE | PIXEL_AMBIGUOUS.

#[global] Instance PixelState_eq_dec : EqDecision PixelState.
Proof. solve_decision. Defined.
#[global] Instance PixelState_inhabited : Inhabited PixelState := populate PIXEL_BLACK.

Definition BLACK_RGBA : list Z := [0; 0; 0; 255].
Definition ORANGE_RGBA : list Z := [255; 140; 0; 255].

(** The process-wide globals, and the function-local statics of
    [ditherFrame] ([lastY], [cachedSine], [cachedChaos], [invWidth]), which
    live as long as the globals do. *)
Record Engine := mkEngine {
  g_algorithm : Z;
  g_threshold : Z;
  g_pixelSize : Z;
  g_chaos : Z;
  g_time : float32;
  g_imgWidth : Z;
  g_imgHeight : Z;
  g_scaledWidth : Z;
  g_scaledHeight : Z;
  g_pixelStates : list PixelState;
  g_orangeProb : list float32;
  g_ambiguousIndices : list Z;
  g_scaledPixels : list Z;
  g_rngState : Z;
  lastY : Z;
  cachedSine : float32;
  cachedChaos : float32;
  invWidth : float32
}.

(** The state of the process before [main] has parsed its arguments. *)
Definition initial_engine : Engine :=
  {| g_algorithm := 2; g_threshold := 40; g_pixelSize := 1; g_chaos := 10;
     g_time := zero; g_imgWidth := 0; g_imgHeight := 0;
     g_scaledWidth := 0; g_scaledHeight := 0;
     g_pixelStates := []; g_orangeProb := []; g_ambiguousIndices := [];
     g_scaledPixels := []; g_rngState := 12345;
     lastY := -1; cachedSine := zero; cachedChaos := zero; invWidth := zero |}.

(** A decoded image, as [stbi_load] returns it with three channels. *)
Record Image := mkImage {
  img_data : list Z;
  origWidth : Z;
  origHeight : Z
}.

(** ** Image loading and preparation, lines 151-271 *)

Section Resampler.
Variable img : Image.
(** [g_scaledWidth], [g_scaledHeight], [g_threshold] *)
Variables W H threshold : Z.

Definition texel (idx : Z) : float32 := of_int (vget (img_data img) idx).

(** The body of the resampling loop, lines 182-211: the triple stored
    for the target cell [(sx, sy)]. *)
Definition resample_cell (sx sy : Z) : float32 * float32 * float32 :=
  let srcX := (of_int sx / of_int W * of_int (origWidth img))%f32 in
  let srcY := (of_int sy / of_int H * of_int (origHeight img))%f32 in
  let x0 := to_int srcX in
  let y0 := to_int srcY in
  let x1 := if x0 + 1 <? origWidth img then x0 + 1 else x0 in
  let y1 := if y0 + 1 <? origHeight img then y0 + 1 else y0 in
  let fx := (srcX - of_int x0)%f32 in
  let fy := (srcY - of_int y0)%f32 in
  let idx00 := (y0 * origWidth img + x0) * 3 in
  let idx01 := (y0 * origWidth img + x1) * 3 in
  let idx10 := (y1 * origWidth img + x0) * 3 in
  let idx11 := (y1 * origWidth img + x1) * 3 in
  let channel (c : Z) : float32 :=
    ((texel (idx00 + c) * (one - fx) * (one - fy)
      + texel (idx01 + c) * fx * (one - fy)
      + texel (idx10 + c) * (one - fx) * fy
      + texel (idx11 + c) * fx * fy) / c255)%f32 in
  let r := channel 0 in
  let g := channel 1 in
  let b := channel 2 in
  if (0 <? threshold)
     && ((c0_299 * r + c0_587 * g + c0_114 * b)%f32 <? (of_int threshold / c255)%f32)%f32
  then (zero, zero, zero)
  else (r, g, b).

(** Lines 180-218: the loops that fill [imgFloat]. *)
Definition resample_store (sx sy : Z) (imgFloat : list float32) : list float32 :=
  let '(r, g, b) := resample_cell sx sy in
  let dstIdx := (sy * W + sx) * 3 in
  vset (vset (vset imgFloat dstIdx r) (dstIdx + 1) g) (dstIdx + 2) b.

Definition resample : list float32 :=
  for_range H (fun sy => for_range W (fun sx => resample_store sx sy))
    (replicate (Z.to_nat (W * H * 3)) zero).
End Resampler.

(** Lines 232-236: the probability that a triple is the accent colour. *)
Definition distBlack (r g b : float32) : float32 :=
  sqrtf (r * r + g * g + b * b)%f32.
Definition distOrange (r g b : float32) : float32 :=
  sqrtf ((r - one) * (r - one) + (g - c0_549) * (g - c0_549) + b * b)%f32.
Definition totalDist (r g b : float32) : float32 :=
  (distBlack r g b + distOrange r g b)%f32.
Definition orangeProb (r g b : float32) : float32 :=
  if (totalDist r g b >? c0_001)%f32
  then (distBlack r g b / totalDist r g b)%f32
  else half.

Definition AMBIG_LOW : float32 := c0_3.
Definition AMBIG_HIGH : float32 := c0_7.

(** Lines 241-249: the state a probability is given. *)
Definition classify (prob : float32) : PixelState :=
  if (prob <? AMBIG_LOW)%f32 then PIXEL_BLACK
  else if (prob >? AMBIG_HIGH)%f32 then PIXEL_ORANGE
  else PIXEL_AMBIGUOUS.

(** What the classification loop computes: [g_pixelStates],
    [g_orangeProb] and [g_ambiguousIndices]. *)
Record Classes := mkClasses {
  c_states : list PixelState;
  c_prob : list float32;
  c_indices : list Z
}.

Section Classifier.
Variables W H : Z.
Variable imgFloat : list float32.

(** The body of the classification loop, lines 225-249. *)
Definition classify_cell (x y : Z) (c : Classes) : Classes :=
  let idx := (y * W + x) * 3 in
  let pixIdx := y * W + x in
  let r := vget imgFloat idx in
  let g := vget imgFloat (idx + 1) in
  let b := vget imgFloat (idx + 2) in
  let prob := orangeProb r g b in
  match classify prob with
  | PIXEL_BLACK =>
      mkClasses (vset (c_states c) pixIdx PIXEL_BLACK) (c_prob c) (c_indices c)
  | PIXEL_ORANGE =>
      mkClasses (vset (c_states c) pixIdx PIXEL_ORANGE) (c_prob c) (c_indices c)
  | PIXEL_AMBIGUOUS =>
      mkClasses (vset (c_states c) pixIdx PIXEL_AMBIGUOUS)
                (vset (c_prob c) pixIdx prob)
                (c_indices c ++ [pixIdx])
  end.

(** Lines 171-173 and 223-251. *)
Definition classify_all : Classes :=
  for_range H (fun y => for_range W (fun x => classify_cell x y))
    (mkClasses (replicate (Z.to_nat (W * H)) PIXEL_BLACK)
               (replicate (Z.to_nat (W * H)) zero)
               []).

(** The body of the loop that fills the output buffer, lines 259-265. *)
Definition init_cell (states : list PixelState) (x y : Z) (buf : list Z) : list Z :=
  let pixIdx := y * W + x in
  let idx := pixIdx * 4 in
  if decide (vget states pixIdx = PIXEL_BLACK)
  then memcpy4 buf idx BLACK_RGBA
  else memcpy4 buf idx ORANGE_RGBA.

(** Lines 254-267. *)
Definition init_buffer (states : list PixelState) : list Z :=
  for_range H (fun y => for_range W (fun x => init_cell states x y))
    (replicate (Z.to_nat (W * H * 4)) 0).
End Classifier.

(** [loadAndPrepareImage]; [None] is a failed [stbi_load], which leaves
    every global as it was.  The function is called once, at start-up
    (line 793), when the vectors are still empty, so that [resize] fills
    them with zeros. *)
Definition loadAndPrepareImage (file : option Image) (screenWidth screenHeight : Z)
    (e : Engine) : Engine :=
  match file with
  | None => e
  | Some img =>
      let W := Z.quot screenWidth (g_pixelSize e) in
      let H := Z.quot screenHeight (g_pixelSize e) in
      let imgFloat := resample img W H (g_threshold e) in
      let c := classify_all W H imgFloat in
      {| g_algorithm := g_algorithm e; g_threshold := g_threshold e;
         g_pixelSize := g_pixelSize e; g_chaos := g_chaos e;
         g_time := g_time e;
         g_imgWidth := screenWidth; g_imgHeight := screenHeight;
         g_scaledWidth := W; g_scaledHeight := H;
         g_pixelStates := c_states c;
         g_orangeProb := c_prob c;
         g_ambiguousIndices := c_indices c;
         g_scaledPixels := init_buffer W H (c_states c);
         g_rngState := g_rngState e;
         lastY := lastY e; cachedSine := cachedSine e;
         cachedChaos := cachedChaos e; invWidth := invWidth e |}
  end.

(** ** Dithering animation, lines 276-319 *)

Section Dither.
(** [sinf] of the C library. *)
Variable sinf : float32 -> float32.

Definition set_pixel (e : Engine) (idx : Z) (isOrange : bool) : list Z :=
  memcpy4 (g_scaledPixels e) idx (if isOrange then ORANGE_RGBA else BLACK_RGBA).

(** Line 285: the decision of the random strategy, from the stored
    probability and the generator's state. *)
Definition random_decide (prob : float32) (rng : Z) : bool * Z :=
  let '(u, rng') := fastRandFloat rng in
  ((u <? prob)%f32, rng').

(** Lines 283-285 and 315: one cell under the random strategy. *)
Definition dither_random (e : Engine) (pixIdx : Z) : Engine :=
  let idx := pixIdx * 4 in
  let '(isOrange, rng) :=
    random_decide (vget (g_orangeProb e) pixIdx) (g_rngState e) in
  {| g_algorithm := g_algorithm e; g_threshold := g_threshold e;
     g_pixelSize := g_pixelSize e; g_chaos := g_chaos e;
     g_time := g_time e;
     g_imgWidth := g_imgWidth e; g_imgHeight := g_imgHeight e;
     g_scaledWidth := g_scaledWidth e; g_scaledHeight := g_scaledHeight e;
     g_pixelStates := g_pixelStates e;
     g_orangeProb := g_orangeProb e;
     g_ambiguousIndices := g_ambiguousIndices e;
     g_scaledPixels := set_pixel e idx isOrange;
     g_rngState := rng;
     lastY := lastY e; cachedSine := cachedSine e;
     cachedChaos := cachedChaos e; invWidth := invWidth e |}.

(** Lines 296-302: the statics after the test [y != lastY]. *)
Definition refresh_cache (e : Engine) (y : Z) : Z * float32 * float32 * float32 :=
  if decide (y <> lastY e) then
    let wavePhase := (of_int y * c0_8 - g_time e * two)%f32 in
    (y, sinf wavePhase, (of_int (g_chaos e) / c100)%f32,
     (two / of_int (g_scaledWidth e))%f32)
  else (lastY e, cachedSine e, cachedChaos e, invWidth e).

(** Lines 304-312: the decision, from the statics, the stored
    probability and the generator's state. *)
Definition wave_decide (x : Z) (prob sine chaos invW : float32) (rng : Z) : bool * Z :=
  let normalizedX := (of_int x * invW - one)%f32 in
  let waveThreshold := (prob + (normalizedX - sine) * c0_3)%f32 in
  let '(waveThreshold, rng) :=
    if (chaos >? zero)%f32 then
      let '(u, rng') := fastRandFloat rng in
      let randomThreshold := (prob + (u - half) * c0_4)%f32 in
      ((waveThreshold * (one - chaos) + randomThreshold * chaos)%f32, rng')
    else (waveThreshold, rng) in
  ((waveThreshold >? half)%f32, rng).

(** Lines 287-313 and 315: one cell under the wave strategy. *)
Definition dither_wave (e : Engine) (pixIdx : Z) : Engine :=
  let idx := pixIdx * 4 in
  let x := Z.rem pixIdx (g_scaledWidth e) in
  let y := Z.quot pixIdx (g_scaledWidth e) in
  let '(lastY', sine, chaos, invW) := refresh_cache e y in
  let '(isOrange, rng) :=
    wave_decide x (vget (g_orangeProb e) pixIdx) sine chaos invW (g_rngState e) in
  {| g_algorithm := g_algorithm e; g_threshold := g_threshold e;
     g_pixelSize := g_pixelSize e; g_chaos := g_chaos e;
     g_time := g_time e;
     g_imgWidth := g_imgWidth e; g_imgHeight := g_imgHeight e;
     g_scaledWidth := g_scaledWidth e; g_scaledHeight := g_scaledHeight e;
     g_pixelStates := g_pixelStates e;
     g_orangeProb := g_orangeProb e;
     g_ambiguousIndices := g_ambiguousIndices e;
     g_scaledPixels := set_pixel e idx isOrange;
     g_rngState := rng;
     lastY := lastY'; cachedSine := sine;
     cachedChaos := chaos; invWidth := invW |}.

Definition dither_cell (e : Engine) (pixIdx : Z) : Engine :=
  if g_algorithm e =? 1 then dither_random e pixIdx else dither_wave e pixIdx.

(** Line 318. *)
Definition advance_clock (e : Engine) : Engine :=
  {| g_algorithm := g_algorithm e; g_threshold := g_threshold e;
     g_pixelSize := g_pixelSize e; g_chaos := g_chaos e;
     g_time := (g_time e + c0_016)%f32;
     g_imgWidth := g_imgWidth e; g_imgHeight := g_imgHeight e;
     g_scaledWidth := g_scaledWidth e; g_scaledHeight := g_scaledHeight e;
     g_pixelStates := g_pixelStates e;
     g_orangeProb := g_orangeProb e;
     g_ambiguousIndices := g_ambiguousIndices e;
     g_scaledPixels := g_scaledPixels e;
     g_rngState := g_rngState e;
     lastY := lastY e; cachedSine := cachedSine e;
     cachedChaos := cachedChaos e; invWidth := invWidth e |}.

Definition ditherFrame (e : Engine) : Engine :=
  if g_algorithm e =? 0 then e
  else advance_clock (fold_left dither_cell (g_ambiguousIndices e) e).

(** [n] frames of the main loop. *)
Definition frames (n : nat) (e : Engine) : Engine := Nat.iter n ditherFrame e.
End Dither.

(** The 4-byte slot of a cell in the output buffer. *)
Definition slot (buf : list Z) (pixIdx : Z) : list Z :=
  take 4 (drop (Z.to_nat (pixIdx * 4)) buf).

(** * Vocabulary of the properties *)

(** The value [fastRandFloat] returns when the low 16 bits drawn are [k]. *)
Definition draw (k : Z) : float32 := (of_int k / c65535)%f32.

Definition draw_checks (k : Z) : bool :=
  let u := draw k in
  (zero <=? u)%f32 && (u <=? one)%f32
  && negb (is_nan u)
  && negb (u <? zero)%f32
  && Bool.eqb (u <? one)%f32 (negb (k =? 65535))
  && Bool.eqb (eqb u one) (k =? 65535).

(** The state of the generator after [n] calls of [fastRand] from the seed
    of line 135. *)
Definition rng_after (n : nat) : Z := Nat.iter n fastRand 12345.

(** The parts of the engine that only [loadAndPrepareImage] and [main]
    write: the configuration and the classification. *)
Definition same_classification (e e' : Engine) : Prop :=
  g_algorithm e' = g_algorithm e /\ g_threshold e' = g_threshold e
  /\ g_pixelSize e' = g_pixelSize e /\ g_chaos e' = g_chaos e
  /\ g_imgWidth e' = g_imgWidth e /\ g_imgHeight e' = g_imgHeight e
  /\ g_scaledWidth e' = g_scaledWidth e /\ g_scaledHeight e' = g_scaledHeight e
  /\ g_pixelStates e' = g_pixelStates e /\ g_orangeProb e' = g_orangeProb e
  /\ g_ambiguousIndices e' = g_ambiguousIndices e.

Definition cell_prob (imgFloat : list float32) (pixIdx : Z) : float32 :=
  orangeProb (vget imgFloat (pixIdx * 3)) (vget imgFloat (pixIdx * 3 + 1))
             (vget imgFloat (pixIdx * 3 + 2)).
Definition cell_state (imgFloat : list float32) (pixIdx : Z) : PixelState :=
  classify (cell_prob imgFloat pixIdx).
Definition uncertain_cells (imgFloat : list float32) (n : Z) : list Z :=
  filter (fun i => cell_state imgFloat i = PIXEL_AMBIGUOUS) (seqZ 0 n).

Record classified (imgFloat : list float32) (n done : Z) (c : Classes) : Prop := {
  cl_states_len : Z.of_nat (length (c_states c)) = n;
  cl_prob_len : Z.of_nat (length (c_prob c)) = n;
  cl_states : forall i, 0 <= i < done -> vget (c_states c) i = cell_state imgFloat i;
  cl_prob : forall i, 0 <= i < done -> cell_state imgFloat i = PIXEL_AMBIGUOUS ->
                      vget (c_prob c) i = cell_prob imgFloat i;
  cl_indices : c_indices c = uncertain_cells imgFloat done
}.

Definition colour_of (st : PixelState) : list Z :=
  if decide (st = PIXEL_BLACK) then BLACK_RGBA else ORANGE_RGBA.

Record painted (states : list PixelState) (n done : Z) (buf : list Z) : Prop := {
  pt_len : Z.of_nat (length buf) = n * 4;
  pt_slot : forall i, 0 <= i < done -> slot buf i = colour_of (vget states i)
}.

(** What the start-up code guarantees when it calls [loadAndPrepareImage]:
    a screen that is not of negative size, and a block size of at least 1
    (line 770). *)
Definition screen_ok (screenWidth screenHeight : Z) (e : Engine) : Prop :=
  0 <= screenWidth /\ 0 <= screenHeight /\ 1 <= g_pixelSize e.

(** The number of cells of the target grid. *)
Definition cells (e : Engine) : Z := g_scaledWidth e * g_scaledHeight e.

(** The invariant that ties the output buffer to the classification. *)
Record ready (e : Engine) : Prop := {
  rd_states_len : Z.of_nat (length (g_pixelStates e)) = cells e;
  rd_pixels_len : Z.of_nat (length (g_scaledPixels e)) = cells e * 4;
  rd_indices : g_ambiguousIndices e
               = filter (fun i => vget (g_pixelStates e) i = PIXEL_AMBIGUOUS)
                        (seqZ 0 (cells e));
  rd_fixed : forall i, 0 <= i < cells e ->
               vget (g_pixelStates e) i <> PIXEL_AMBIGUOUS ->
               slot (g_scaledPixels e) i = colour_of (vget (g_pixelStates e) i);
  rd_two : forall i, 0 <= i < cells e ->
             slot (g_scaledPixels e) i = BLACK_RGBA
             \/ slot (g_scaledPixels e) i = ORANGE_RGBA
}.


(** ** Instances for closed statements *)

(** A small image used to instantiate the theorems: two by two texels,
    black, dark orange, the accent colour and dark grey. *)
Definition sample_image : Image :=
  mkImage [0; 0; 0;  128; 70; 0;  255; 140; 0;  60; 60; 60] 2 2.

(** A stand-in for the C library's [sinf] where a closed statement needs
    one: the first term of the sine series. *)
Definition sinf_linear (x : float32) : float32 := x.

Definition with_algorithm (a : Z) (e : Engine) : Engine :=
  {| g_algorithm := a; g_threshold := g_threshold e;
     g_pixelSize := g_pixelSize e; g_chaos := g_chaos e;
     g_time := g_time e;
     g_imgWidth := g_imgWidth e; g_imgHeight := g_imgHeight e;
     g_scaledWidth := g_scaledWidth e; g_scaledHeight := g_scaledHeight e;
     g_pixelStates := g_pixelStates e;
     g_orangeProb := g_orangeProb e;
     g_ambiguousIndices := g_ambiguousIndices e;
     g_scaledPixels := g_scaledPixels e;
     g_rngState := g_rngState e;
     lastY := lastY e; cachedSine := cachedSine e;
     cachedChaos := cachedChaos e; invWidth := invWidth e |}.

(** The sample image on a screen of four by four cells. *)
Definition sample_engine (algorithm : Z) : Engine :=
  loadAndPrepareImage (Some sample_image) 4 4 (with_algorithm algorithm initial_engine).

(** * Vocabulary for binary32 rounding *)

(** The smallest exponent and the exponent of the format at a magnitude. *)
Definition emin32 : Z := -149.
Definition fexp32 (e : Z) : Z := Z.max (e - 24) (-149).

(** What [binary_round_aux] returns for the rounded mantissa [mr] at
    exponent [e1]: a zero, a float of the format with the same value, or
    an infinity when the value is [2 ^ 128] or more. *)
Inductive rounded (sx : bool) (mr e1 : Z) : float32 -> Prop :=
| rounded_zero :
    mr = 0 -> rounded sx mr e1 (S754_zero sx)
| rounded_finite (m : positive) (e : Z) :
    0 < mr -> bounded prec emax m e = true -> e1 <= e ->
    Zpos m * 2 ^ (e - e1) = mr ->
    rounded sx mr e1 (S754_finite sx m e)
| rounded_overflow (m e : Z) :
    0 < mr -> 104 < e -> e1 <= e -> 2 ^ 23 <= m -> m * 2 ^ (e - e1) = mr ->
    rounded sx mr e1 (S754_infinity sx).

Definition finish (sx : bool) (mrs : shr_record) (e : Z) : float32 :=
  match shr_m mrs with
  | Z0 => S754_zero sx
  | Zpos m => if Z.leb e (emax - prec) then S754_finite sx m e else S754_infinity sx
  | Zneg _ => S754_nan
  end.

Definition bpow (e : Z) : R := powerRZ 2 e.
Definition F2R (m e : Z) : R := (IZR m * bpow e)%R.
(** The real number a float stands for; 0 for infinities and NaN. *)
Definition B2R (x : float32) : R :=
  match x with
  | S754_finite s m e => F2R (cond_Zopp s (Zpos m)) e
  | _ => 0%R
  end.
Definition is_finite (x : float32) : bool :=
  match x with
  | S754_zero _ | S754_finite _ _ _ => true
  | _ => false
  end.
(** A float of the format: finite, and with the mantissa and exponent
    the format gives its value.  Every value the source computes with is
    of this kind. *)
Definition fin32 (x : float32) : Prop :=
  is_finite x = true /\ valid_binary prec emax x = true.
Definition signed (s : bool) (a : R) : R := if s then (- a)%R else a.

(** The error of one rounding: a relative error of at most [2 ^ -23] of
    the exact value, plus an absolute error of at most [2 ^ -149] that
    only matters for subnormal results. *)
Definition close (v a : R) : Prop :=
  (Rabs (a - v) <= bpow (-23) * Rabs v + bpow (-149))%R.

(** [r] is a float of the format that stands for the exact value [v] up
    to one rounding, and has its sign. *)
Record rounds (v : R) (r : float32) : Prop := {
  rounds_fin : fin32 r;
  rounds_close : close v (B2R r);
  rounds_nonneg : (0 <= v -> 0 <= B2R r)%R;
  rounds_nonpos : (v <= 0 -> B2R r <= 0)%R
}.

(** [r] stands for [v] up to one rounding, and the rounding did not cross
    any float of the format: the result of an addition, a subtraction, a
    multiplication or a conversion. *)
Record rounds_mono (v : R) (r : float32) : Prop := {
  rnd_rounds : rounds v r;
  rnd_below : forall t, fin32 t -> (B2R t <= v)%R -> (B2R t <= B2R r)%R;
  rnd_above : forall t, fin32 t -> (v <= B2R t)%R -> (B2R r <= B2R t)%R
}.

Definition cmp_prop (c : comparison) (a b : R) : Prop :=
  match c with
  | Lt => (a < b)%R
  | Eq => a = b
  | Gt => (b < a)%R
  end.

(** * Vocabulary of the numerical analysis *)

(** The float that stands for [2 ^ k]. *)
Definition pow2f (k : Z) : float32 := S754_finite false 8388608 (k - 23).

(** A float of the format of magnitude at most [2 ^ k]. *)
Definition within (k : Z) (x : float32) : Prop :=
  fin32 x /\ (Rabs (B2R x) <= bpow k)%R.


(** A float of the format between 0 and the integer [M]. *)
Definition ranged (M : Z) (x : float32) : Prop :=
  fin32 x /\ (0 <= B2R x <= IZR M)%R.

(** What [stbi_load] returns: a raster of bytes, of a size whose indices
    fit an [int]. *)
Definition image_ok (img : Image) : Prop :=
  1 <= origWidth img <= 16384 /\ 1 <= origHeight img <= 16384
  /\ Forall (fun v => 0 <= v <= 255) (img_data img).

(** ** The resampler, as the specification words it *)

(** The fractional source coordinate of the target index [i]. *)
Definition source_coord (i target size : Z) : float32 :=
  (of_int i / of_int target * of_int size)%f32.
(** The second neighbour, clamped to the last valid index. *)
Definition clamped_next (i size : Z) : Z := Z.min (i + 1) (size - 1).
Definition luma (r g b : float32) : float32 :=
  (c0_299 * r + c0_587 * g + c0_114 * b)%f32.
(** The bilinear interpolation of channel [c] at [(srcX, srcY)]. *)
Definition bilinear (img : Image) (srcX srcY : float32) (c : Z) : float32 :=
  let x0 := to_int srcX in
  let y0 := to_int srcY in
  let x1 := clamped_next x0 (origWidth img) in
  let y1 := clamped_next y0 (origHeight img) in
  let fx := (srcX - of_int x0)%f32 in
  let fy := (srcY - of_int y0)%f32 in
  let source x y := texel img ((y * origWidth img + x) * 3 + c) in
  ((source x0 y0 * (one - fx) * (one - fy)
    + source x1 y0 * fx * (one - fy)
    + source x0 y1 * (one - fx) * fy
    + source x1 y1 * fx * fy) / c255)%f32.
Definition resampled_cell (img : Image) (W H threshold sx sy : Z)
    : float32 * float32 * float32 :=
  let srcX := source_coord sx W (origWidth img) in
  let srcY := source_coord sy H (origHeight img) in
  let r := bilinear img srcX srcY 0 in
  let g := bilinear img srcX srcY 1 in
  let b := bilinear img srcX srcY 2 in
  if (luma r g b <? of_int threshold / c255)%f32 then (zero, zero, zero)
  else (r, g, b).


(** A component of a resampled triple: a float of the format between 0
    and 1, up to the roundings of the interpolation. *)
Definition near_unit (x : float32) : Prop :=
  fin32 x /\ (0 <= B2R x <= 1 + 1 / 524288)%R.
Definition near_unit3 (c : float32 * float32 * float32) : Prop :=
  near_unit c.1.1 /\ near_unit c.1.2 /\ near_unit c.2.


(** The triple of a cell in the raster of floats. *)
Definition cell_triple (imgFloat : list float32) (pixIdx : Z)
    : float32 * float32 * float32 :=
  (vget imgFloat (pixIdx * 3), vget imgFloat (pixIdx * 3 + 1),
   vget imgFloat (pixIdx * 3 + 2)).

(** The raster of floats when the cells before [done] have been stored. *)
Record stored (img : Image) (W H threshold done : Z) (acc : list float32) : Prop := {
  st_len : Z.of_nat (length acc) = W * H * 3;
  st_cell : forall x y, 0 <= x < W -> 0 <= y -> y * W + x < done ->
              cell_triple acc (y * W + x) = resample_cell img W H threshold x y
}.

(** The size of the target grid: its indices fit an [int]. *)
Definition grid_ok (e : Engine) : Prop :=
  g_scaledWidth e <= 16384 /\ g_scaledHeight e <= 16384 /\ 0 <= g_threshold e.


(** A white image of two by two texels. *)
Definition white_image : Image := mkImage (replicate 12 255) 2 2.


(** A clock the engine can reach: a float of the format between 0 and
    [2 ^ 19]. *)
Definition clock_ok (t : float32) : Prop :=
  fin32 t /\ (0 <= B2R t <= bpow 19)%R.

(** The engine with another clock. *)
Definition with_clock (t : float32) (e : Engine) : Engine :=
  {| g_algorithm := g_algorithm e; g_threshold := g_threshold e;
     g_pixelSize := g_pixelSize e; g_chaos := g_chaos e;
     g_time := t;
     g_imgWidth := g_imgWidth e; g_imgHeight := g_imgHeight e;
     g_scaledWidth := g_scaledWidth e; g_scaledHeight := g_scaledHeight e;
     g_pixelStates := g_pixelStates e;
     g_orangeProb := g_orangeProb e;
     g_ambiguousIndices := g_ambiguousIndices e;
     g_scaledPixels := g_scaledPixels e;
     g_rngState := g_rngState e;
     lastY := lastY e; cachedSine := cachedSine e;
     cachedChaos := cachedChaos e; invWidth := invWidth e |}.


(** The function-local statics of [ditherFrame]. *)
Definition statics (e : Engine) : Z * float32 * float32 * float32 :=
  (lastY e, cachedSine e, cachedChaos e, invWidth e).

(** The globals after [main] has parsed its arguments. *)
Definition configured (algorithm threshold pixelSize chaos : Z) : Engine :=
  {| g_algorithm := algorithm; g_threshold := threshold; g_pixelSize := pixelSize;
     g_chaos := chaos; g_time := zero; g_imgWidth := 0; g_imgHeight := 0;
     g_scaledWidth := 0; g_scaledHeight := 0;
     g_pixelStates := []; g_orangeProb := []; g_ambiguousIndices := [];
     g_scaledPixels := []; g_rngState := 12345;
     lastY := -1; cachedSine := zero; cachedChaos := zero; invWidth := zero |}.

(** Two images of two by two texels with the same first row, black and
    (165, 0, 0); the second row is black in the first image and a copy of
    the first row in the second. *)
Definition one_row_image : Image :=
  mkImage [0; 0; 0;  165; 0; 0;  0; 0; 0;  0; 0; 0] 2 2.
Definition two_row_image : Image :=
  mkImage [0; 0; 0;  165; 0; 0;  0; 0; 0;  165; 0; 0] 2 2.
(** The two images on a screen of 1280 by 1024 pixels with blocks of 512
    pixels, a grid of two by two cells, under the wave strategy with
    chaos 0. *)
Definition one_row_engine : Engine :=
  loadAndPrepareImage (Some one_row_image) 1280 1024 (configured 2 40 512 0).
Definition two_row_engine : Engine :=
  loadAndPrepareImage (Some two_row_image) 1280 1024 (configured 2 40 512 0).

(** The wave phase of row 0 at the clock 0.016, [-0.032]. *)
Definition phase_0_016 : float32 := S754_finite true 8589935 (-28).
(** The stored probability of cell 1 of the two engines. *)
Definition prob_165 : float32 := S754_finite false 16704881 (-25).


(** The decision the wave strategy takes for the cell [pixIdx] in the
    state [e]: lines 296-312, with the statics as they are in [e]. *)
Definition wave_decision (sinf : float32 -> float32) (e : Engine) (pixIdx : Z) : bool :=
  let c := refresh_cache sinf e (Z.quot pixIdx (g_scaledWidth e)) in
  (wave_decide (Z.rem pixIdx (g_scaledWidth e)) (vget (g_orangeProb e) pixIdx)
     c.1.1.2 c.1.2 c.2 (g_rngState e)).1.

(** The wave strategy with chaos 0 on a grid two cells wide. *)
Record wave_2 (e : Engine) : Prop := {
  w2_algorithm : g_algorithm e = 2;
  w2_chaos : g_chaos e = 0;
  w2_width : g_scaledWidth e = 2;
  w2_prob : vget (g_orangeProb e) 1 = prob_165;
  w2_length : Z.of_nat (length (g_scaledPixels e)) = 16
}.

(** * The rest of the program: the command line, the start and the rendering *)

(** ** [main]: the command line, lines 758-773 *)

(** The globals the command line sets, lines 73-78. *)
Record Config := mkConfig {
  c_algorithm : Z;
  c_threshold : Z;
  c_pixelSize : Z;
  c_maxFps : Z;
  c_profile : Z;
  c_chaos : Z
}.

Definition default_config : Config := mkConfig 2 40 1 60 1 10.


(** Lines 767-773. *)
Definition validate (c : Config) : Config :=
  let algorithm :=
    if (c_algorithm c <? 0) || (2 <? c_algorithm c) then 1 else c_algorithm c in
  let threshold := if c_threshold c <? 0 then 0 else c_threshold c in
  let threshold := if 255 <? threshold then 255 else threshold in
  let pixelSize := if c_pixelSize c <? 1 then 1 else c_pixelSize c in
  let maxFps := if c_maxFps c <? 0 then 0 else c_maxFps c in
  let chaos := if c_chaos c <? 0 then 0 else c_chaos c in
  let chaos := if 100 <? chaos then 100 else chaos in
  {| c_algorithm := algorithm; c_threshold := threshold; c_pixelSize := pixelSize;
     c_maxFps := maxFps; c_profile := c_profile c; c_chaos := chaos |}.

(** The engine when [main] calls [loadAndPrepareImage], line 793. *)
Definition engine_of (c : Config) : Engine :=
  configured (c_algorithm c) (c_threshold c) (c_pixelSize c) (c_chaos c).


(** ** [platformRender] of X11, lines 685-706 *)

(** The body of the loops, lines 688-701: the four bytes of the screen
    pixel [(x, y)] in [g_imageData], taken from the cell the pixel lies
    in.  The bytes are the ones [XPutImage] reads. *)
Definition render_pixel (e : Engine) (x y : Z) (imageData : list Z) : list Z :=
  let srcX := Z.quot x (g_pixelSize e) in
  let srcY := Z.quot y (g_pixelSize e) in
  let srcX := if g_scaledWidth e <=? srcX then g_scaledWidth e - 1 else srcX in
  let srcY := if g_scaledHeight e <=? srcY then g_scaledHeight e - 1 else srcY in
  let srcIdx := (srcY * g_scaledWidth e + srcX) * 4 in
  let dstIdx := (y * g_imgWidth e + x) * 4 in
  let imageData := vset imageData (dstIdx + 0) (vget (g_scaledPixels e) (srcIdx + 2)) in
  let imageData := vset imageData (dstIdx + 1) (vget (g_scaledPixels e) (srcIdx + 1)) in
  let imageData := vset imageData (dstIdx + 2) (vget (g_scaledPixels e) (srcIdx + 0)) in
  vset imageData (dstIdx + 3) 0.

(** Lines 686-702: [g_imageData] when it is handed to [XPutImage]. *)
Definition platformRender (e : Engine) (imageData : list Z) : list Z :=
  for_range (g_imgHeight e)
    (fun y => for_range (g_imgWidth e) (fun x => render_pixel e x y))
    imageData.

(** * Vocabulary of the further properties *)

(** A value of a [uint32_t]. *)
Definition word32 (x : Z) : Prop := 0 <= x < 2 ^ 32.

(** [cachedChaos] when it has been computed: [g_chaos / 100.0f]. *)
Definition chaos_level (e : Engine) : float32 := (of_int (g_chaos e) / c100)%f32.

(** The statics hold the chaos level of the configuration, or have not
    been written yet. *)
Definition chaos_cached (e : Engine) : Prop :=
  cachedChaos e = chaos_level e \/ lastY e = -1.

(** A configuration that validation accepts as it is. *)
Definition valid_config (c : Config) : Prop :=
  0 <= c_algorithm c <= 2 /\ 0 <= c_threshold c <= 255 /\ 1 <= c_pixelSize c
  /\ 0 <= c_maxFps c /\ 0 <= c_chaos c <= 100.

(** The cell a screen pixel shows, and the bytes of a cell in the order of
    the screen. *)
Definition cell_of_pixel (e : Engine) (x y : Z) : Z :=
  Z.min (y / g_pixelSize e) (g_scaledHeight e - 1) * g_scaledWidth e
  + Z.min (x / g_pixelSize e) (g_scaledWidth e - 1).
Definition bgrx (rgba : list Z) : list Z :=
  [vget rgba 2; vget rgba 1; vget rgba 0; 0].

(** [g_imageData] when the screen pixels before [done] have been written. *)
Record rendered (e : Engine) (done : Z) (data : list Z) : Prop := {
  rn_len : Z.of_nat (length data) = g_imgWidth e * g_imgHeight e * 4;
  rn_pixel : forall x y, 0 <= x < g_imgWidth e -> 0 <= y ->
               y * g_imgWidth e + x < done ->
               slot data (y * g_imgWidth e + x)
               = bgrx (slot (g_scaledPixels e) (cell_of_pixel e x y))
}.

(** The geometry [loadAndPrepareImage] sets up, with a grid that is not
    empty. *)
Definition geometry_ok (e : Engine) : Prop :=
  1 <= g_pixelSize e
  /\ g_scaledWidth e = Z.quot (g_imgWidth e) (g_pixelSize e)
  /\ g_scaledHeight e = Z.quot (g_imgHeight e) (g_pixelSize e)
  /\ 1 <= g_scaledWidth e /\ 1 <= g_scaledHeight e
  /\ Z.of_nat (length (g_scaledPixels e)) = g_scaledWidth e * g_scaledHeight e * 4.

(** The engine with another state of the generator. *)
Definition with_rng (r : Z) (e : Engine) : Engine :=
  {| g_algorithm := g_algorithm e; g_threshold := g_threshold e;
     g_pixelSize := g_pixelSize e; g_chaos := g_chaos e;
     g_time := g_time e;
     g_imgWidth := g_imgWidth e; g_imgHeight := g_imgHeight e;
     g_scaledWidth := g_scaledWidth e; g_scaledHeight := g_scaledHeight e;
     g_pixelStates := g_pixelStates e;
     g_orangeProb := g_orangeProb e;
     g_ambiguousIndices := g_ambiguousIndices e;
     g_scaledPixels := g_scaledPixels e;
     g_rngState := r;
     lastY := lastY e; cachedSine := cachedSine e;
     cachedChaos := cachedChaos e; invWidth := invWidth e |}.

(** The stored probabilities when the cells before [done] have been
    classified: the ones of the cells that are not Uncertain are the
    zeros of [resize]. *)
Record sparse (imgFloat : list float32) (n done : Z) (c : Classes) : Prop := {
  sp_len : Z.of_nat (length (c_prob c)) = n;
  sp_zero : forall i, 0 <= i < n ->
              done <= i \/ cell_state imgFloat i <> PIXEL_AMBIGUOUS ->
              vget (c_prob c) i = zero
}.
(** * Properties *)

(** ** The generator *)

Lemma low16_range (z : Z) : 0 <= Z.land z 0xFFFF <= 65535.
Proof.
  pose proof (Z.land_ones z 16 ltac:(lia)) as Hland.
  change (Z.ones 16) with 65535 in Hland. change (2 ^ 16) with 65536 in Hland.
  pose proof (Z.mod_pos_bound z 65536 eq_refl). lia.
Qed.

Lemma fastRandFloat_draw (s : Z) :
  fastRandFloat s = (draw (Z.land (fastRand s) 0xFFFF), fastRand s).
Proof. reflexivity. Qed.

(** All 65536 values of the low 16 bits, 256 rows of 256. *)
Lemma draw_checks_all :
  forallb (fun a => forallb (fun b => draw_checks (256 * a + b)) (seqZ 0 256))
          (seqZ 0 256) = true.
Proof. vm_compute. reflexivity. Qed.

Lemma draw_checked (k : Z) : 0 <= k <= 65535 -> draw_checks k = true.
Proof.
  intros Hk. pose proof draw_checks_all as Hall.
  rewrite forallb_forall in Hall.
  specialize (Hall (k / 256)). rewrite forallb_forall in Hall.
  rewrite (Z.div_mod k 256) at 1 by lia.
  apply Hall; apply list_elem_of_In, elem_of_seqZ.
  - split; [apply Z.div_pos; lia | apply Z.div_lt_upper_bound; lia].
  - pose proof (Z.mod_pos_bound k 256 eq_refl). lia.
Qed.

Lemma draw_unit_interval (k : Z) :
  0 <= k <= 65535 -> (zero <=? draw k)%f32 = true /\ (draw k <=? one)%f32 = true.
Proof.
  intros Hk. pose proof (draw_checked k Hk) as H. unfold draw_checks in H.
  repeat (apply andb_prop in H; destruct H as [H ?]). auto.
Qed.

Lemma draw_not_negative (k : Z) : 0 <= k <= 65535 -> (draw k <? zero)%f32 = false.
Proof.
  intros Hk. pose proof (draw_checked k Hk) as H. unfold draw_checks in H.
  repeat (apply andb_prop in H; destruct H as [H ?]).
  by apply negb_true_iff.
Qed.

Lemma draw_below_one (k : Z) :
  0 <= k <= 65535 -> (draw k <? one)%f32 = negb (k =? 65535).
Proof.
  intros Hk. pose proof (draw_checked k Hk) as H. unfold draw_checks in H.
  repeat (apply andb_prop in H; destruct H as [H ?]).
  by apply Bool.eqb_prop.
Qed.


Lemma draw_is_one (k : Z) :
  0 <= k <= 65535 -> F32.eqb (draw k) one = (k =? 65535).
Proof.
  intros Hk. pose proof (draw_checked k Hk) as H. unfold draw_checks in H.
  repeat (apply andb_prop in H; destruct H as [H ?]).
  by apply Bool.eqb_prop.
Qed.

(** * binary32 rounding, from the definitions of [SpecFloat] *)

Lemma fexp32_spec (e : Z) : SpecFloat.fexp prec emax e = fexp32 e.
Proof. reflexivity. Qed.

Lemma pow2_pos (n : Z) : 0 <= n -> 0 < 2 ^ n.
Proof. intros Hn. apply Z.pow_pos_nonneg; lia. Qed.

Lemma pow2_succ (n : Z) : 0 <= n -> 2 ^ (n + 1) = 2 * 2 ^ n.
Proof. intros Hn. rewrite Z.pow_add_r by lia. lia. Qed.

Lemma pow2_le (a b : Z) : 0 <= a <= b -> 2 ^ a <= 2 ^ b.
Proof. intros H. apply Z.pow_le_mono_r; lia. Qed.

Lemma pow2_lt (a b : Z) : 0 <= a < b -> 2 ^ a < 2 ^ b.
Proof. intros H. apply Z.pow_lt_mono_r; lia. Qed.

(** ** Number of binary digits *)

Lemma digits2_pos_bounds (p : positive) :
  2 ^ (Zpos (digits2_pos p) - 1) <= Zpos p < 2 ^ Zpos (digits2_pos p).
Proof.
  induction p as [p IH|p IH|]; simpl digits2_pos.
  - rewrite Pos2Z.inj_succ.
    replace (Z.succ (Zpos (digits2_pos p)) - 1) with (Zpos (digits2_pos p) - 1 + 1) by lia.
    replace (Z.succ (Zpos (digits2_pos p))) with (Zpos (digits2_pos p) + 1) by lia.
    rewrite !pow2_succ by lia. lia.
  - rewrite Pos2Z.inj_succ.
    replace (Z.succ (Zpos (digits2_pos p)) - 1) with (Zpos (digits2_pos p) - 1 + 1) by lia.
    replace (Z.succ (Zpos (digits2_pos p))) with (Zpos (digits2_pos p) + 1) by lia.
    rewrite !pow2_succ by lia. lia.
  - simpl. lia.
Qed.

Lemma Zdigits2_bounds (m : Z) :
  0 < m -> 0 < Zdigits2 m /\ 2 ^ (Zdigits2 m - 1) <= m < 2 ^ Zdigits2 m.
Proof.
  destruct m as [|p|p]; try lia. intros _. simpl.
  split; [lia | apply digits2_pos_bounds].
Qed.

Lemma Zdigits2_unique (m d : Z) :
  0 < m -> 2 ^ (d - 1) <= m < 2 ^ d -> Zdigits2 m = d.
Proof.
  intros Hm Hd. destruct (Zdigits2_bounds m Hm) as [Hpos Hb].
  assert (0 < d).
  { destruct (Z_lt_le_dec 0 d); [done|].
    assert (2 ^ d <= 1); [|lia].
    destruct (Z.eq_dec d 0) as [->|]; [simpl; lia|].
    rewrite Z.pow_neg_r by lia. lia. }
  destruct (Z_lt_le_dec (Zdigits2 m) d) as [Hlt|Hge].
  - pose proof (pow2_le (Zdigits2 m) (d - 1) ltac:(lia)). lia.
  - destruct (Z_lt_le_dec d (Zdigits2 m)) as [Hlt|Hle]; [|lia].
    pose proof (pow2_le d (Zdigits2 m - 1) ltac:(lia)). lia.
Qed.

Lemma Zdigits2_nonneg (m : Z) : 0 <= Zdigits2 m.
Proof. destruct m; simpl; lia. Qed.

Lemma Zdigits2_le (m d : Z) : 0 <= d -> 0 <= m < 2 ^ d -> Zdigits2 m <= d.
Proof.
  intros Hd Hm. destruct (Z.eq_dec m 0) as [->|]; [simpl; lia|].
  destruct (Zdigits2_bounds m ltac:(lia)) as [Hpos Hb].
  destruct (Z_lt_le_dec d (Zdigits2 m)) as [Hlt|]; [|lia].
  pose proof (pow2_le d (Zdigits2 m - 1) ltac:(lia)). lia.
Qed.

Lemma Zdigits2_ge (m d : Z) : 0 < d -> 2 ^ (d - 1) <= m -> d <= Zdigits2 m.
Proof.
  intros Hd Hm. pose proof (pow2_pos (d - 1) ltac:(lia)).
  destruct (Zdigits2_bounds m ltac:(lia)) as [Hpos Hb].
  destruct (Z_lt_le_dec (Zdigits2 m) d) as [Hlt|]; [|lia].
  pose proof (pow2_le (Zdigits2 m) (d - 1) ltac:(lia)). lia.
Qed.

(** Digits of a quotient by a power of two. *)
Lemma div_pow2_bounds (m d n : Z) :
  0 <= n < d -> 2 ^ (d - 1) <= m < 2 ^ d ->
  2 ^ (d - n - 1) <= m / 2 ^ n < 2 ^ (d - n).
Proof.
  intros Hn Hm. pose proof (pow2_pos n ltac:(lia)) as Hp.
  split.
  - apply Z.div_le_lower_bound; [lia|].
    rewrite <- Z.pow_add_r by lia. replace (n + (d - n - 1)) with (d - 1) by lia. lia.
  - apply Z.div_lt_upper_bound; [lia|].
    rewrite <- Z.pow_add_r by lia. replace (n + (d - n)) with d by lia. lia.
Qed.

(** ** Shifting right *)

Lemma shr_1_m (mrs : shr_record) :
  0 <= shr_m mrs -> shr_m (shr_1 mrs) = shr_m mrs / 2.
Proof.
  destruct mrs as [m r s]. cbn [shr_m shr_1]. intros Hm.
  destruct m as [|[p|p|]|p]; cbn [shr_m]; try lia; try reflexivity.
  - apply (Z.div_unique (Zpos p~1) 2 (Zpos p) 1); lia.
  - apply (Z.div_unique (Zpos p~0) 2 (Zpos p) 0); lia.
Qed.

Lemma iter_pos_shr_1_m (n : positive) (mrs : shr_record) :
  0 <= shr_m mrs ->
  shr_m (SpecFloat.iter_pos shr_1 n mrs) = shr_m mrs / 2 ^ Zpos n.
Proof.
  revert mrs. induction n as [n IH|n IH|]; intros mrs Hm; cbn [SpecFloat.iter_pos].
  - assert (H1 : 0 <= shr_m (shr_1 mrs)) by (rewrite shr_1_m by done; apply Z.div_pos; lia).
    assert (H2 : 0 <= shr_m (SpecFloat.iter_pos shr_1 n (shr_1 mrs))).
    { rewrite IH by done. apply Z.div_pos; [done|]. apply pow2_pos; lia. }
    rewrite IH by done. rewrite IH by done. rewrite shr_1_m by done.
    pose proof (pow2_pos (Zpos n) ltac:(lia)).
    rewrite !Z.div_div by lia. f_equal.
    assert (Hp : 2 ^ Zpos n~1 = 2 * (2 ^ Zpos n * 2 ^ Zpos n)).
    { rewrite <- Z.pow_add_r by lia. rewrite <- pow2_succ by lia. f_equal. lia. }
    rewrite Hp. ring.
  - assert (H2 : 0 <= shr_m (SpecFloat.iter_pos shr_1 n mrs)).
    { rewrite IH by done. apply Z.div_pos; [done|]. apply pow2_pos; lia. }
    rewrite IH by done. rewrite IH by done.
    pose proof (pow2_pos (Zpos n) ltac:(lia)).
    rewrite Z.div_div by lia. f_equal.
    rewrite <- Z.pow_add_r by lia. f_equal. lia.
  - rewrite shr_1_m by done. done.
Qed.

Lemma shr_record_of_loc_m (m : Z) (l : location) : shr_m (shr_record_of_loc m l) = m.
Proof. by destruct l as [|[]]. Qed.

(** [shr] divides the mantissa by [2 ^ n] and adds [n] to the exponent
    when [n] is positive, and does nothing otherwise. *)
Lemma shr_spec (mrs : shr_record) (e n : Z) :
  0 <= shr_m mrs ->
  shr_m (fst (shr mrs e n)) = shr_m mrs / 2 ^ Z.max n 0
  /\ snd (shr mrs e n) = e + Z.max n 0.
Proof.
  intros Hm. destruct n as [|p|p]; simpl.
  - rewrite Z.div_1_r. lia.
  - rewrite iter_pos_shr_1_m by done. split; [done|lia].
  - rewrite Z.div_1_r. lia.
Qed.

Lemma iter_pos_nat {A} (f : A -> A) (n : positive) (x : A) :
  SpecFloat.iter_pos f n x = Nat.iter (Pos.to_nat n) f x.
Proof.
  revert x. induction n as [n IH|n IH|]; intros x; cbn [SpecFloat.iter_pos].
  - rewrite !IH. rewrite Pos2Nat.inj_xI.
    replace (S (2 * Pos.to_nat n)) with (Pos.to_nat n + (Pos.to_nat n + 1))%nat by lia.
    rewrite !Nat.iter_add. simpl. done.
  - rewrite !IH. rewrite Pos2Nat.inj_xO.
    replace (2 * Pos.to_nat n)%nat with (Pos.to_nat n + Pos.to_nat n)%nat by lia.
    by rewrite Nat.iter_add.
  - reflexivity.
Qed.

Lemma shr_1_r (mrs : shr_record) :
  0 <= shr_m mrs -> shr_r (shr_1 mrs) = Z.odd (shr_m mrs).
Proof. destruct mrs as [[|[p|p|]|p] r s]; simpl; intros; try done; lia. Qed.

Lemma shr_1_s (mrs : shr_record) :
  shr_s (shr_1 mrs) = shr_r mrs || shr_s mrs.
Proof. by destruct mrs as [[|[p|p|]|[p|p|]] r s]. Qed.

(** Shifting an exact mantissa right by [k] digits that are all zero
    leaves an exact location. *)
Lemma shr_exact (X : Z) (k : nat) :
  0 <= X -> X mod 2 ^ Z.of_nat k = 0 ->
  let mrs := Nat.iter k shr_1 (shr_record_of_loc X loc_Exact) in
  shr_m mrs = X / 2 ^ Z.of_nat k /\ shr_r mrs = false /\ shr_s mrs = false.
Proof.
  intros HX. induction k as [|k IH]; intros Hmod.
  - simpl. rewrite Z.div_1_r. done.
  - cbn [Nat.iter]. cbv zeta.
    rewrite Nat2Z.inj_succ in *. replace (Z.succ (Z.of_nat k)) with (Z.of_nat k + 1) in * by lia.
    rewrite pow2_succ in * by lia.
    pose proof (pow2_pos (Z.of_nat k) ltac:(lia)) as Hp.
    assert (Hdiv : X = 2 * 2 ^ Z.of_nat k * (X / (2 * 2 ^ Z.of_nat k))).
    { pose proof (Z.div_mod X (2 * 2 ^ Z.of_nat k) ltac:(lia)). lia. }
    set (q := X / (2 * 2 ^ Z.of_nat k)) in *.
    assert (Hk : X / 2 ^ Z.of_nat k = 2 * q).
    { rewrite Hdiv at 1. replace (2 * 2 ^ Z.of_nat k * q) with (2 * q * 2 ^ Z.of_nat k) by ring.
      apply Z.div_mul. lia. }
    destruct IH as (Hm & Hr & Hs).
    { rewrite Hdiv. replace (2 * 2 ^ Z.of_nat k * q) with (2 * q * 2 ^ Z.of_nat k) by ring.
      apply Z.mod_mul. lia. }
    set (mrs := Nat.iter k shr_1 (shr_record_of_loc X loc_Exact)) in *.
    assert (H0 : 0 <= shr_m mrs) by (rewrite Hm; apply Z.div_pos; lia).
    change (Nat.iter (S k) shr_1 (shr_record_of_loc X loc_Exact)) with (shr_1 mrs).
    rewrite shr_1_m, shr_1_r, shr_1_s by done. rewrite Hm, Hr, Hs, Hk.
    split; [|split; [|done]].
    + rewrite Z.mul_comm, Z.div_mul by lia. done.
    + rewrite Z.odd_mul. done.
Qed.

Lemma shr_exact_loc (X e n : Z) :
  0 <= X -> 0 <= n -> X mod 2 ^ n = 0 ->
  loc_of_shr_record (fst (shr (shr_record_of_loc X loc_Exact) e n)) = loc_Exact.
Proof.
  intros HX Hn Hmod. destruct n as [|p|p]; [done| |lia].
  cbn [shr fst]. rewrite iter_pos_nat.
  destruct (shr_exact X (Pos.to_nat p) HX) as (_ & Hr & Hs).
  { by rewrite positive_nat_Z. }
  destruct (Nat.iter _ _ _) as [m r s]. cbn in Hr, Hs. by subst.
Qed.

Lemma round_nearest_even_cases (m : Z) (l : location) :
  round_nearest_even m l = m \/ round_nearest_even m l = m + 1.
Proof. destruct l as [|[]]; simpl; auto. destruct (Z.even m); auto. Qed.

Lemma round_nearest_even_exact (m : Z) : round_nearest_even m loc_Exact = m.
Proof. reflexivity. Qed.

(** ** Rounding a mantissa and an exponent to the format *)

Lemma binary_round_aux_unfold sx mx ex lx :
  binary_round_aux prec emax sx mx ex lx
  = let mrs1 := shr (shr_record_of_loc mx lx) ex (fexp32 (Zdigits2 mx + ex) - ex) in
    let mr := round_nearest_even (shr_m (fst mrs1)) (loc_of_shr_record (fst mrs1)) in
    let mrs2 := shr (shr_record_of_loc mr loc_Exact) (snd mrs1)
                    (fexp32 (Zdigits2 mr + snd mrs1) - snd mrs1) in
    finish sx (fst mrs2) (snd mrs2).
Proof.
  unfold binary_round_aux, shr_fexp. rewrite fexp32_spec.
  destruct (shr _ ex _) as [mrs1 e1]. cbn [fst snd]. cbv zeta.
  rewrite fexp32_spec. by destruct (shr _ e1 _) as [mrs2 e2].
Qed.

Lemma renormalize_spec (sx : bool) (mr e1 : Z) :
  0 <= mr ->
  mr = 0 \/ (Zdigits2 mr <= 24 /\ fexp32 (Zdigits2 mr + e1) = e1)
  \/ (mr = 2 ^ 24 /\ -149 <= e1 /\ fexp32 (24 + e1) = e1) ->
  let mrs2 := shr (shr_record_of_loc mr loc_Exact) e1
                  (fexp32 (Zdigits2 mr + e1) - e1) in
  rounded sx mr e1 (finish sx (fst mrs2) (snd mrs2)).
Proof.
  intros Hmr Hcases mrs2.
  destruct (shr_spec (shr_record_of_loc mr loc_Exact) e1
              (fexp32 (Zdigits2 mr + e1) - e1)) as [Hm He];
    [by rewrite shr_record_of_loc_m|].
  fold mrs2 in Hm, He. rewrite shr_record_of_loc_m in Hm.
  unfold finish. rewrite Hm, He. clear Hm He mrs2.
  destruct Hcases as [->|[[Hd Hf]|(-> & He1 & Hf)]].
  - rewrite Z.div_0_l by (apply Z.pow_nonzero; lia). by constructor.
  - rewrite Hf. replace (e1 - e1) with 0 by lia. cbn [Z.max Z.pow]. rewrite Z.div_1_r, Z.add_0_r.
    destruct mr as [|p|p]; [by constructor| |lia].
    destruct (Z.leb_spec e1 (emax - prec)) as [Hle|Hgt].
    + apply rounded_finite; [lia| |lia|].
      * unfold bounded, canonical_mantissa. rewrite fexp32_spec.
        cbn [Zdigits2] in Hf. rewrite Hf, Z.eqb_refl. cbn [andb]. by apply Z.leb_le.
      * replace (e1 - e1) with 0 by lia. cbn [Z.pow]. lia.
    + unfold emax, prec in Hgt.
      apply (rounded_overflow sx (Zpos p) e1 (Zpos p) e1); try lia.
      * cbn [Zdigits2] in Hd, Hf. unfold fexp32 in Hf.
        pose proof (digits2_pos_bounds p) as Hb.
        assert (Zpos (digits2_pos p) = 24) as Hd24 by lia.
        rewrite Hd24 in Hb. cbn in Hb. lia.
      * replace (e1 - e1) with 0 by lia. cbn [Z.pow]. lia.
  - assert (Hd : Zdigits2 (2 ^ 24) = 25) by reflexivity. rewrite Hd.
    assert (Hf' : fexp32 (25 + e1) = e1 + 1) by (unfold fexp32 in *; lia).
    rewrite Hf'. replace (e1 + 1 - e1) with 1 by lia.
    change (2 ^ 24 / 2 ^ Z.max 1 0) with (Zpos (2 ^ 23)). change (Z.max 1 0) with 1.
    destruct (Z.leb_spec (e1 + 1) (emax - prec)) as [Hle|Hgt].
    + apply rounded_finite; [lia| |lia|].
      * unfold bounded, canonical_mantissa. rewrite fexp32_spec.
        change (Zpos (digits2_pos (2 ^ 23))) with 24.
        assert (Hf'' : fexp32 (24 + (e1 + 1)) = e1 + 1) by (unfold fexp32 in *; lia).
        rewrite Hf'', Z.eqb_refl. cbn [andb]. by apply Z.leb_le.
      * replace (e1 + 1 - e1) with 1 by lia. reflexivity.
    + unfold emax, prec in Hgt.
      apply (rounded_overflow sx (2 ^ 24) e1 (2 ^ 23) (e1 + 1)); try lia.
      replace (e1 + 1 - e1) with 1 by lia. reflexivity.
Qed.

(** [binary_round_aux] on a mantissa that is at least as fine as the
    format: the mantissa is divided by [2 ^ (e1 - ex)], where [e1] is the
    exponent of the format at this magnitude, the quotient is kept or
    incremented, and the result is packed. *)
Lemma binary_round_aux_spec (sx : bool) (mx ex : Z) (lx : location) :
  0 <= mx -> ex <= fexp32 (Zdigits2 mx + ex) ->
  let e1 := fexp32 (Zdigits2 mx + ex) in
  let m1 := mx / 2 ^ (e1 - ex) in
  exists mr : Z,
    (mr = m1 \/ mr = m1 + 1)
    /\ (lx = loc_Exact -> mx mod 2 ^ (e1 - ex) = 0 -> mr = m1)
    /\ rounded sx mr e1 (binary_round_aux prec emax sx mx ex lx).
Proof.
  intros Hmx Hpre e1 m1.
  rewrite binary_round_aux_unfold. cbv zeta.
  destruct (shr_spec (shr_record_of_loc mx lx) ex (fexp32 (Zdigits2 mx + ex) - ex))
    as [Hm He]; [by rewrite shr_record_of_loc_m|].
  rewrite shr_record_of_loc_m in Hm. fold e1 in Hm, He. fold e1.
  replace (Z.max (e1 - ex) 0) with (e1 - ex) in Hm, He by lia.
  replace (ex + (e1 - ex)) with e1 in He by lia. fold m1 in Hm.
  set (mrs1 := shr (shr_record_of_loc mx lx) ex (e1 - ex)) in *.
  rewrite He.
  set (mr := round_nearest_even (shr_m (fst mrs1)) (loc_of_shr_record (fst mrs1))).
  assert (Hmr : mr = m1 \/ mr = m1 + 1).
  { subst mr. rewrite Hm. apply round_nearest_even_cases. }
  assert (Hm1 : 0 <= m1) by (apply Z.div_pos; [done | apply pow2_pos; lia]).
  exists mr. split; [done|]. split.
  { intros -> Hmod. subst mr. rewrite Hm. subst mrs1.
    rewrite shr_exact_loc by (done || lia). reflexivity. }
  apply renormalize_spec; [lia|].
  destruct (Z.eq_dec mr 0) as [Hz|Hnz]; [by left|right].
  destruct (Z.eq_dec mx 0) as [Hmx0|Hmx0].
  { (* the mantissa is zero, its location makes it round up *)
    subst mx. left. assert (mr = 1) as ->.
    { subst m1. rewrite Z.div_0_l in Hmr by (apply Z.pow_nonzero; lia). lia. }
    cbn [Zdigits2] in *. unfold fexp32 in *. cbn. lia. }
  destruct (Zdigits2_bounds mx ltac:(lia)) as [Hd Hb].
  set (d := Zdigits2 mx) in *.
  assert (He1 : e1 = Z.max (d + ex - 24) (-149)) by reflexivity.
  destruct (Z_lt_le_dec (e1 - ex) d) as [Hn|Hn].
  - (* some digits are left *)
    pose proof (div_pow2_bounds mx d (e1 - ex) ltac:(lia) Hb) as Hb1. fold m1 in Hb1.
    set (k := d - (e1 - ex)) in *.
    assert (Hk : 1 <= k <= 24) by lia.
    destruct (Z.eq_dec mr (2 ^ k)) as [Hp|Hp].
    + destruct (Z.eq_dec k 24) as [Hk24|Hk24].
      * right. rewrite Hp, Hk24. split; [done|]. unfold fexp32. lia.
      * left. assert (Hdr : Zdigits2 mr = k + 1).
        { apply Zdigits2_unique; [lia|]. rewrite Hp.
          replace (k + 1 - 1) with k by lia. split; [lia|]. apply pow2_lt. lia. }
        rewrite Hdr. unfold fexp32. lia.
    + left. assert (Hdr : Zdigits2 mr = k).
      { apply Zdigits2_unique; [lia|]. lia. }
      rewrite Hdr. unfold fexp32. lia.
  - (* every digit is shifted out *)
    left. assert (m1 = 0) as Hz.
    { subst m1. apply Z.div_small. split; [lia|].
      pose proof (pow2_le d (e1 - ex) ltac:(lia)). lia. }
    assert (mr = 1) as -> by lia. cbn [Zdigits2 digits2_pos]. unfold fexp32. lia.
Qed.

(** ** Real values *)

Lemma bpow_gt_0 (e : Z) : (0 < bpow e)%R.
Proof. apply powerRZ_lt. lra. Qed.

Lemma bpow_add (a b : Z) : bpow (a + b) = (bpow a * bpow b)%R.
Proof. apply powerRZ_add. lra. Qed.

Lemma bpow_0 : bpow 0 = 1%R.
Proof. reflexivity. Qed.

Lemma bpow_1 : bpow 1 = 2%R.
Proof. unfold bpow. simpl. lra. Qed.

Lemma bpow_opp (a : Z) : bpow (- a) = (/ bpow a)%R.
Proof. apply powerRZ_neg'. Qed.

Lemma bpow_IZR (n : Z) : 0 <= n -> bpow n = IZR (2 ^ n).
Proof.
  intros Hn. unfold bpow. destruct n as [|p|p]; [reflexivity| |lia].
  change (2 ^ Zpos p) with (Z.pow_pos 2 p). by rewrite Zpower_pos_powerRZ.
Qed.

Lemma bpow_le (a b : Z) : a <= b -> (bpow a <= bpow b)%R.
Proof.
  intros H. replace b with (a + (b - a)) by lia. rewrite bpow_add.
  rewrite (bpow_IZR (b - a)) by lia.
  pose proof (bpow_gt_0 a). pose proof (pow2_pos (b - a) ltac:(lia)) as Hp.
  apply IZR_lt in Hp. assert (1 <= IZR (2 ^ (b - a)))%R by (apply IZR_le; lia). nra.
Qed.

Lemma bpow_lt (a b : Z) : a < b -> (bpow a < bpow b)%R.
Proof.
  intros H. replace b with (a + (b - a)) by lia. rewrite bpow_add.
  rewrite (bpow_IZR (b - a)) by lia.
  pose proof (bpow_gt_0 a).
  assert (2 <= IZR (2 ^ (b - a)))%R.
  { apply IZR_le. pose proof (pow2_le 1 (b - a) ltac:(lia)). simpl in *. lia. }
  nra.
Qed.

Lemma F2R_shift (m e k : Z) : 0 <= k -> F2R (m * 2 ^ k) e = F2R m (e + k).
Proof.
  intros Hk. unfold F2R. rewrite mult_IZR, <- bpow_IZR by done.
  rewrite (Z.add_comm e k), bpow_add. ring.
Qed.

Lemma signed_cond_Zopp (s : bool) (m e : Z) :
  F2R (cond_Zopp s m) e = signed s (F2R m e).
Proof. unfold F2R, signed. destruct s; simpl; [rewrite opp_IZR; ring|done]. Qed.

Lemma B2R_finite (s : bool) (m : positive) (e : Z) :
  B2R (S754_finite s m e) = signed s (F2R (Zpos m) e).
Proof. apply signed_cond_Zopp. Qed.

Lemma F2R_pos (m e : Z) : 0 < m -> (0 < F2R m e)%R.
Proof.
  intros Hm. unfold F2R. apply IZR_lt in Hm. pose proof (bpow_gt_0 e). nra.
Qed.

Lemma F2R_nonneg (m e : Z) : 0 <= m -> (0 <= F2R m e)%R.
Proof.
  intros Hm. unfold F2R. apply IZR_le in Hm. pose proof (bpow_gt_0 e). nra.
Qed.

Lemma F2R_le (m1 m2 e : Z) : m1 <= m2 -> (F2R m1 e <= F2R m2 e)%R.
Proof.
  intros Hm. unfold F2R. apply IZR_le in Hm. pose proof (bpow_gt_0 e). nra.
Qed.

(** The real value of what [binary_round_aux] packs. *)
Lemma rounded_R (sx : bool) (mr e1 : Z) (r : float32) :
  rounded sx mr e1 r -> (F2R mr e1 < bpow 128)%R ->
  fin32 r /\ B2R r = signed sx (F2R mr e1).
Proof.
  intros Hr Hlt. destruct Hr as [-> | m e Hmr Hb He Hv | m e Hmr He104 He Hm Hv].
  - split; [done|]. unfold F2R, signed. simpl. destruct sx; lra.
  - split; [by split|]. rewrite B2R_finite. f_equal.
    rewrite <- Hv. rewrite F2R_shift by lia. f_equal. lia.
  - exfalso. rewrite <- Hv in Hlt. rewrite F2R_shift in Hlt by lia.
    replace (e1 + (e - e1)) with e in Hlt by lia.
    assert (bpow 128 <= F2R m e)%R; [|lra].
    replace 128 with (23 + 105) by lia. rewrite bpow_add.
    unfold F2R. rewrite (bpow_IZR 23) by lia.
    pose proof (bpow_le 105 e ltac:(lia)). apply IZR_le in Hm.
    pose proof (bpow_gt_0 105). assert (0 < IZR (2 ^ 23))%R by (apply IZR_lt; lia).
    nra.
Qed.

Lemma Rabs_le_inv (x b : R) : (Rabs x <= b)%R -> (- b <= x <= b)%R.
Proof. unfold Rabs. destruct (Rcase_abs x); lra. Qed.

Lemma bpow_plus_1 (e : Z) : bpow (e + 1) = (2 * bpow e)%R.
Proof. rewrite bpow_add, bpow_1. ring. Qed.

Lemma F2R_succ (m e : Z) : F2R (m + 1) e = (F2R m e + bpow e)%R.
Proof. unfold F2R. rewrite plus_IZR. ring. Qed.

Lemma F2R_pow2 (k e : Z) : 0 <= k -> F2R (2 ^ k) e = bpow (k + e).
Proof. intros Hk. unfold F2R. rewrite <- bpow_IZR by done. by rewrite bpow_add. Qed.

(** [binary_round_aux] as a function on the reals: when [v] lies between
    the mantissa and its successor at exponent [ex], and is below
    [2 ^ 127], the result is a float of the format, of the sign asked for,
    whose magnitude is within one unit in the last place of [v]. *)
Lemma binary_round_aux_R (sx : bool) (mx ex : Z) (lx : location) (v : R) :
  0 <= mx -> ex <= fexp32 (Zdigits2 mx + ex) ->
  (F2R mx ex <= v <= F2R (mx + 1) ex)%R ->
  (v < bpow 127)%R ->
  exists a : R,
    fin32 (binary_round_aux prec emax sx mx ex lx)
    /\ B2R (binary_round_aux prec emax sx mx ex lx) = signed sx a
    /\ (0 <= a)%R /\ close v a
    /\ (exists mr : Z,
          a = F2R mr (fexp32 (Zdigits2 mx + ex))
          /\ mx / 2 ^ (fexp32 (Zdigits2 mx + ex) - ex) <= mr
             <= mx / 2 ^ (fexp32 (Zdigits2 mx + ex) - ex) + 1
          /\ (lx = loc_Exact -> mx mod 2 ^ (fexp32 (Zdigits2 mx + ex) - ex) = 0 ->
              mr = mx / 2 ^ (fexp32 (Zdigits2 mx + ex) - ex))).
Proof.
  intros Hmx Hpre Hv Hlt.
  destruct (binary_round_aux_spec sx mx ex lx Hmx Hpre) as (mr & Hmr & Hex & Hr).
  set (e1 := fexp32 (Zdigits2 mx + ex)) in *.
  set (m1 := mx / 2 ^ (e1 - ex)) in *.
  pose proof (pow2_pos (e1 - ex) ltac:(lia)) as HP.
  assert (Hm1 : 0 <= m1) by (apply Z.div_pos; lia).
  pose proof (Z.div_mod mx (2 ^ (e1 - ex)) ltac:(lia)) as Hdm.
  pose proof (Z.mod_pos_bound mx (2 ^ (e1 - ex)) HP) as Hmod. fold m1 in Hdm.
  assert (Hlo : (F2R m1 e1 <= F2R mx ex)%R).
  { replace e1 with (ex + (e1 - ex)) at 1 by lia. rewrite <- F2R_shift by lia.
    apply F2R_le. nia. }
  assert (Hhi : (F2R (mx + 1) ex <= F2R (m1 + 1) e1)%R).
  { replace e1 with (ex + (e1 - ex)) at 1 by lia. rewrite <- F2R_shift by lia.
    apply F2R_le. nia. }
  rewrite (F2R_succ m1 e1) in Hhi.
  pose proof (bpow_gt_0 e1) as He1pos.
  pose proof (F2R_nonneg m1 e1 Hm1) as Hm1R.
  assert (Hv0 : (0 <= v)%R) by (pose proof (F2R_nonneg mx ex Hmx); lra).
  assert (Ha : (Rabs (F2R mr e1 - v) <= bpow e1)%R).
  { apply Rabs_le. destruct Hmr as [-> | ->]; rewrite ?F2R_succ; lra. }
  assert (Hulp : (bpow e1 <= bpow (-23) * v + bpow (-149))%R).
  { pose proof (bpow_gt_0 (-23)). pose proof (bpow_gt_0 (-149)).
    destruct (Z.eq_dec e1 (-149)) as [->|Hne]; [nra|].
    destruct (Z.eq_dec mx 0) as [->|Hmx0].
    { exfalso. subst e1. cbn [Zdigits2] in *. unfold fexp32 in *. lia. }
    destruct (Zdigits2_bounds mx ltac:(lia)) as [Hd Hb].
    assert (He1 : e1 = Zdigits2 mx + ex - 24) by (subst e1; unfold fexp32 in *; lia).
    assert (Hge : (bpow (e1 + 23) <= v)%R).
    { replace (e1 + 23) with (Zdigits2 mx - 1 + ex) by lia.
      rewrite <- F2R_pow2 by lia.
      pose proof (F2R_le (2 ^ (Zdigits2 mx - 1)) mx ex ltac:(lia)). lra. }
    rewrite bpow_add in Hge.
    assert (Hinv : (bpow (-23) * bpow 23 = 1)%R).
    { rewrite <- bpow_add. reflexivity. }
    pose proof (bpow_gt_0 23). nra. }
  assert (Hno : (F2R mr e1 < bpow 128)%R).
  { apply Rabs_le_inv in Ha.
    assert (H1 : (bpow (-23) * v < bpow 104)%R).
    { replace 104 with (-23 + 127) by lia. rewrite bpow_add.
      pose proof (bpow_gt_0 (-23)). nra. }
    pose proof (bpow_lt (-149) 104 ltac:(lia)).
    pose proof (bpow_plus_1 104) as H105. change (104 + 1) with 105 in H105.
    pose proof (bpow_le 105 127 ltac:(lia)).
    pose proof (bpow_plus_1 127) as H128. change (127 + 1) with 128 in H128. lra. }
  destruct (rounded_R sx mr e1 _ Hr Hno) as [Hfin HB].
  exists (F2R mr e1). split; [done|]. split; [done|]. split.
  { apply F2R_nonneg. lia. }
  split.
  - unfold close. rewrite (Rabs_pos_eq v) by done. lra.
  - exists mr. split; [done|]. split; [lia|done].
Qed.

(** ** The operations on floats of the format *)

Lemma close_refl (v : R) : close v v.
Proof.
  unfold close. replace (v - v)%R with 0%R by ring. rewrite Rabs_R0.
  pose proof (bpow_gt_0 (-23)). pose proof (bpow_gt_0 (-149)).
  pose proof (Rabs_pos v). nra.
Qed.

Lemma rounds_exact (r : float32) : fin32 r -> rounds (B2R r) r.
Proof. intros Hf. split; [done|apply close_refl|done|done]. Qed.

Lemma rounds_exact_eq (v : R) (r : float32) : fin32 r -> B2R r = v -> rounds v r.
Proof. intros Hf <-. by apply rounds_exact. Qed.

Lemma fin32_zero (s : bool) : fin32 (S754_zero s).
Proof. by split. Qed.

Lemma signed_Rabs (s : bool) (a : R) : Rabs (signed s a) = Rabs a.
Proof. unfold signed. destruct s; [apply Rabs_Ropp|done]. Qed.

Lemma signed_sub (s : bool) (a b : R) : (signed s a - signed s b)%R = signed s (a - b).
Proof. unfold signed. destruct s; ring. Qed.

Lemma signed_mul (s1 s2 : bool) (a b : R) :
  (signed s1 a * signed s2 b)%R = signed (xorb s1 s2) (a * b).
Proof. unfold signed. destruct s1, s2; simpl; ring. Qed.

Lemma rounds_signed (s : bool) (v a : R) (r : float32) :
  fin32 r -> B2R r = signed s a -> (0 <= a)%R -> (0 < v)%R -> close v a ->
  rounds (signed s v) r.
Proof.
  intros Hf HB Ha Hv Hc. split; [done| | |].
  - unfold close in *. by rewrite HB, signed_sub, !signed_Rabs.
  - rewrite HB. unfold signed. destruct s; lra.
  - rewrite HB. unfold signed. destruct s; lra.
Qed.

Lemma valid_finite (s : bool) (m : positive) (e : Z) :
  fin32 (S754_finite s m e) ->
  fexp32 (Zpos (digits2_pos m) + e) = e /\ e <= 104.
Proof.
  intros [_ Hv]. unfold valid_binary, bounded, canonical_mantissa in Hv.
  apply andb_prop in Hv. destruct Hv as [Hc Hb].
  rewrite fexp32_spec in Hc. apply Z.eqb_eq in Hc. apply Z.leb_le in Hb.
  unfold emax, prec in Hb. lia.
Qed.

Lemma F2R_mul (m1 e1 m2 e2 : Z) :
  (F2R m1 e1 * F2R m2 e2)%R = F2R (m1 * m2) (e1 + e2).
Proof. unfold F2R. rewrite mult_IZR, bpow_add. ring. Qed.

Lemma Zdigits2_mul_ge (a b : positive) :
  Zpos (digits2_pos a) + Zpos (digits2_pos b) - 1 <= Zdigits2 (Zpos (a * b)).
Proof.
  pose proof (digits2_pos_bounds a) as Ha. pose proof (digits2_pos_bounds b) as Hb.
  apply Zdigits2_ge; [lia|].
  replace (Zpos (digits2_pos a) + Zpos (digits2_pos b) - 1 - 1)
    with ((Zpos (digits2_pos a) - 1) + (Zpos (digits2_pos b) - 1)) by lia.
  rewrite Z.pow_add_r by lia. rewrite Pos2Z.inj_mul.
  pose proof (pow2_pos (Zpos (digits2_pos a) - 1) ltac:(lia)).
  pose proof (pow2_pos (Zpos (digits2_pos b) - 1) ltac:(lia)). nia.
Qed.

(** Multiplication. *)
Lemma mul_spec (x y : float32) :
  fin32 x -> fin32 y -> (Rabs (B2R x * B2R y) < bpow 127)%R ->
  rounds (B2R x * B2R y) (x * y)%f32.
Proof.
  intros Hx Hy Hlt.
  destruct x as [sx| | |sx mx ex]; try (by destruct Hx);
  destruct y as [sy| | |sy my ey]; try (by destruct Hy);
    try (apply rounds_exact_eq; [apply fin32_zero | simpl; ring]).
  destruct (valid_finite _ _ _ Hx) as [Hcx Hbx].
  destruct (valid_finite _ _ _ Hy) as [Hcy Hby].
  rewrite !B2R_finite, signed_mul, F2R_mul in *. rewrite signed_Rabs in Hlt.
  change (Zpos mx * Zpos my) with (Zpos (mx * my)) in *.
  pose proof (F2R_pos (Zpos (mx * my)) (ex + ey) ltac:(lia)) as Hpos.
  rewrite Rabs_pos_eq in Hlt by lra.
  unfold mul, SFmul.
  destruct (binary_round_aux_R (xorb sx sy) (Zpos (mx * my)) (ex + ey) loc_Exact
              (F2R (Zpos (mx * my)) (ex + ey))) as (a & Hf & HB & Ha & Hc & _).
  - lia.
  - pose proof (Zdigits2_mul_ge mx my). pose proof (Pos2Z.is_pos (digits2_pos mx)).
    pose proof (Pos2Z.is_pos (digits2_pos my)). unfold fexp32 in *. lia.
  - split; [lra|]. apply F2R_le. lia.
  - done.
  - by apply (rounds_signed _ _ a); [| | |lra|].
Qed.

Lemma iter_xO (m d : positive) : Zpos (Pos.iter xO m d) = Zpos m * 2 ^ Zpos d.
Proof.
  induction d as [|d IH] using Pos.peano_ind.
  - simpl. lia.
  - rewrite Pos.iter_succ, Pos2Z.inj_xO, IH, Pos2Z.inj_succ.
    replace (Z.succ (Zpos d)) with (Zpos d + 1) by lia. rewrite pow2_succ by lia. ring.
Qed.

Lemma shl_align_spec (mx : positive) (ex ex' : Z) :
  let e := snd (shl_align mx ex ex') in
  e = Z.min ex ex' /\ Zpos (fst (shl_align mx ex ex')) = Zpos mx * 2 ^ (ex - e).
Proof.
  unfold shl_align. destruct (ex' - ex) as [|d|d] eqn:Hd; cbn [fst snd].
  - split; [lia|]. replace (ex - ex) with 0 by lia. simpl. lia.
  - split; [lia|]. replace (ex - ex) with 0 by lia. simpl. lia.
  - split; [lia|]. rewrite iter_xO. f_equal. f_equal. lia.
Qed.

Lemma Zdigits2_shift (m k : Z) : 0 < m -> 0 <= k -> Zdigits2 (m * 2 ^ k) = Zdigits2 m + k.
Proof.
  intros Hm Hk. destruct (Zdigits2_bounds m Hm) as [Hd Hb].
  pose proof (pow2_pos k Hk).
  apply Zdigits2_unique; [nia|].
  replace (Zdigits2 m + k - 1) with ((Zdigits2 m - 1) + k) by lia.
  rewrite !Z.pow_add_r by lia. nia.
Qed.

(** [binary_round]: the mantissa is first aligned on the format, then
    rounded; a mantissa of at most 24 digits at an exponent that is not
    below the smallest one is kept as it is. *)
Lemma binary_round_R (sx : bool) (mx : positive) (ex : Z) :
  (F2R (Zpos mx) ex < bpow 127)%R ->
  rounds (signed sx (F2R (Zpos mx) ex)) (binary_round prec emax sx mx ex)
  /\ (Zpos (digits2_pos mx) <= 24 -> -149 <= ex ->
      B2R (binary_round prec emax sx mx ex) = signed sx (F2R (Zpos mx) ex)).
Proof.
  intros Hlt. unfold binary_round. rewrite fexp32_spec.
  pose proof (shl_align_spec mx ex (fexp32 (Zpos (digits2_pos mx) + ex))) as Hs.
  destruct (shl_align mx ex _) as [mz ez]. cbn [fst snd] in Hs. cbv zeta in Hs.
  destruct Hs as [Hez Hmz].
  assert (Hval : F2R (Zpos mz) ez = F2R (Zpos mx) ex).
  { rewrite Hmz, F2R_shift by lia. f_equal. lia. }
  assert (Hdz : Zdigits2 (Zpos mz) + ez = Zpos (digits2_pos mx) + ex).
  { rewrite Hmz, Zdigits2_shift by lia. simpl. lia. }
  pose proof (F2R_pos (Zpos mx) ex ltac:(lia)) as Hpos.
  destruct (binary_round_aux_R sx (Zpos mz) ez loc_Exact (F2R (Zpos mx) ex))
    as (a & Hf & HB & Ha & Hc & mr & Hmr & _ & Hex).
  - lia.
  - rewrite Hdz. lia.
  - split; [rewrite Hval; lra | rewrite <- Hval; apply F2R_le; lia].
  - done.
  - split.
    + by apply (rounds_signed _ _ a).
    + intros Hd He. rewrite HB. f_equal. rewrite Hmr, <- Hval.
      assert (Hn : fexp32 (Zdigits2 (Zpos mz) + ez) - ez = 0).
      { rewrite Hdz. unfold fexp32 in *. lia. }
      rewrite Hex by (done || (rewrite Hn; apply Z.mod_1_r)).
      rewrite Hn, Z.div_1_r. f_equal. lia.
Qed.

Lemma F2R_opp (m e : Z) : F2R (- m) e = (- F2R m e)%R.
Proof. unfold F2R. rewrite opp_IZR. ring. Qed.

Lemma F2R_0 (e : Z) : F2R 0 e = 0%R.
Proof. unfold F2R. simpl. ring. Qed.

Lemma F2R_Rabs (m e : Z) : Rabs (F2R m e) = F2R (Z.abs m) e.
Proof.
  unfold F2R. rewrite Rabs_mult, (Rabs_pos_eq (bpow e)) by (pose proof (bpow_gt_0 e); lra).
  by rewrite abs_IZR.
Qed.

(** [binary_normalize]: an integer mantissa of either sign. *)
Lemma binary_normalize_R (m e : Z) (szero : bool) :
  (Rabs (F2R m e) < bpow 127)%R ->
  rounds (F2R m e) (binary_normalize prec emax m e szero)
  /\ (Zdigits2 m <= 24 -> -149 <= e ->
      B2R (binary_normalize prec emax m e szero) = F2R m e).
Proof.
  intros Hlt. rewrite F2R_Rabs in Hlt. destruct m as [|p|p]; cbn [binary_normalize].
  - rewrite F2R_0. split; [|done]. apply rounds_exact_eq; [apply fin32_zero|done].
  - apply (binary_round_R false p e Hlt).
  - change (Zneg p) with (- Zpos p). rewrite F2R_opp.
    apply (binary_round_R true p e Hlt).
Qed.

(** Conversion of an integer. *)
Lemma of_int_spec (n : Z) :
  Z.abs n < 2 ^ 127 ->
  rounds (IZR n) (of_int n)
  /\ (Z.abs n < 2 ^ 24 -> B2R (of_int n) = IZR n).
Proof.
  intros Hn. unfold of_int.
  assert (HF : F2R n 0 = IZR n) by (unfold F2R; rewrite bpow_0; ring).
  destruct (binary_normalize_R n 0 false) as [Hr Hex].
  - rewrite F2R_Rabs. unfold F2R. rewrite bpow_0, Rmult_1_r.
    rewrite bpow_IZR by lia. by apply IZR_lt.
  - rewrite HF in *. split; [done|]. intros Hs. apply Hex; [|lia].
    destruct n as [|p|p]; simpl; [lia| |]; apply (Zdigits2_le (Zpos p) 24); lia.
Qed.

(** ** Rounding is monotone and keeps the floats of the format *)

Lemma F2R_le_inv (a b e : Z) : (F2R a e <= F2R b e)%R -> a <= b.
Proof.
  unfold F2R. intros H. pose proof (bpow_gt_0 e). apply le_IZR. nra.
Qed.

Lemma F2R_lt (a b e : Z) : a < b -> (F2R a e < F2R b e)%R.
Proof.
  intros H. unfold F2R. apply IZR_lt in H. pose proof (bpow_gt_0 e). nra.
Qed.

Lemma bpow_lt_inv (a b : Z) : (bpow a < bpow b)%R -> a < b.
Proof.
  intros H. destruct (Z_lt_le_dec a b); [done|].
  pose proof (bpow_le b a ltac:(lia)). lra.
Qed.

Lemma F2R_bounds (m e : Z) :
  0 < m ->
  (bpow (Zdigits2 m - 1 + e) <= F2R m e < bpow (Zdigits2 m + e))%R.
Proof.
  intros Hm. destruct (Zdigits2_bounds m Hm) as [Hd Hb].
  rewrite <- !F2R_pow2 by lia. split; [apply F2R_le | apply F2R_lt]; lia.
Qed.

Lemma fexp32_mono (a b : Z) : a <= b -> fexp32 a <= fexp32 b.
Proof. unfold fexp32. lia. Qed.

(** Rounding a positive exact value never crosses a float of the format. *)
Lemma binary_round_aux_monotone (mz ez : Z) (t : float32) :
  0 < mz -> ez <= fexp32 (Zdigits2 mz + ez) ->
  (F2R mz ez < bpow 127)%R -> fin32 t ->
  ((B2R t <= F2R mz ez)%R ->
   (B2R t <= B2R (binary_round_aux prec emax false mz ez loc_Exact))%R)
  /\ ((F2R mz ez <= B2R t)%R ->
      (B2R (binary_round_aux prec emax false mz ez loc_Exact) <= B2R t)%R).
Proof.
  intros Hmz Hez Hlt Ht.
  pose proof (F2R_pos mz ez Hmz) as Hpos.
  destruct (binary_round_aux_R false mz ez loc_Exact (F2R mz ez))
    as (a & Hf & HB & Ha & Hc & mr & Hmra & Hmr & Hex);
    [lia|done|split; [lra|apply F2R_le; lia]|done|].
  specialize (Hex eq_refl). subst a.
  set (e1 := fexp32 (Zdigits2 mz + ez)) in *.
  set (n := e1 - ez) in *.
  pose proof (pow2_pos n ltac:(lia)) as Hpn.
  rewrite HB. unfold signed.
  assert (Hm1 : 0 <= mz / 2 ^ n) by (apply Z.div_pos; lia).
  destruct (F2R_bounds mz ez Hmz) as [Hvlo Hvhi].
  destruct t as [st| | |st mt et]; try (by destruct Ht).
  { simpl. split; intros; lra. }
  destruct (valid_finite _ _ _ Ht) as [Hct Hbt].
  rewrite B2R_finite. unfold signed.
  pose proof (F2R_pos (Zpos mt) et ltac:(lia)) as Htpos.
  destruct st; [split; intros; lra|].
  destruct (F2R_bounds (Zpos mt) et ltac:(lia)) as [Htlo Hthi].
  cbn [Zdigits2] in Htlo, Hthi.
  set (dt := Zpos (digits2_pos mt)) in *.
  split; intros Hle.
  - (* a float below the value is below the rounded value *)
    assert (HM : dt + et <= Zdigits2 mz + ez).
    { assert (dt - 1 + et < Zdigits2 mz + ez); [|lia]. apply bpow_lt_inv. lra. }
    assert (Hee : et <= e1).
    { rewrite <- Hct. subst e1. by apply fexp32_mono. }
    apply Rle_trans with (F2R (mz / 2 ^ n) e1); [|apply F2R_le; lia].
    destruct (Z.eq_dec et e1) as [Heq|Hne].
    + rewrite Heq in *. apply F2R_le. apply Z.div_le_lower_bound; [lia|].
      apply (F2R_le_inv _ _ ez). rewrite Z.mul_comm, F2R_shift by lia.
      replace (ez + n) with e1 by (subst n; lia). done.
    + assert (HMlt : dt + et < Zdigits2 mz + ez).
      { destruct (Z.eq_dec (dt + et) (Zdigits2 mz + ez)) as [HMe|]; [|lia].
        exfalso. apply Hne. rewrite <- Hct. subst e1. by rewrite HMe. }
      destruct (Z_lt_le_dec n (Zdigits2 mz)) as [Hn|Hn].
      * destruct (Zdigits2_bounds mz Hmz) as [Hd Hb].
        pose proof (div_pow2_bounds mz (Zdigits2 mz) n ltac:(lia) Hb) as [Hlo _].
        apply Rle_trans with (bpow (Zdigits2 mz + ez - 1)).
        { pose proof (bpow_le (dt + et) (Zdigits2 mz + ez - 1) ltac:(lia)). lra. }
        replace (Zdigits2 mz + ez - 1) with (Zdigits2 mz - n - 1 + e1) by (subst n; lia).
        rewrite <- F2R_pow2 by lia. by apply F2R_le.
      * exfalso. unfold fexp32 in *. subst e1 n. lia.
  - (* a float above the value is above the rounded value *)
    assert (HM : Zdigits2 mz + ez <= dt + et).
    { assert (Zdigits2 mz - 1 + ez < dt + et); [|lia]. apply bpow_lt_inv. lra. }
    assert (Hee : e1 <= et).
    { rewrite <- Hct. subst e1. by apply fexp32_mono. }
    replace et with (e1 + (et - e1)) in * by lia.
    rewrite <- F2R_shift in * by lia.
    set (T := Zpos mt * 2 ^ (et - e1)) in *.
    apply F2R_le.
    assert (HT : mz <= T * 2 ^ n).
    { apply (F2R_le_inv _ _ ez). rewrite F2R_shift by lia.
      replace (ez + n) with e1 by (subst n; lia). done. }
    pose proof (Z.div_mod mz (2 ^ n) ltac:(lia)) as Hdm.
    pose proof (Z.mod_pos_bound mz (2 ^ n) Hpn) as Hmod.
    destruct (Z.eq_dec (mz mod 2 ^ n) 0) as [Hz|Hnz].
    + rewrite (Hex Hz). apply Z.div_le_upper_bound; lia.
    + assert (mz / 2 ^ n < T); [|lia]. nia.
Qed.

Lemma binary_round_monotone (mx : positive) (ex : Z) (t : float32) :
  fin32 t -> (F2R (Zpos mx) ex < bpow 127)%R ->
  ((B2R t <= F2R (Zpos mx) ex)%R ->
   (B2R t <= B2R (binary_round prec emax false mx ex))%R)
  /\ ((F2R (Zpos mx) ex <= B2R t)%R ->
      (B2R (binary_round prec emax false mx ex) <= B2R t)%R).
Proof.
  intros Ht Hlt. unfold binary_round. rewrite fexp32_spec.
  pose proof (shl_align_spec mx ex (fexp32 (Zpos (digits2_pos mx) + ex))) as Hs.
  destruct (shl_align mx ex _) as [mz ez]. cbn [fst snd] in Hs. cbv zeta in Hs.
  cbv beta iota. destruct Hs as [Hez Hmz].
  assert (Hval : F2R (Zpos mz) ez = F2R (Zpos mx) ex).
  { rewrite Hmz, F2R_shift by lia. f_equal. lia. }
  assert (Hdz : Zdigits2 (Zpos mz) + ez = Zpos (digits2_pos mx) + ex).
  { rewrite Hmz, Zdigits2_shift by lia. simpl. lia. }
  rewrite <- Hval in *.
  apply binary_round_aux_monotone; [lia| |done|done].
  rewrite Hdz. lia.
Qed.

Lemma finish_opp (sx : bool) (mrs : shr_record) (e : Z) :
  finish (negb sx) mrs e = SFopp (finish sx mrs e).
Proof. unfold finish. destruct (shr_m mrs); [done| |done]. by destruct (Z.leb _ _). Qed.

Lemma binary_round_aux_opp (sx : bool) (m e : Z) (l : location) :
  binary_round_aux prec emax (negb sx) m e l
  = SFopp (binary_round_aux prec emax sx m e l).
Proof. rewrite !binary_round_aux_unfold. cbv zeta. apply finish_opp. Qed.

Lemma binary_round_opp (m : positive) (e : Z) :
  binary_round prec emax true m e = SFopp (binary_round prec emax false m e).
Proof.
  unfold binary_round. destruct (shl_align _ _ _) as [mz ez].
  apply (binary_round_aux_opp false).
Qed.

Lemma B2R_opp (x : float32) : B2R (SFopp x) = (- B2R x)%R.
Proof.
  destruct x as [s| | |s m e]; simpl; try lra.
  rewrite !signed_cond_Zopp. unfold signed. destruct s; simpl; lra.
Qed.

Lemma fin32_opp (x : float32) : fin32 x -> fin32 (SFopp x).
Proof. by destruct x. Qed.

Lemma SFopp_involutive (x : float32) : SFopp (SFopp x) = x.
Proof. destruct x as [s|s| |s m e]; simpl; by rewrite ?negb_involutive. Qed.

Lemma rounds_mono_exact (v : R) (r : float32) : fin32 r -> B2R r = v -> rounds_mono v r.
Proof. intros Hf <-. split; [by apply rounds_exact|done|done]. Qed.

(** A value that is a float of the format is not changed by rounding. *)
Lemma rounds_mono_eq (v : R) (r t : float32) :
  rounds_mono v r -> fin32 t -> B2R t = v -> B2R r = v.
Proof.
  intros [_ Hb Ha] Ht Hv. specialize (Hb t Ht). specialize (Ha t Ht). lra.
Qed.

Lemma rounds_mono_opp (v : R) (r : float32) :
  rounds_mono v r -> rounds_mono (- v) (SFopp r).
Proof.
  intros [[Hf Hc Hp Hn] Hb Ha]. split; [split|..].
  - by apply fin32_opp.
  - unfold close in *. rewrite B2R_opp.
    replace (- B2R r - - v)%R with (- (B2R r - v))%R by ring. by rewrite !Rabs_Ropp.
  - rewrite B2R_opp. lra.
  - rewrite B2R_opp. lra.
  - intros t Ht Hle. rewrite B2R_opp.
    specialize (Ha (SFopp t) (fin32_opp _ Ht)). rewrite B2R_opp in Ha. lra.
  - intros t Ht Hle. rewrite B2R_opp.
    specialize (Hb (SFopp t) (fin32_opp _ Ht)). rewrite B2R_opp in Hb. lra.
Qed.

Lemma binary_round_mono (sx : bool) (mx : positive) (ex : Z) :
  (F2R (Zpos mx) ex < bpow 127)%R ->
  rounds_mono (signed sx (F2R (Zpos mx) ex)) (binary_round prec emax sx mx ex).
Proof.
  intros Hlt.
  assert (H : rounds_mono (F2R (Zpos mx) ex) (binary_round prec emax false mx ex)).
  { split.
    - apply (binary_round_R false mx ex Hlt).
    - intros t Ht. by apply binary_round_monotone.
    - intros t Ht. by apply binary_round_monotone. }
  destruct sx; [|done]. rewrite binary_round_opp. by apply rounds_mono_opp.
Qed.

Lemma binary_normalize_mono (m e : Z) (szero : bool) :
  (Rabs (F2R m e) < bpow 127)%R ->
  rounds_mono (F2R m e) (binary_normalize prec emax m e szero).
Proof.
  intros Hlt. rewrite F2R_Rabs in Hlt. destruct m as [|p|p]; cbn [binary_normalize].
  - rewrite F2R_0. apply rounds_mono_exact; [apply fin32_zero|done].
  - apply (binary_round_mono false p e Hlt).
  - change (Zneg p) with (- Zpos p). rewrite F2R_opp.
    apply (binary_round_mono true p e Hlt).
Qed.

(** Multiplication does not cross a float of the format either. *)
Lemma mul_mono (x y : float32) :
  fin32 x -> fin32 y -> (Rabs (B2R x * B2R y) < bpow 127)%R ->
  rounds_mono (B2R x * B2R y) (x * y)%f32.
Proof.
  intros Hx Hy Hlt.
  destruct x as [sx| | |sx mx ex]; try (by destruct Hx);
  destruct y as [sy| | |sy my ey]; try (by destruct Hy);
    try (apply rounds_mono_exact; [apply fin32_zero | simpl; ring]).
  destruct (valid_finite _ _ _ Hx) as [Hcx Hbx].
  destruct (valid_finite _ _ _ Hy) as [Hcy Hby].
  rewrite !B2R_finite, signed_mul, F2R_mul in *. rewrite signed_Rabs in Hlt.
  change (Zpos mx * Zpos my) with (Zpos (mx * my)) in *.
  pose proof (F2R_pos (Zpos (mx * my)) (ex + ey) ltac:(lia)) as Hpos.
  rewrite Rabs_pos_eq in Hlt by lra.
  unfold mul, SFmul.
  assert (Hpre : ex + ey <= fexp32 (Zdigits2 (Zpos (mx * my)) + (ex + ey))).
  { pose proof (Zdigits2_mul_ge mx my). pose proof (Pos2Z.is_pos (digits2_pos mx)).
    pose proof (Pos2Z.is_pos (digits2_pos my)). unfold fexp32 in *. lia. }
  assert (H : rounds_mono (F2R (Zpos (mx * my)) (ex + ey))
                (binary_round_aux prec emax false (Zpos (mx * my)) (ex + ey) loc_Exact)).
  { split.
    - destruct (binary_round_aux_R false (Zpos (mx * my)) (ex + ey) loc_Exact
                  (F2R (Zpos (mx * my)) (ex + ey))) as (a & Hf & HB & Ha & Hc & _);
        [lia|done|split; [lra|apply F2R_le; lia]|done|].
      by apply (rounds_signed false _ a).
    - intros t Ht. by apply binary_round_aux_monotone.
    - intros t Ht. by apply binary_round_aux_monotone. }
  destruct (xorb sx sy); [|done].
  rewrite (binary_round_aux_opp false). by apply rounds_mono_opp.
Qed.

Lemma F2R_add (a b e : Z) : F2R (a + b) e = (F2R a e + F2R b e)%R.
Proof. unfold F2R. rewrite plus_IZR. ring. Qed.

Lemma shl_align_F2R (s : bool) (m : positive) (e ez : Z) :
  ez <= e ->
  F2R (cond_Zopp s (Zpos (fst (shl_align m e ez)))) ez = B2R (S754_finite s m e).
Proof.
  intros He. destruct (shl_align_spec m e ez) as [Hez Hm].
  rewrite Hm, Hez. replace (Z.min e ez) with ez by lia.
  rewrite signed_cond_Zopp, B2R_finite. f_equal.
  rewrite F2R_shift by lia. f_equal. lia.
Qed.

(** Addition. *)
Lemma add_mono (x y : float32) :
  fin32 x -> fin32 y -> (Rabs (B2R x + B2R y) < bpow 127)%R ->
  rounds_mono (B2R x + B2R y) (x + y)%f32.
Proof.
  intros Hx Hy Hlt.
  destruct x as [sx| | |sx mx ex]; try (by destruct Hx);
  destruct y as [sy| | |sy my ey]; try (by destruct Hy).
  - apply rounds_mono_exact; [destruct sx, sy; apply fin32_zero|].
    destruct sx, sy; simpl; ring.
  - apply rounds_mono_exact; [done|simpl; ring].
  - apply rounds_mono_exact; [done|simpl; ring].
  - unfold add, SFadd.
    rewrite <- (shl_align_F2R sx mx ex (Z.min ex ey)) in * by lia.
    rewrite <- (shl_align_F2R sy my ey (Z.min ex ey)) in * by lia.
    rewrite <- F2R_add in *. by apply binary_normalize_mono.
Qed.

Lemma SFsub_SFadd (x y : float32) : SFsub prec emax x y = SFadd prec emax x (SFopp y).
Proof.
  destruct x as [sx|sx| |sx mx ex], y as [sy|sy| |sy my ey]; try reflexivity;
    by destruct sx, sy.
Qed.

(** Subtraction. *)
Lemma sub_mono (x y : float32) :
  fin32 x -> fin32 y -> (Rabs (B2R x - B2R y) < bpow 127)%R ->
  rounds_mono (B2R x - B2R y) (x - y)%f32.
Proof.
  intros Hx Hy Hlt. unfold sub. rewrite SFsub_SFadd.
  replace (B2R x - B2R y)%R with (B2R x + B2R (SFopp y))%R in *
    by (rewrite B2R_opp; ring).
  apply add_mono; [done|by apply fin32_opp|done].
Qed.

(** Conversion of an integer, which is exact below [2 ^ 24]. *)
Lemma of_int_mono (n : Z) :
  Z.abs n < 2 ^ 127 -> rounds_mono (IZR n) (of_int n).
Proof.
  intros Hn. unfold of_int.
  assert (HF : F2R n 0 = IZR n) by (unfold F2R; rewrite bpow_0; ring).
  rewrite <- HF. apply binary_normalize_mono.
  rewrite F2R_Rabs. unfold F2R. rewrite bpow_0, Rmult_1_r.
  rewrite bpow_IZR by lia. by apply IZR_lt.
Qed.

Lemma of_int_exact (n : Z) :
  Z.abs n <= 2 ^ 24 -> fin32 (of_int n) /\ B2R (of_int n) = IZR n.
Proof.
  intros Hn. destruct (of_int_spec n) as [Hr Hex]; [lia|].
  split; [apply Hr|].
  destruct (Z.eq_dec (Z.abs n) (2 ^ 24)) as [Heq|Hne]; [|apply Hex; lia].
  destruct (Z.abs_eq_or_opp n) as [H|H]; rewrite H in Heq.
  - subst n. change (of_int (2 ^ 24)) with (S754_finite false 8388608 1).
    rewrite B2R_finite. unfold signed, F2R. rewrite bpow_1.
    change (2 ^ 24) with 16777216. lra.
  - assert (n = - 2 ^ 24) as -> by lia.
    change (of_int (- 2 ^ 24)) with (S754_finite true 8388608 1).
    rewrite B2R_finite. unfold signed, F2R. rewrite bpow_1.
    change (- 2 ^ 24) with (-16777216). lra.
Qed.

(** ** Comparison *)

Lemma canonical_lt (m1 m2 : positive) (e1 e2 : Z) :
  fexp32 (Zpos (digits2_pos m1) + e1) = e1 ->
  fexp32 (Zpos (digits2_pos m2) + e2) = e2 ->
  e1 < e2 -> (F2R (Zpos m1) e1 < F2R (Zpos m2) e2)%R.
Proof.
  intros H1 H2 Hlt.
  destruct (F2R_bounds (Zpos m1) e1 ltac:(lia)) as [_ Hhi].
  destruct (F2R_bounds (Zpos m2) e2 ltac:(lia)) as [Hlo _].
  cbn [Zdigits2] in *.
  assert (Zpos (digits2_pos m1) + e1 <= Zpos (digits2_pos m2) - 1 + e2)
    by (unfold fexp32 in *; lia).
  pose proof (bpow_le _ _ H). lra.
Qed.

Lemma compare_pos (m1 m2 : positive) (e1 e2 : Z) :
  fexp32 (Zpos (digits2_pos m1) + e1) = e1 ->
  fexp32 (Zpos (digits2_pos m2) + e2) = e2 ->
  cmp_prop (match Z.compare e1 e2 with
            | Lt => Lt
            | Gt => Gt
            | Eq => Pos.compare_cont Eq m1 m2
            end) (F2R (Zpos m1) e1) (F2R (Zpos m2) e2).
Proof.
  intros H1 H2. destruct (Z.compare_spec e1 e2) as [->|Hlt|Hgt].
  - change (Pos.compare_cont Eq m1 m2) with (Pos.compare m1 m2).
    destruct (Pos.compare_spec m1 m2) as [->|Hlt|Hgt]; simpl.
    + done.
    + apply F2R_lt. lia.
    + apply F2R_lt. lia.
  - by apply canonical_lt.
  - by apply canonical_lt.
Qed.

Lemma cmp_prop_opp (c : comparison) (a b : R) :
  cmp_prop c a b -> cmp_prop (CompOpp c) (- a) (- b).
Proof. destruct c; simpl; intros; lra. Qed.

Lemma SFcompare_spec (x y : float32) :
  fin32 x -> fin32 y ->
  exists c, SFcompare x y = Some c /\ cmp_prop c (B2R x) (B2R y).
Proof.
  intros Hx Hy.
  destruct x as [sx| | |sx mx ex]; try (by destruct Hx);
  destruct y as [sy| | |sy my ey]; try (by destruct Hy).
  - exists Eq. by split.
  - pose proof (F2R_pos (Zpos my) ey ltac:(lia)).
    exists (if sy then Gt else Lt). split; [done|].
    rewrite B2R_finite. unfold signed. destruct sy; simpl; lra.
  - pose proof (F2R_pos (Zpos mx) ex ltac:(lia)).
    exists (if sx then Lt else Gt). split; [done|].
    rewrite B2R_finite. unfold signed. destruct sx; simpl; lra.
  - destruct (valid_finite _ _ _ Hx) as [Hcx _].
    destruct (valid_finite _ _ _ Hy) as [Hcy _].
    pose proof (F2R_pos (Zpos mx) ex ltac:(lia)).
    pose proof (F2R_pos (Zpos my) ey ltac:(lia)).
    pose proof (compare_pos mx my ex ey Hcx Hcy) as Hc.
    rewrite !B2R_finite. unfold signed. cbn [SFcompare].
    destruct sx, sy.
    + eexists. split; [reflexivity|].
      destruct (Z.compare ex ey); try (simpl in *; lra).
      by apply cmp_prop_opp.
    + exists Lt. split; [done|simpl; lra].
    + exists Gt. split; [done|simpl; lra].
    + eexists. split; [reflexivity|done].
Qed.

Lemma ltb_iff (x y : float32) :
  fin32 x -> fin32 y -> ((x <? y)%f32 = true <-> (B2R x < B2R y)%R).
Proof.
  intros Hx Hy. destruct (SFcompare_spec x y Hx Hy) as (c & Hc & Hp).
  unfold ltb, SFltb. rewrite Hc. destruct c; simpl in Hp; split; intros; (done || lra).
Qed.

Lemma ltb_false_iff (x y : float32) :
  fin32 x -> fin32 y -> ((x <? y)%f32 = false <-> (B2R y <= B2R x)%R).
Proof.
  intros Hx Hy. destruct (SFcompare_spec x y Hx Hy) as (c & Hc & Hp).
  unfold ltb, SFltb. rewrite Hc. destruct c; simpl in Hp; split; intros; (done || lra).
Qed.

Lemma leb_iff (x y : float32) :
  fin32 x -> fin32 y -> ((x <=? y)%f32 = true <-> (B2R x <= B2R y)%R).
Proof.
  intros Hx Hy. destruct (SFcompare_spec x y Hx Hy) as (c & Hc & Hp).
  unfold leb, SFleb. rewrite Hc. destruct c; simpl in Hp; split; intros; (done || lra).
Qed.

Lemma gtb_iff (x y : float32) :
  fin32 x -> fin32 y -> ((x >? y)%f32 = true <-> (B2R y < B2R x)%R).
Proof. intros Hx Hy. unfold gtb. by apply (ltb_iff y x). Qed.

(** ** Truncation to an integer *)

Lemma to_int_spec (x : float32) :
  fin32 x -> (0 <= B2R x)%R ->
  0 <= to_int x /\ (IZR (to_int x) <= B2R x < IZR (to_int x) + 1)%R.
Proof.
  intros Hx H0. destruct x as [s| | |s m e]; try (by destruct Hx).
  { simpl. split; [lia|lra]. }
  pose proof (F2R_pos (Zpos m) e ltac:(lia)) as Hpos.
  rewrite B2R_finite in *. unfold signed in *. destruct s; [lra|].
  unfold to_int. destruct e as [|p|p].
  - rewrite Z.shiftl_0_r. unfold F2R. rewrite bpow_0. split; [lia|lra].
  - rewrite Z.shiftl_mul_pow2 by lia. pose proof (pow2_pos (Zpos p) ltac:(lia)).
    split; [nia|]. unfold F2R. rewrite mult_IZR, <- bpow_IZR by lia. lra.
  - rewrite Z.shiftr_div_pow2 by lia.
    pose proof (pow2_pos (Zpos p) ltac:(lia)) as Hp.
    pose proof (Z.div_mod (Zpos m) (2 ^ Zpos p) ltac:(lia)) as Hdm.
    pose proof (Z.mod_pos_bound (Zpos m) (2 ^ Zpos p) Hp) as Hmod.
    set (q := Zpos m / 2 ^ Zpos p) in *.
    assert (Hq : 0 <= q) by (apply Z.div_pos; lia).
    split; [done|].
    assert (Hlo : (F2R (q * 2 ^ Zpos p) (Zneg p) <= F2R (Zpos m) (Zneg p))%R)
      by (apply F2R_le; lia).
    assert (Hhi : (F2R (Zpos m) (Zneg p) < F2R ((q + 1) * 2 ^ Zpos p) (Zneg p))%R)
      by (apply F2R_lt; lia).
    assert (Hint : forall z, F2R (z * 2 ^ Zpos p) (Zneg p) = IZR z).
    { intros z. rewrite F2R_shift by lia. replace (Zneg p + Zpos p) with 0 by lia.
      unfold F2R. rewrite bpow_0. ring. }
    rewrite Hint in Hlo, Hhi. rewrite plus_IZR in Hhi. lra.
Qed.

(** ** Division *)

Lemma div_core_spec (mx my : positive) (ex ey : Z) :
  fexp32 (Zpos (digits2_pos mx) + ex) = ex ->
  fexp32 (Zpos (digits2_pos my) + ey) = ey ->
  let '(q, e', l) := SFdiv_core_binary prec emax (Zpos mx) ex (Zpos my) ey in
  0 <= q /\ e' <= fexp32 (Zdigits2 q + e')
  /\ (F2R q e' <= F2R (Zpos mx) ex / F2R (Zpos my) ey <= F2R (q + 1) e')%R.
Proof.
  intros Hcx Hcy. unfold SFdiv_core_binary. rewrite fexp32_spec. cbn [Zdigits2].
  set (d1 := Zpos (digits2_pos mx)) in *. set (d2 := Zpos (digits2_pos my)) in *.
  set (e' := Z.min (fexp32 (d1 + ex - (d2 + ey))) (ex - ey)).
  set (s := ex - ey - e').
  assert (Hs : 0 <= s) by (subst s e'; lia).
  set (m' := match s with Zpos _ => Z.shiftl (Zpos mx) s | Z0 => Zpos mx | Zneg _ => 0 end).
  assert (Hm' : m' = Zpos mx * 2 ^ s).
  { subst m'. destruct s as [|p|p]; [simpl; lia| |lia]. by rewrite Z.shiftl_mul_pow2. }
  pose proof (Z_div_mod m' (Zpos my) ltac:(lia)) as Hdiv.
  destruct (Z.div_eucl m' (Zpos my)) as [q r]. destruct Hdiv as [Hdiv Hr].
  pose proof (pow2_pos s Hs) as Hps.
  pose proof (digits2_pos_bounds mx) as Hbx. fold d1 in Hbx.
  pose proof (digits2_pos_bounds my) as Hby. fold d2 in Hby.
  assert (Hq : 0 <= q) by nia.
  split; [done|]. split.
  - destruct (Z_le_gt_dec e' (-149)) as [Hle|Hgt]; [unfold fexp32; lia|].
    assert (Hs24 : 24 + d2 - d1 <= s) by (subst s e'; unfold fexp32 in *; lia).
    assert (Hq23 : 2 ^ 23 <= q).
    { assert (Hlow : 2 ^ 23 * 2 ^ d2 <= m').
      { rewrite Hm'. rewrite <- Z.pow_add_r by lia.
        pose proof (pow2_le (23 + d2) (d1 - 1 + s) ltac:(lia)) as Hp.
        rewrite (Z.pow_add_r 2 (d1 - 1) s) in Hp by lia. nia. }
      pose proof (pow2_pos 23 ltac:(lia)). nia. }
    pose proof (Zdigits2_ge q 24 ltac:(lia) Hq23). unfold fexp32. lia.
  - pose proof (F2R_pos (Zpos my) ey ltac:(lia)) as Hypos.
    assert (Hv : (F2R (Zpos mx) ex / F2R (Zpos my) ey
                  = IZR m' / IZR (Zpos my) * bpow e')%R).
    { rewrite Hm', mult_IZR, <- bpow_IZR by done. unfold F2R.
      replace ex with (s + e' + ey) at 1 by (subst s; lia).
      rewrite !bpow_add. pose proof (bpow_gt_0 ey).
      assert (IZR (Zpos my) <> 0%R) by (apply eq_IZR_contrapositive; lia).
      field. split; lra. }
    rewrite Hv. unfold F2R. pose proof (bpow_gt_0 e').
    assert (Hmy : (0 < IZR (Zpos my))%R) by (apply IZR_lt; lia).
    assert (Ht : (IZR m' / IZR (Zpos my) * IZR (Zpos my) = IZR m')%R) by (field; lra).
    set (t := (IZR m' / IZR (Zpos my))%R) in *.
    assert (H1 : (IZR q * IZR (Zpos my) <= IZR m')%R).
    { rewrite <- mult_IZR. apply IZR_le. nia. }
    assert (H2 : (IZR m' <= IZR (q + 1) * IZR (Zpos my))%R).
    { rewrite <- mult_IZR. apply IZR_le. nia. }
    split; nra.
Qed.

Lemma div_spec (x y : float32) :
  fin32 x -> fin32 y -> B2R y <> 0%R ->
  (Rabs (B2R x / B2R y) < bpow 127)%R ->
  rounds (B2R x / B2R y) (x / y)%f32.
Proof.
  intros Hx Hy Hy0 Hlt.
  destruct y as [sy| | |sy my ey]; try (by destruct Hy); try (by simpl in Hy0).
  destruct x as [sx| | |sx mx ex]; try (by destruct Hx).
  { apply rounds_exact_eq; [apply fin32_zero|]. simpl. unfold Rdiv. ring. }
  destruct (valid_finite _ _ _ Hx) as [Hcx _].
  destruct (valid_finite _ _ _ Hy) as [Hcy _].
  pose proof (div_core_spec mx my ex ey Hcx Hcy) as Hcore.
  unfold div, SFdiv.
  destruct (SFdiv_core_binary prec emax (Zpos mx) ex (Zpos my) ey) as [[q e'] l].
  destruct Hcore as (Hq & Hpre & Hv).
  pose proof (F2R_pos (Zpos mx) ex ltac:(lia)) as Hxpos.
  pose proof (F2R_pos (Zpos my) ey ltac:(lia)) as Hypos.
  assert (Hvpos : (0 < F2R (Zpos mx) ex / F2R (Zpos my) ey)%R)
    by (apply Rdiv_lt_0_compat; lra).
  assert (Hsig : (B2R (S754_finite sx mx ex) / B2R (S754_finite sy my ey))%R
                 = signed (xorb sx sy) (F2R (Zpos mx) ex / F2R (Zpos my) ey)).
  { rewrite !B2R_finite. unfold signed. destruct sx, sy; simpl; field; lra. }
  rewrite Hsig in *. rewrite signed_Rabs, Rabs_pos_eq in Hlt by lra.
  destruct (binary_round_aux_R (xorb sx sy) q e' l _ Hq Hpre Hv Hlt)
    as (a & Hf & HB & Ha & Hc & _).
  by apply (rounds_signed _ _ a).
Qed.

(** ** Square root *)

Lemma sqrt_bpow (e : Z) : sqrt (bpow (2 * e)) = bpow e.
Proof.
  replace (2 * e) with (e + e) by lia. rewrite bpow_add.
  apply sqrt_square. pose proof (bpow_gt_0 e). lra.
Qed.

Lemma sqrt_core_spec (mx : positive) (ex : Z) :
  fexp32 (Zpos (digits2_pos mx) + ex) = ex ->
  let '(q, e', l) := SFsqrt_core_binary prec emax (Zpos mx) ex in
  0 <= q /\ e' <= fexp32 (Zdigits2 q + e')
  /\ (F2R q e' <= sqrt (F2R (Zpos mx) ex) <= F2R (q + 1) e')%R.
Proof.
  intros Hcx. unfold SFsqrt_core_binary. rewrite fexp32_spec. cbn [Zdigits2].
  set (d := Zpos (digits2_pos mx)) in *.
  rewrite !Z.div2_div.
  set (e' := Z.min (fexp32 ((d + ex + 1) / 2)) (ex / 2)).
  set (s := ex - 2 * e').
  pose proof (Z.div_mod ex 2 ltac:(lia)) as Hex2.
  pose proof (Z.mod_pos_bound ex 2 ltac:(lia)) as Hex2b.
  pose proof (Z.div_mod (d + ex + 1) 2 ltac:(lia)) as Hd2.
  pose proof (Z.mod_pos_bound (d + ex + 1) 2 ltac:(lia)) as Hd2b.
  assert (Hs : 0 <= s) by (subst s e'; lia).
  set (m' := match s with Zpos _ => Z.shiftl (Zpos mx) s | Z0 => Zpos mx | Zneg _ => 0 end).
  assert (Hm' : m' = Zpos mx * 2 ^ s).
  { subst m'. destruct s as [|p|p]; [simpl; lia| |lia]. by rewrite Z.shiftl_mul_pow2. }
  pose proof (pow2_pos s Hs) as Hps.
  pose proof (Z.sqrtrem_spec m' ltac:(nia)) as Hsq.
  destruct (Z.sqrtrem m') as [q r]. destruct Hsq as [Hsq Hr].
  pose proof (digits2_pos_bounds mx) as Hbx. fold d in Hbx.
  assert (Hq : 0 <= q) by nia.
  assert (Hgoal : 0 <= q /\ e' <= fexp32 (Zdigits2 q + e')
            /\ (F2R q e' <= sqrt (F2R (Zpos mx) ex) <= F2R (q + 1) e')%R);
    [|by destruct (Z.eqb r 0)].
  split; [done|]. split.
  - destruct (Z_le_gt_dec e' (-149)) as [Hle|Hgt]; [unfold fexp32; lia|].
    assert (Hs47 : 47 - d <= s) by (subst s e'; unfold fexp32 in *; lia).
    assert (Hq23 : 2 ^ 23 <= q).
    { assert (Hlow : 2 ^ 46 <= m').
      { rewrite Hm'. pose proof (pow2_le 46 (d - 1 + s) ltac:(lia)) as Hp.
        rewrite (Z.pow_add_r 2 (d - 1) s) in Hp by lia. nia. }
      destruct (Z_lt_le_dec q (2 ^ 23)) as [Hlt|]; [|done].
      exfalso. change (2 ^ 46) with (2 ^ 23 * 2 ^ 23) in Hlow.
      change (2 ^ 23) with 8388608 in *. nia. }
    pose proof (Zdigits2_ge q 24 ltac:(lia) Hq23). unfold fexp32. lia.
  - assert (Hv : F2R (Zpos mx) ex = (IZR m' * bpow (2 * e'))%R).
    { rewrite Hm', mult_IZR, <- bpow_IZR by done. unfold F2R.
      replace ex with (s + 2 * e') at 1 by (subst s; lia).
      rewrite bpow_add. ring. }
    rewrite Hv. pose proof (bpow_gt_0 (2 * e')). pose proof (bpow_gt_0 e').
    assert (Hm0 : (0 <= IZR m')%R) by (apply IZR_le; nia).
    rewrite sqrt_mult by lra. rewrite sqrt_bpow. unfold F2R.
    assert (Hlo : (IZR q <= sqrt (IZR m'))%R).
    { rewrite <- (sqrt_square (IZR q)) by (apply IZR_le; lia).
      apply sqrt_le_1_alt. rewrite <- mult_IZR. apply IZR_le. nia. }
    assert (Hhi : (sqrt (IZR m') <= IZR (q + 1))%R).
    { rewrite <- (sqrt_square (IZR (q + 1))) by (apply IZR_le; lia).
      apply sqrt_le_1_alt. rewrite <- mult_IZR. apply IZR_le. nia. }
    split; nra.
Qed.

Lemma sqrt_spec (x : float32) :
  fin32 x -> (0 <= B2R x)%R -> rounds (sqrt (B2R x)) (sqrtf x).
Proof.
  intros Hx H0. destruct x as [s| | |s mx ex]; try (by destruct Hx).
  { apply rounds_exact_eq; [apply fin32_zero|]. simpl. by rewrite sqrt_0. }
  pose proof (F2R_pos (Zpos mx) ex ltac:(lia)) as Hpos.
  rewrite B2R_finite in *. unfold signed in *. destruct s; [lra|].
  destruct (valid_finite _ _ _ Hx) as [Hcx Hbx].
  pose proof (sqrt_core_spec mx ex Hcx) as Hcore.
  unfold sqrtf, SFsqrt.
  destruct (SFsqrt_core_binary prec emax (Zpos mx) ex) as [[q e'] l].
  destruct Hcore as (Hq & Hpre & Hv).
  assert (Hvpos : (0 < sqrt (F2R (Zpos mx) ex))%R) by by apply sqrt_lt_R0.
  assert (Hlt : (sqrt (F2R (Zpos mx) ex) < bpow 127)%R).
  { assert (Hb : (F2R (Zpos mx) ex < bpow (2 * 64))%R).
    { destruct (F2R_bounds (Zpos mx) ex ltac:(lia)) as [_ Hhi].
      cbn [Zdigits2] in Hhi. unfold fexp32 in Hcx.
      pose proof (bpow_le (Zpos (digits2_pos mx) + ex) (2 * 64) ltac:(lia)). lra. }
    pose proof (sqrt_lt_1_alt _ _ (conj (Rlt_le _ _ Hpos) Hb)) as Hb'.
    rewrite sqrt_bpow in Hb'.
    pose proof (bpow_lt 64 127 ltac:(lia)). lra. }
  destruct (binary_round_aux_R false q e' l _ Hq Hpre Hv Hlt)
    as (a & Hf & HB & Ha & Hc & _).
  by apply (rounds_signed false _ a).
Qed.
(** ** Loops *)

Lemma for_range_nonpos {S} (n : Z) (body : Z -> S -> S) (s : S) :
  n <= 0 -> for_range n body s = s.
Proof. intros Hn. unfold for_range. by rewrite seqZ_nil. Qed.

Lemma for_range_succ {S} (n : Z) (body : Z -> S -> S) (s : S) :
  0 <= n -> for_range (n + 1) body s = body n (for_range n body s).
Proof.
  intros Hn. unfold for_range.
  rewrite seqZ_app by lia. rewrite fold_left_app.
  rewrite (seqZ_cons (0 + n) 1) by lia. rewrite seqZ_nil by lia.
  simpl. by rewrite Z.add_0_l.
Qed.

(** Induction over the iterations of a [for] loop. *)
Lemma for_range_ind {S} (Inv : Z -> S -> Prop) (n : Z) (body : Z -> S -> S) (s : S) :
  0 <= n ->
  Inv 0 s ->
  (forall i acc, 0 <= i < n -> Inv i acc -> Inv (i + 1) (body i acc)) ->
  Inv n (for_range n body s).
Proof.
  intros Hn H0 Hstep.
  assert (Hgen : forall k : nat, Z.of_nat k <= n ->
             Inv (Z.of_nat k) (for_range (Z.of_nat k) body s)).
  { induction k as [|k IH]; intros Hk.
    - by rewrite for_range_nonpos.
    - rewrite Nat2Z.inj_succ, <- Z.add_1_r.
      rewrite for_range_succ by lia. apply Hstep; [lia|]. apply IH. lia. }
  specialize (Hgen (Z.to_nat n)). rewrite Z2Nat.id in Hgen by lia.
  apply Hgen. lia.
Qed.

Lemma for_range_split {S} (a b : Z) (body : Z -> S -> S) (s : S) :
  0 <= a -> 0 <= b ->
  for_range (a + b) body s = for_range b (fun i => body (a + i)) (for_range a body s).
Proof.
  intros Ha Hb. unfold for_range.
  rewrite seqZ_app by lia. rewrite fold_left_app.
  rewrite Z.add_0_l, <- (Z.add_0_r a) at 1. rewrite <- fmap_add_seqZ.
  generalize (fold_left (fun acc i => body i acc) (seqZ 0 a) s).
  induction (seqZ 0 b) as [|i l IH]; intros acc; simpl; [done|]. apply IH.
Qed.

(** The two nested loops over rows and columns visit the cells in
    row-major order of [pixIdx = y * W + x]. *)
Lemma for_range_row_major {S} (W H : Z) (body : Z -> S -> S) (s : S) :
  0 <= W -> 0 <= H ->
  for_range H (fun y => for_range W (fun x => body (y * W + x))) s
  = for_range (W * H) body s.
Proof.
  intros HW HH.
  apply (for_range_ind
           (fun y acc => acc = for_range (W * y) body s) H
           (fun y => for_range W (fun x => body (y * W + x))) s HH).
  - rewrite Z.mul_0_r. by rewrite for_range_nonpos.
  - intros y acc Hy ->.
    replace (W * (y + 1)) with (W * y + W) by lia.
    rewrite for_range_split by lia.
    f_equal. replace (W * y) with (y * W) by lia. done.
Qed.

(** ** What a frame leaves alone *)

Lemma same_classification_refl e : same_classification e e.
Proof. by repeat split. Qed.

Lemma same_classification_trans e1 e2 e3 :
  same_classification e1 e2 -> same_classification e2 e3 -> same_classification e1 e3.
Proof. unfold same_classification. intros H1 H2. intuition congruence. Qed.

Section DitherFacts.
Variable sinf : float32 -> float32.

Lemma dither_cell_same e i : same_classification e (dither_cell sinf e i).
Proof.
  unfold dither_cell, dither_random, dither_wave.
  destruct (g_algorithm e =? 1).
  - destruct (random_decide _ _) as [b rng]. by repeat split.
  - destruct (refresh_cache sinf e _) as [[[ly sine] chaos] invW].
    destruct (wave_decide _ _ _ _ _ _) as [b rng]. by repeat split.
Qed.

Lemma dither_cell_time e i : g_time (dither_cell sinf e i) = g_time e.
Proof.
  unfold dither_cell, dither_random, dither_wave.
  destruct (g_algorithm e =? 1).
  - by destruct (random_decide _ _) as [b rng].
  - destruct (refresh_cache sinf e _) as [[[ly sine] chaos] invW].
    by destruct (wave_decide _ _ _ _ _ _) as [b rng].
Qed.

(** A cell's update writes one of the two fixed colours at the cell's
    own offset and nowhere else. *)
Lemma dither_cell_pixels e i :
  exists isOrange : bool,
    g_scaledPixels (dither_cell sinf e i)
    = memcpy4 (g_scaledPixels e) (i * 4) (if isOrange then ORANGE_RGBA else BLACK_RGBA).
Proof.
  unfold dither_cell, dither_random, dither_wave, set_pixel.
  destruct (g_algorithm e =? 1).
  - destruct (random_decide _ _) as [b rng]. by exists b.
  - destruct (refresh_cache sinf e _) as [[[ly sine] chaos] invW].
    destruct (wave_decide _ _ _ _ _ _) as [b rng]. by exists b.
Qed.

Lemma dither_cells_same l e :
  same_classification e (fold_left (dither_cell sinf) l e).
Proof.
  revert e. induction l as [|i l IH]; intros e; simpl.
  - apply same_classification_refl.
  - eapply same_classification_trans; [apply dither_cell_same | apply IH].
Qed.

Lemma dither_cells_time l e :
  g_time (fold_left (dither_cell sinf) l e) = g_time e.
Proof.
  revert e. induction l as [|i l IH]; intros e; simpl; [done|].
  by rewrite IH, dither_cell_time.
Qed.

Lemma ditherFrame_same e : same_classification e (ditherFrame sinf e).
Proof.
  unfold ditherFrame. destruct (g_algorithm e =? 0).
  - apply same_classification_refl.
  - pose proof (dither_cells_same (g_ambiguousIndices e) e) as H.
    unfold same_classification in *. simpl. exact H.
Qed.

Lemma frames_S n e : frames sinf (S n) e = ditherFrame sinf (frames sinf n e).
Proof. reflexivity. Qed.

Lemma frames_same n e : same_classification e (frames sinf n e).
Proof.
  induction n as [|n IH].
  - apply same_classification_refl.
  - rewrite frames_S.
    eapply same_classification_trans; [apply IH | apply ditherFrame_same].
Qed.

Lemma ditherFrame_static e : g_algorithm e = 0 -> ditherFrame sinf e = e.
Proof. intros H. unfold ditherFrame. by rewrite H. Qed.

Lemma frames_static n e : g_algorithm e = 0 -> frames sinf n e = e.
Proof.
  intros H. induction n as [|n IH]; [done|].
  rewrite frames_S, IH. by apply ditherFrame_static.
Qed.

Lemma ditherFrame_time e :
  g_time (ditherFrame sinf e)
  = if g_algorithm e =? 0 then g_time e else (g_time e + c0_016)%f32.
Proof.
  unfold ditherFrame. destruct (g_algorithm e =? 0); [done|].
  simpl. by rewrite dither_cells_time.
Qed.
End DitherFacts.

Lemma dither_random_pixels e pixIdx :
  g_scaledPixels (dither_random e pixIdx)
  = memcpy4 (g_scaledPixels e) (pixIdx * 4)
      (if fst (random_decide (vget (g_orangeProb e) pixIdx) (g_rngState e))
       then ORANGE_RGBA else BLACK_RGBA).
Proof.
  unfold dither_random, set_pixel.
  by destruct (random_decide _ _) as [b rng].
Qed.

Lemma dither_random_rng e pixIdx :
  g_rngState (dither_random e pixIdx) = fastRand (g_rngState e).
Proof. reflexivity. Qed.
(** ** The output buffer's slots *)

Lemma slot_lookup (buf : list Z) (i : Z) (k : nat) :
  slot buf i !! k = if decide (k < 4)%nat then buf !! (Z.to_nat (i * 4) + k)%nat else None.
Proof.
  unfold slot. rewrite lookup_take. destruct (decide (k < 4)%nat); [|done].
  by rewrite lookup_drop.
Qed.

Lemma slot_memcpy4_same (buf rgba : list Z) (i : Z) :
  0 <= i -> length rgba = 4%nat -> i * 4 + 4 <= Z.of_nat (length buf) ->
  slot (memcpy4 buf (i * 4) rgba) i = rgba.
Proof.
  intros Hi Hlen Hin. apply list_eq. intros k.
  rewrite slot_lookup. unfold memcpy4. destruct (decide (k < 4)%nat) as [Hk|Hk].
  - rewrite list_lookup_inserts by lia. f_equal. lia.
  - symmetry. apply lookup_ge_None. lia.
Qed.

Lemma slot_memcpy4_other (buf rgba : list Z) (i j : Z) :
  0 <= i -> 0 <= j -> i <> j -> length rgba = 4%nat ->
  slot (memcpy4 buf (i * 4) rgba) j = slot buf j.
Proof.
  intros Hi Hj Hne Hlen. apply list_eq. intros k.
  rewrite !slot_lookup. unfold memcpy4. destruct (decide (k < 4)%nat) as [Hk|Hk]; [|done].
  destruct (decide (j < i)).
  - apply list_lookup_inserts_lt. lia.
  - apply list_lookup_inserts_ge. lia.
Qed.

Lemma memcpy4_length (buf rgba : list Z) (i : Z) :
  length (memcpy4 buf i rgba) = length buf.
Proof. apply length_inserts. Qed.

(** ** The classification loop *)

Lemma vget_vset_same {A} `{Inhabited A} (v : list A) (i : Z) (a : A) :
  0 <= i < Z.of_nat (length v) -> vget (vset v i a) i = a.
Proof. intros Hi. unfold vget, vset. apply list_lookup_total_insert_eq. lia. Qed.

Lemma vget_vset_other {A} `{Inhabited A} (v : list A) (i j : Z) (a : A) :
  0 <= i -> 0 <= j -> i <> j -> vget (vset v i a) j = vget v j.
Proof. intros Hi Hj Hne. unfold vget, vset. apply list_lookup_total_insert_ne. lia. Qed.

Lemma vset_length {A} (v : list A) (i : Z) (a : A) : length (vset v i a) = length v.
Proof. apply length_insert. Qed.

Lemma uncertain_cells_succ imgFloat i :
  0 <= i ->
  uncertain_cells imgFloat (i + 1)
  = uncertain_cells imgFloat i
    ++ (if decide (cell_state imgFloat i = PIXEL_AMBIGUOUS) then [i] else []).
Proof.
  intros Hi. unfold uncertain_cells. rewrite seqZ_app by lia. rewrite filter_app.
  by f_equal.
Qed.

Lemma classify_cell_step W imgFloat n x y c :
  0 <= y * W + x < n ->
  classified imgFloat n (y * W + x) c ->
  classified imgFloat n (y * W + x + 1) (classify_cell W imgFloat x y c).
Proof.
  intros Hi [Hsl Hpl Hs Hp Hidx].
  unfold classify_cell.
  set (i := y * W + x) in *.
  replace ((y * W + x) * 3) with (i * 3) by (subst i; lia).
  fold (cell_prob imgFloat i). fold (cell_state imgFloat i).
  assert (Hst : forall st (v : list PixelState), Z.of_nat (length v) = n ->
            (forall j, 0 <= j < i -> vget v j = cell_state imgFloat j) ->
            st = cell_state imgFloat i ->
            forall j, 0 <= j < i + 1 -> vget (vset v i st) j = cell_state imgFloat j).
  { intros st v Hv Hold -> j Hj. destruct (decide (j = i)) as [->|Hne].
    - apply vget_vset_same. lia.
    - rewrite vget_vset_other by lia. apply Hold. lia. }
  pose proof (uncertain_cells_succ imgFloat i ltac:(lia)) as Hsucc.
  destruct (cell_state imgFloat i) eqn:Hc; split; simpl;
    rewrite ?vset_length; try done; try (by apply Hst); try rewrite Hsucc;
    try (by rewrite Hidx, ?app_nil_r).
  - intros j Hj Hamb. destruct (decide (j = i)) as [->|Hne]; [congruence|]. apply Hp; [lia|done].
  - intros j Hj Hamb. destruct (decide (j = i)) as [->|Hne]; [congruence|]. apply Hp; [lia|done].
  - intros j Hj Hamb. destruct (decide (j = i)) as [->|Hne].
    + apply vget_vset_same. lia.
    + rewrite vget_vset_other by lia. apply Hp; [lia|done].
Qed.

Lemma nested_range_ind {S} (Inv : Z -> S -> Prop) (W H : Z)
    (body : Z -> Z -> S -> S) (s : S) :
  0 <= W -> 0 <= H ->
  Inv 0 s ->
  (forall x y acc, 0 <= x < W -> 0 <= y < H ->
     Inv (y * W + x) acc -> Inv (y * W + x + 1) (body x y acc)) ->
  Inv (W * H) (for_range H (fun y => for_range W (fun x => body x y)) s).
Proof.
  intros HW HH H0 Hstep.
  replace (W * H) with (H * W) by lia.
  apply (for_range_ind (fun y acc => Inv (y * W) acc)); [done|done|].
  intros y acc Hy Hacc.
  replace ((y + 1) * W) with (y * W + W) by lia.
  apply (for_range_ind (fun x acc => Inv (y * W + x) acc)); [done|by rewrite Z.add_0_r|].
  intros x acc' Hx Hacc'. rewrite Z.add_assoc. by apply Hstep.
Qed.

Lemma cell_index_range (W H x y : Z) :
  0 <= x < W -> 0 <= y < H -> 0 <= y * W + x < W * H.
Proof. intros Hx Hy. nia. Qed.

Lemma classify_all_classified (W H : Z) (imgFloat : list float32) :
  0 <= W -> 0 <= H ->
  classified imgFloat (W * H) (W * H) (classify_all W H imgFloat).
Proof.
  intros HW HH. unfold classify_all.
  apply (nested_range_ind (classified imgFloat (W * H))); [done|done| |].
  - split; simpl; rewrite ?length_replicate; try lia; try done.
  - intros x y acc Hx Hy Hacc. apply classify_cell_step; [|done].
    by apply cell_index_range.
Qed.

(** ** The loop that fills the output buffer *)

Lemma init_cell_step W states n x y buf :
  0 <= y * W + x < n ->
  painted states n (y * W + x) buf ->
  painted states n (y * W + x + 1) (init_cell W states x y buf).
Proof.
  intros Hi [Hlen Hs]. unfold init_cell. set (i := y * W + x) in *.
  assert (Hc : (if decide (vget states i = PIXEL_BLACK)
                then memcpy4 buf (i * 4) BLACK_RGBA
                else memcpy4 buf (i * 4) ORANGE_RGBA)
               = memcpy4 buf (i * 4) (colour_of (vget states i))).
  { unfold colour_of. by destruct (decide _). }
  rewrite Hc. assert (Hl4 : length (colour_of (vget states i)) = 4%nat).
  { unfold colour_of. by destruct (decide _). }
  split.
  - by rewrite memcpy4_length.
  - intros j Hj. destruct (decide (j = i)) as [->|Hne].
    + apply slot_memcpy4_same; [lia|done|lia].
    + rewrite slot_memcpy4_other by (done || lia). apply Hs. lia.
Qed.

Lemma init_buffer_painted (W H : Z) (states : list PixelState) :
  0 <= W -> 0 <= H ->
  painted states (W * H) (W * H) (init_buffer W H states).
Proof.
  intros HW HH. unfold init_buffer.
  apply (nested_range_ind (painted states (W * H))); [done|done| |].
  - split; [rewrite length_replicate; nia | intros; lia].
  - intros x y acc Hx Hy Hacc. apply init_cell_step; [|done].
    by apply cell_index_range.
Qed.

Lemma elem_of_uncertain_cells imgFloat n i :
  i ∈ uncertain_cells imgFloat n
  <-> 0 <= i < n /\ cell_state imgFloat i = PIXEL_AMBIGUOUS.
Proof.
  unfold uncertain_cells. rewrite list_elem_of_filter, elem_of_seqZ. intuition lia.
Qed.

Lemma uncertain_cells_sorted imgFloat n :
  StronglySorted Z.lt (uncertain_cells imgFloat n).
Proof.
  destruct (decide (0 <= n)) as [Hn|Hn].
  - apply (for_range_ind (fun k (_ : unit) => StronglySorted Z.lt (uncertain_cells imgFloat k))
             n (fun _ u => u) tt Hn).
    + unfold uncertain_cells. rewrite seqZ_nil by lia. constructor.
    + intros k _ Hk IH. rewrite uncertain_cells_succ by lia.
      apply StronglySorted_app_2; [|done|].
      * intros a b Ha Hb. apply elem_of_uncertain_cells in Ha.
        destruct (decide _); [|by apply not_elem_of_nil in Hb].
        apply list_elem_of_singleton in Hb. lia.
      * destruct (decide _); repeat constructor.
  - unfold uncertain_cells. rewrite seqZ_nil by lia. constructor.
Qed.

(** ** The engine after [loadAndPrepareImage] *)

Lemma quot_nonneg (a b : Z) : 0 <= a -> 1 <= b -> 0 <= Z.quot a b.
Proof. intros Ha Hb. apply Z.quot_pos; lia. Qed.

Lemma filter_seqZ_ext (P Q : Z -> Prop) `{!forall i, Decision (P i)}
    `{!forall i, Decision (Q i)} (n : Z) :
  (forall i, 0 <= i < n -> (P i <-> Q i)) ->
  filter P (seqZ 0 n) = filter Q (seqZ 0 n).
Proof.
  intros HPQ.
  assert (Hall : Forall (fun i => P i <-> Q i) (seqZ 0 n)).
  { apply Forall_seqZ. intros i Hi. apply HPQ. lia. }
  induction Hall as [|i l Hi _ IH]; [done|].
  rewrite !filter_cons. rewrite IH.
  destruct (decide (P i)), (decide (Q i)); tauto.
Qed.

Lemma load_ready img screenWidth screenHeight e :
  screen_ok screenWidth screenHeight e ->
  ready (loadAndPrepareImage (Some img) screenWidth screenHeight e).
Proof.
  intros (Hw & Hh & Hp). unfold loadAndPrepareImage.
  set (W := Z.quot screenWidth (g_pixelSize e)).
  set (H := Z.quot screenHeight (g_pixelSize e)).
  assert (HW : 0 <= W) by by apply quot_nonneg.
  assert (HH : 0 <= H) by by apply quot_nonneg.
  set (imgFloat := resample img W H (g_threshold e)).
  destruct (classify_all_classified W H imgFloat HW HH) as [Hsl Hpl Hs Hp' Hidx].
  destruct (init_buffer_painted W H (c_states (classify_all W H imgFloat)) HW HH)
    as [Hbl Hbs].
  split; unfold cells; simpl; try done.
  - rewrite Hidx. unfold uncertain_cells. apply filter_seqZ_ext.
    intros i Hi. by rewrite Hs.
  - intros i Hi _. by apply Hbs.
  - intros i Hi. rewrite Hbs by done. unfold colour_of. destruct (decide _); auto.
Qed.

Lemma ready_index e i :
  ready e -> i ∈ g_ambiguousIndices e ->
  0 <= i < cells e /\ vget (g_pixelStates e) i = PIXEL_AMBIGUOUS.
Proof.
  intros Hr Hi. rewrite (rd_indices e Hr) in Hi.
  apply list_elem_of_filter in Hi. rewrite elem_of_seqZ in Hi. intuition lia.
Qed.

Lemma ready_write e e' i (isOrange : bool) :
  ready e -> same_classification e e' ->
  g_scaledPixels e'
  = memcpy4 (g_scaledPixels e) (i * 4) (if isOrange then ORANGE_RGBA else BLACK_RGBA) ->
  i ∈ g_ambiguousIndices e ->
  ready e'.
Proof.
  intros Hr Hsame Hpix Hi.
  destruct (ready_index e i Hr Hi) as [Hrange Hamb].
  destruct Hsame as (_ & _ & _ & _ & _ & _ & HW & HH & Hst & _ & Hix).
  destruct Hr as [Hsl Hpl Hidx Hfix Htwo].
  assert (Hcells : cells e' = cells e) by (unfold cells; congruence).
  assert (Hl4 : length (if isOrange then ORANGE_RGBA else BLACK_RGBA) = 4%nat)
    by by destruct isOrange.
  split; rewrite ?Hcells, ?Hst, ?Hix, ?Hpix, ?memcpy4_length; try done.
  - intros j Hj Hne. rewrite slot_memcpy4_other by (done || lia || congruence).
    by apply Hfix.
  - intros j Hj. destruct (decide (j = i)) as [->|Hne].
    + rewrite slot_memcpy4_same by (done || lia). destruct isOrange; auto.
    + rewrite slot_memcpy4_other by (done || lia). by apply Htwo.
Qed.

Section FrameInvariant.
Variable sinf : float32 -> float32.

Lemma dither_cell_ready e i :
  ready e -> i ∈ g_ambiguousIndices e -> ready (dither_cell sinf e i).
Proof.
  intros Hr Hi. destruct (dither_cell_pixels sinf e i) as [b Hb].
  eapply ready_write; [done | apply dither_cell_same | done | done].
Qed.

Lemma dither_cells_ready l e :
  ready e -> l ⊆ g_ambiguousIndices e -> ready (fold_left (dither_cell sinf) l e).
Proof.
  revert e. induction l as [|i l IH]; intros e Hr Hl; simpl; [done|].
  apply IH.
  - apply dither_cell_ready; [done|]. apply Hl. by left.
  - destruct (dither_cell_same sinf e i) as (_&_&_&_&_&_&_&_&_&_&->).
    intros j Hj. apply Hl. by right.
Qed.

Lemma advance_clock_ready e : ready e -> ready (advance_clock e).
Proof. intros [? ? ? ? ?]. by split. Qed.

Lemma ditherFrame_ready e : ready e -> ready (ditherFrame sinf e).
Proof.
  intros Hr. unfold ditherFrame. destruct (g_algorithm e =? 0); [done|].
  apply advance_clock_ready. by apply dither_cells_ready.
Qed.

Lemma frames_ready n e : ready e -> ready (frames sinf n e).
Proof.
  intros Hr. induction n as [|n IH]; [done|].
  rewrite frames_S. by apply ditherFrame_ready.
Qed.

(** A cell that is not in the list of uncertain cells is never written,
    whatever its slot holds. *)
Lemma dither_cells_untouched l e j :
  Forall (fun i => 0 <= i) l -> 0 <= j -> j ∉ l ->
  slot (g_scaledPixels (fold_left (dither_cell sinf) l e)) j
  = slot (g_scaledPixels e) j.
Proof.
  intros Hl Hj. revert e. induction Hl as [|i l Hi _ IH]; intros e Hnot; simpl; [done|].
  rewrite IH by (intros ?; apply Hnot; by right).
  destruct (dither_cell_pixels sinf e i) as [b ->].
  apply slot_memcpy4_other; [done|done| |by destruct b].
  intros ->. apply Hnot. by left.
Qed.

Lemma ditherFrame_untouched e j :
  Forall (fun i => 0 <= i) (g_ambiguousIndices e) -> 0 <= j ->
  j ∉ g_ambiguousIndices e ->
  slot (g_scaledPixels (ditherFrame sinf e)) j = slot (g_scaledPixels e) j.
Proof.
  intros Hl Hj Hnot. unfold ditherFrame. destruct (g_algorithm e =? 0); [done|].
  simpl. by apply dither_cells_untouched.
Qed.
End FrameInvariant.

(** * Numerical analysis of the resampler, the classifier and the clock *)

(** ** Bounds through the operations *)

Lemma pow2f_spec (k : Z) :
  -126 <= k <= 127 -> fin32 (pow2f k) /\ B2R (pow2f k) = bpow k.
Proof.
  intros Hk. split.
  - split; [done|]. unfold pow2f. cbn -[Z.sub Z.add].
    unfold bounded, canonical_mantissa. unfold F32.prec, F32.emax.
    apply andb_true_iff. split.
    + change (digits2_pos 8388608) with 24%positive.
      rewrite fexp32_spec. unfold fexp32.
      apply Z.eqb_eq. lia.
    + apply Z.leb_le. lia.
  - unfold pow2f. rewrite B2R_finite. unfold signed, F2R.
    replace k with (23 + (k - 23)) at 2 by lia. rewrite bpow_add.
    rewrite (bpow_IZR 23) by lia. reflexivity.
Qed.

Lemma bpow_m1 : bpow (-1) = (1 / 2)%R.
Proof. unfold bpow. simpl. lra. Qed.

Lemma bpow_m2 : bpow (-2) = (1 / 4)%R.
Proof. unfold bpow. simpl. lra. Qed.

Lemma bpow_m7 : bpow (-7) = (1 / 128)%R.
Proof. unfold bpow. simpl. lra. Qed.

Lemma eps_small : (0 < bpow (-23) <= 1 / 128)%R.
Proof.
  split; [apply bpow_gt_0|]. rewrite <- bpow_m7. apply bpow_le. lia.
Qed.

Lemma eta_small : (0 < bpow (-149) <= 1 / 128)%R.
Proof.
  split; [apply bpow_gt_0|]. rewrite <- bpow_m7. apply bpow_le. lia.
Qed.

Lemma within_le (j k : Z) (x : float32) : j <= k -> within j x -> within k x.
Proof.
  intros Hjk [Hx Hb]. split; [done|].
  eapply Rle_trans; [exact Hb|]. by apply bpow_le.
Qed.

Lemma rounds_mono_within (v : R) (r : float32) (k : Z) :
  rounds_mono v r -> -126 <= k <= 127 -> (Rabs v <= bpow k)%R -> within k r.
Proof.
  intros Hr Hk Hv. destruct (pow2f_spec k Hk) as [Hf Hb].
  apply Rabs_le_inv in Hv. split; [apply Hr|].
  apply Rabs_le. split.
  - pose proof (rnd_below _ _ Hr (SFopp (pow2f k)) (fin32_opp _ Hf)) as H.
    rewrite B2R_opp, Hb in H. apply H. lra.
  - pose proof (rnd_above _ _ Hr (pow2f k) Hf) as H. rewrite Hb in H. apply H. lra.
Qed.

Lemma rounds_mono_nonneg (v : R) (r : float32) :
  rounds_mono v r -> (0 <= v)%R -> (0 <= B2R r)%R.
Proof. intros Hr. apply (rounds_nonneg _ _ (rnd_rounds _ _ Hr)). Qed.

Lemma rounds_mono_nonpos (v : R) (r : float32) :
  rounds_mono v r -> (v <= 0)%R -> (B2R r <= 0)%R.
Proof. intros Hr. apply (rounds_nonpos _ _ (rnd_rounds _ _ Hr)). Qed.

Lemma rounds_mono_ge_bpow (v : R) (r : float32) (k : Z) :
  rounds_mono v r -> -126 <= k <= 127 -> (bpow k <= v)%R -> (bpow k <= B2R r)%R.
Proof.
  intros Hr Hk Hv. destruct (pow2f_spec k Hk) as [Hf Hb].
  rewrite <- Hb. apply (rnd_below _ _ Hr); [done|]. by rewrite Hb.
Qed.

Lemma rounds_mono_le_bpow (v : R) (r : float32) (k : Z) :
  rounds_mono v r -> -126 <= k <= 127 -> (v <= bpow k)%R -> (B2R r <= bpow k)%R.
Proof.
  intros Hr Hk Hv. destruct (pow2f_spec k Hk) as [Hf Hb].
  rewrite <- Hb. apply (rnd_above _ _ Hr); [done|]. by rewrite Hb.
Qed.

Lemma rounds_mono_le_opp_bpow (v : R) (r : float32) (k : Z) :
  rounds_mono v r -> -126 <= k <= 127 -> (v <= - bpow k)%R -> (B2R r <= - bpow k)%R.
Proof.
  intros Hr Hk Hv. destruct (pow2f_spec k Hk) as [Hf Hb].
  rewrite <- Hb, <- B2R_opp. apply (rnd_above _ _ Hr); [by apply fin32_opp|].
  by rewrite B2R_opp, Hb.
Qed.

Lemma mul_within (j k : Z) (x y : float32) :
  within j x -> within k y -> -126 <= j + k <= 126 ->
  rounds_mono (B2R x * B2R y) (x * y)%f32 /\ within (j + k) (x * y)%f32.
Proof.
  intros [Hx Bx] [Hy By] Hjk.
  assert (Hb : (Rabs (B2R x * B2R y) <= bpow (j + k))%R).
  { rewrite Rabs_mult, bpow_add. apply Rmult_le_compat; auto using Rabs_pos. }
  assert (Hr : rounds_mono (B2R x * B2R y) (x * y)%f32).
  { apply mul_mono; [done..|]. eapply Rle_lt_trans; [exact Hb|]. apply bpow_lt. lia. }
  split; [done|]. apply (rounds_mono_within _ _ _ Hr); [lia|done].
Qed.

Lemma add_within (k : Z) (x y : float32) :
  within k x -> within k y -> -127 <= k <= 125 ->
  rounds_mono (B2R x + B2R y) (x + y)%f32 /\ within (k + 1) (x + y)%f32.
Proof.
  intros [Hx Bx] [Hy By] Hk.
  assert (Hb : (Rabs (B2R x + B2R y) <= bpow (k + 1))%R).
  { rewrite bpow_add, bpow_1. pose proof (Rabs_triang (B2R x) (B2R y)). lra. }
  assert (Hr : rounds_mono (B2R x + B2R y) (x + y)%f32).
  { apply add_mono; [done..|]. eapply Rle_lt_trans; [exact Hb|]. apply bpow_lt. lia. }
  split; [done|]. apply (rounds_mono_within _ _ _ Hr); [lia|done].
Qed.

Lemma sub_within (k : Z) (x y : float32) :
  within k x -> within k y -> -127 <= k <= 125 ->
  rounds_mono (B2R x - B2R y) (x - y)%f32 /\ within (k + 1) (x - y)%f32.
Proof.
  intros [Hx Bx] [Hy By] Hk.
  assert (Hb : (Rabs (B2R x - B2R y) <= bpow (k + 1))%R).
  { rewrite bpow_add, bpow_1. pose proof (Rabs_triang (B2R x) (- B2R y)) as H.
    rewrite Rabs_Ropp in H. unfold Rminus. lra. }
  assert (Hr : rounds_mono (B2R x - B2R y) (x - y)%f32).
  { apply sub_mono; [done..|]. eapply Rle_lt_trans; [exact Hb|]. apply bpow_lt. lia. }
  split; [done|]. apply (rounds_mono_within _ _ _ Hr); [lia|done].
Qed.

Lemma sqrt_within (k : Z) (x : float32) :
  within (2 * k) x -> (0 <= B2R x)%R -> -126 <= k <= 126 ->
  rounds (sqrt (B2R x)) (sqrtf x)
  /\ within (k + 1) (sqrtf x) /\ (0 <= B2R (sqrtf x))%R.
Proof.
  intros [Hx Bx] Hpos Hk.
  pose proof (sqrt_spec x Hx Hpos) as Hr.
  assert (H0 : (0 <= B2R (sqrtf x))%R) by (apply (rounds_nonneg _ _ Hr), sqrt_pos).
  split; [done|]. split; [|done]. split; [apply Hr|].
  rewrite Rabs_pos_eq in Bx by done.
  apply sqrt_le_1_alt in Bx. rewrite sqrt_bpow in Bx.
  pose proof (rounds_close _ _ Hr) as Hc. unfold close in Hc.
  pose proof (sqrt_pos (B2R x)) as Hs.
  rewrite (Rabs_pos_eq (sqrt _)) in Hc by done.
  apply Rabs_le_inv in Hc.
  rewrite Rabs_pos_eq by done.
  pose proof eps_small as He.
  assert (Hh : (bpow (-149) <= bpow k / 2)%R).
  { replace (bpow k / 2)%R with (bpow (k + -1)).
    - apply bpow_le. lia.
    - rewrite bpow_add, bpow_m1. lra. }
  rewrite bpow_add, bpow_1.
  pose proof (bpow_gt_0 k). nra.
Qed.

Lemma square_within (k : Z) (x : float32) :
  within k x -> -63 <= k <= 63 ->
  within (2 * k) (x * x)%f32 /\ (0 <= B2R (x * x)%f32)%R
  /\ ((1 / 2 <= Rabs (B2R x))%R -> (1 / 4 <= B2R (x * x)%f32)%R).
Proof.
  intros Hx Hk. destruct (mul_within k k x x Hx Hx) as [Hr Hw]; [lia|].
  replace (k + k) with (2 * k) in Hw by lia.
  split; [done|]. split.
  - apply (rounds_mono_nonneg _ _ Hr). nra.
  - intros Hhalf. rewrite <- bpow_m2. apply (rounds_mono_ge_bpow _ _ _ Hr); [lia|].
    rewrite bpow_m2. destruct (Rcase_abs (B2R x)) as [Hn|Hp].
    + rewrite Rabs_left in Hhalf by done. nra.
    + rewrite Rabs_right in Hhalf by done. nra.
Qed.

Lemma sum3_within (k : Z) (a b c : float32) :
  within k a -> within k b -> within k c ->
  (0 <= B2R a)%R -> (0 <= B2R b)%R -> (0 <= B2R c)%R -> -127 <= k <= 124 ->
  within (k + 2) (a + b + c)%f32 /\ (0 <= B2R (a + b + c)%f32)%R
  /\ (forall t, fin32 t -> (B2R t <= B2R a \/ B2R t <= B2R b \/ B2R t <= B2R c)%R ->
                (B2R t <= B2R (a + b + c)%f32)%R).
Proof.
  intros Ha Hb Hc Pa Pb Pc Hk.
  destruct (add_within k a b Ha Hb) as [Hr1 Hw1]; [lia|].
  assert (P1 : (0 <= B2R (a + b)%f32)%R) by (apply (rounds_mono_nonneg _ _ Hr1); lra).
  destruct (add_within (k + 1) (a + b)%f32 c Hw1) as [Hr2 Hw2];
    [by apply (within_le k); [lia|] | lia |].
  replace (k + 1 + 1) with (k + 2) in Hw2 by lia.
  split; [done|]. split.
  - apply (rounds_mono_nonneg _ _ Hr2). lra.
  - intros t Ht Hle.
    apply (rnd_below _ _ Hr2); [done|].
    destruct Hle as [Hle|[Hle|Hle]]; [| |lra].
    + assert (B2R t <= B2R (a + b)%f32)%R by (apply (rnd_below _ _ Hr1); [done|lra]). lra.
    + assert (B2R t <= B2R (a + b)%f32)%R by (apply (rnd_below _ _ Hr1); [done|lra]). lra.
Qed.

Lemma sqrtf_quarter (x : float32) :
  fin32 x -> (1 / 4 <= B2R x)%R -> (12 / 25 <= B2R (sqrtf x))%R.
Proof.
  intros Hx Hq.
  assert (Hpos : (0 <= B2R x)%R) by lra.
  pose proof (sqrt_spec x Hx Hpos) as Hr.
  assert (Hs : (1 / 2 <= sqrt (B2R x))%R).
  { replace (1 / 2)%R with (sqrt ((1 / 2) * (1 / 2))) by (rewrite sqrt_square; lra).
    apply sqrt_le_1_alt. lra. }
  pose proof (rounds_close _ _ Hr) as Hc. unfold close in Hc.
  rewrite (Rabs_pos_eq (sqrt _)) in Hc by lra.
  apply Rabs_le_inv in Hc.
  pose proof eps_small. pose proof eta_small. nra.
Qed.

Lemma within_check (k : Z) (x : float32) :
  -126 <= k <= 127 -> fin32 x ->
  (x <=? pow2f k)%f32 = true -> (SFopp (pow2f k) <=? x)%f32 = true -> within k x.
Proof.
  intros Hk Hx Hle Hge. destruct (pow2f_spec k Hk) as [Hf Hb].
  apply leb_iff in Hle; [|done..]. apply leb_iff in Hge; [|by apply fin32_opp|done].
  rewrite B2R_opp in Hge. rewrite Hb in *.
  split; [done|]. apply Rabs_le. lra.
Qed.

Lemma within_one : within 0 one.
Proof. by apply within_check; [lia|split|..]. Qed.

Lemma within_c0_549 : within 0 c0_549.
Proof. by apply within_check; [lia|split|..]. Qed.

(** ** The distances of the classifier *)

Section Distances.
Variables r g b : float32.
Hypothesis Hr : within 40 r.
Hypothesis Hg : within 40 g.
Hypothesis Hb : within 40 b.

Lemma distBlack_within :
  within 42 (distBlack r g b) /\ (0 <= B2R (distBlack r g b))%R
  /\ ((1 / 2 <= Rabs (B2R r))%R -> (12 / 25 <= B2R (distBlack r g b))%R).
Proof.
  destruct (square_within 40 r Hr) as (Wr & Pr & Qr); [lia|].
  destruct (square_within 40 g Hg) as (Wg & Pg & _); [lia|].
  destruct (square_within 40 b Hb) as (Wb & Pb & _); [lia|].
  destruct (sum3_within 80 _ _ _ Wr Wg Wb Pr Pg Pb) as (Ws & Ps & Qs); [lia|].
  destruct (sqrt_within 41 _ Ws Ps) as (_ & Wd & Pd); [lia|].
  split; [done|]. split; [done|].
  intros Hhalf. apply sqrtf_quarter; [apply Ws|].
  destruct (pow2f_spec (-2)) as [Hf Hv]; [lia|]. rewrite bpow_m2 in Hv.
  rewrite <- Hv. apply Qs; [done|]. left. rewrite Hv. by apply Qr.
Qed.

Lemma distOrange_within :
  within 43 (distOrange r g b) /\ (0 <= B2R (distOrange r g b))%R
  /\ ((B2R r <= 1 / 2)%R -> (12 / 25 <= B2R (distOrange r g b))%R).
Proof.
  destruct (sub_within 40 r one Hr) as [Rr Wr1];
    [by apply (within_le 0); [lia|apply within_one] | lia |].
  destruct (sub_within 40 g c0_549 Hg) as [Rg Wg1];
    [by apply (within_le 0); [lia|apply within_c0_549] | lia |].
  destruct (square_within 41 _ Wr1) as (Wr & Pr & Qr); [lia|].
  destruct (square_within 41 _ Wg1) as (Wg & Pg & _); [lia|].
  destruct (square_within 40 b Hb) as (Wb & Pb & _); [lia|].
  apply (within_le _ 82) in Wb; [|lia].
  destruct (sum3_within 82 _ _ _ Wr Wg Wb Pr Pg Pb) as (Ws & Ps & Qs); [lia|].
  destruct (sqrt_within 42 _ Ws Ps) as (_ & Wd & Pd); [lia|].
  split; [done|]. split; [done|].
  intros Hhalf. apply sqrtf_quarter; [apply Ws|].
  destruct (pow2f_spec (-2)) as [Hf Hv]; [lia|]. rewrite bpow_m2 in Hv.
  rewrite <- Hv. apply Qs; [done|]. left. rewrite Hv. apply Qr.
  assert (H1 : B2R one = 1%R) by (apply (of_int_exact 1); simpl; lia).
  rewrite H1 in Rr.
  pose proof (rounds_mono_le_opp_bpow _ _ (-1) Rr) as Hle.
  rewrite bpow_m1 in Hle.
  assert (B2R (r - one)%f32 <= - (1 / 2))%R by (apply Hle; [lia|lra]).
  rewrite Rabs_left1; lra.
Qed.

Lemma totalDist_within :
  within 44 (totalDist r g b) /\ (1 / 4 <= B2R (totalDist r g b))%R
  /\ (B2R (distBlack r g b) <= B2R (totalDist r g b))%R.
Proof.
  destruct distBlack_within as (Wb & Pb & Qb).
  destruct distOrange_within as (Wo & Po & Qo).
  apply (within_le _ 43) in Wb; [|lia].
  destruct (add_within 43 _ _ Wb Wo) as [Ra Wa]; [lia|].
  split; [done|]. split.
  - rewrite <- bpow_m2. apply (rounds_mono_ge_bpow _ _ _ Ra); [lia|]. rewrite bpow_m2.
    destruct (Rle_or_lt (B2R r) (1 / 2)) as [Hle|Hgt].
    + specialize (Qo Hle). lra.
    + assert (12 / 25 <= B2R (distBlack r g b))%R; [|lra].
      apply Qb. rewrite Rabs_pos_eq; lra.
  - apply (rnd_below _ _ Ra); [apply Wb|]. lra.
Qed.

Lemma totalDist_above_guard : (totalDist r g b >? c0_001)%f32 = true.
Proof.
  destruct totalDist_within as ([Ht _] & Hq & _).
  apply gtb_iff; [done | by split |].
  destruct (pow2f_spec (-2)) as [Hf Hv]; [lia|]. rewrite bpow_m2 in Hv.
  assert (Hlt : (c0_001 <? pow2f (-2))%f32 = true) by reflexivity.
  apply ltb_iff in Hlt; [|by split|done]. lra.
Qed.

Lemma orangeProb_ratio :
  orangeProb r g b = (distBlack r g b / totalDist r g b)%f32.
Proof. unfold orangeProb. by rewrite totalDist_above_guard. Qed.

Lemma orangeProb_fin :
  rounds (B2R (distBlack r g b) / B2R (totalDist r g b)) (orangeProb r g b)
  /\ (0 <= B2R (distBlack r g b) / B2R (totalDist r g b) <= 1)%R.
Proof.
  rewrite orangeProb_ratio.
  destruct distBlack_within as ([Fb Wb] & Pb & _).
  destruct totalDist_within as ([Ft Wt] & Hq & Hle).
  assert (Hdiv : (0 <= B2R (distBlack r g b) / B2R (totalDist r g b) <= 1)%R).
  { split.
    - apply Rmult_le_pos; [done|]. apply Rlt_le, Rinv_0_lt_compat. lra.
    - apply (Rmult_le_reg_r (B2R (totalDist r g b))); [lra|].
      unfold Rdiv. rewrite Rmult_assoc, Rinv_l by lra. lra. }
  split; [|done].
  apply div_spec; [done..|lra|].
  rewrite Rabs_pos_eq by lra.
  eapply Rle_lt_trans; [apply Hdiv|]. rewrite <- bpow_0. apply bpow_lt. lia.
Qed.
End Distances.

(** ** Inequalities over the reals *)

Section RealBounds.
Local Open Scope R_scope.

Lemma term_bound (T a b p t e n : R) :
  0 <= T -> 0 <= a -> 0 <= b <= 1 -> 0 <= e <= 1 -> 0 <= n ->
  p <= T * a * (1 + e) + n -> 0 <= p ->
  t <= p * b * (1 + e) + n ->
  t <= T * a * b * ((1 + e) * (1 + e)) + 3 * n.
Proof.
  intros HT Ha Hb He Hn Hp Hp0 Ht.
  assert (H1 : p * b <= (T * a * (1 + e) + n) * b) by (apply Rmult_le_compat_r; [lra|exact Hp]).
  assert (H2 : p * b * (1 + e) <= (T * a * (1 + e) + n) * b * (1 + e))
    by (apply Rmult_le_compat_r; [lra|exact H1]).
  assert (H3 : n * b <= n) by nra.
  assert (H4 : n * b * (1 + e) <= n * 2) by (apply Rmult_le_compat; nra).
  nra.
Qed.

Lemma partition_bound (T00 T01 T10 T11 a a' b b' u : R) :
  0 <= T00 <= 255 -> 0 <= T01 <= 255 -> 0 <= T10 <= 255 -> 0 <= T11 <= 255 ->
  0 <= a -> 0 <= a' -> 0 <= b -> 0 <= b' ->
  a + a' <= u -> b + b' <= u ->
  T00 * a' * b' + T01 * a * b' + T10 * a' * b + T11 * a * b <= 255 * (u * u).
Proof.
  intros H00 H01 H10 H11 Ha Ha' Hb Hb' Hu Hv.
  assert (0 <= a' * b') by nra. assert (0 <= a * b') by nra.
  assert (0 <= a' * b) by nra. assert (0 <= a * b) by nra.
  assert (T00 * a' * b' <= 255 * (a' * b')) by nra.
  assert (T01 * a * b' <= 255 * (a * b')) by nra.
  assert (T10 * a' * b <= 255 * (a' * b)) by nra.
  assert (T11 * a * b <= 255 * (a * b)) by nra.
  assert ((a + a') * (b + b') <= u * u) by (apply Rmult_le_compat; lra).
  nra.
Qed.

Lemma channel_bound (P t00 t01 t10 t11 s1 s2 s3 ch n : R) :
  let e := 1 / 8388608 in
  let u := 1 + e + 1 / 1152921504606846976 in
  0 <= n <= 1 / 1152921504606846976 ->
  P <= 255 * (u * u) ->
  t00 + t01 + t10 + t11 <= P * ((1 + e) * (1 + e)) + 12 * n ->
  s1 <= (t00 + t01) * (1 + e) + n ->
  s2 <= (s1 + t10) * (1 + e) + n ->
  s3 <= (s2 + t11) * (1 + e) + n ->
  0 <= t10 -> 0 <= t11 ->
  ch <= s3 / 255 * (1 + e) + n ->
  ch <= 1 + 1 / 524288.
Proof.
  intros e u Hn HP Ht H1 H2 H3 P10 P11 Hc. subst u e.
  lra.
Qed.
End RealBounds.

(** ** One rounding, with numbers *)

Lemma bpow_m23 : bpow (-23) = (1 / 8388608)%R.
Proof. unfold bpow. simpl. lra. Qed.

Lemma eta_tiny : (0 < bpow (-149) <= 1 / 1152921504606846976)%R.
Proof.
  split; [apply bpow_gt_0|].
  apply (Rle_trans _ (bpow (-60))); [apply bpow_le; lia|].
  unfold bpow. simpl. lra.
Qed.

Lemma rounds_upper (v : R) (r : float32) :
  rounds v r -> (0 <= v)%R ->
  (0 <= B2R r <= v * (1 + 1 / 8388608) + bpow (-149))%R.
Proof.
  intros Hr Hv. pose proof (rounds_close _ _ Hr) as Hc. unfold close in Hc.
  rewrite bpow_m23, (Rabs_pos_eq v) in Hc by done. apply Rabs_le_inv in Hc.
  split; [by apply (rounds_nonneg _ _ Hr)|lra].
Qed.

Lemma IZR_lt_bpow127 (n : Z) : Z.abs n <= 2 ^ 24 -> (Rabs (IZR n) < bpow 127)%R.
Proof.
  intros Hn. rewrite <- abs_IZR.
  apply (Rle_lt_trans _ (bpow 24)); [|apply bpow_lt; lia].
  rewrite (bpow_IZR 24) by lia. by apply IZR_le.
Qed.

Lemma ranged_of_int (n : Z) : 0 <= n <= 2 ^ 24 -> ranged n (of_int n) /\ B2R (of_int n) = IZR n.
Proof.
  intros Hn. destruct (of_int_exact n) as [Hf Hv]; [lia|].
  split; [|done]. split; [done|]. rewrite Hv. split; [apply IZR_le; lia|lra].
Qed.

Lemma ranged_le (M N : Z) (x : float32) : M <= N -> ranged M x -> ranged N x.
Proof.
  intros HMN (Hx & H0 & HM). split; [done|]. split; [done|].
  apply Rle_trans with (IZR M); [done|]. by apply IZR_le.
Qed.

Lemma rounds_mono_ranged (v : R) (r : float32) (M : Z) :
  rounds_mono v r -> 0 <= M <= 2 ^ 24 -> (0 <= v <= IZR M)%R -> ranged M r.
Proof.
  intros Hr HM Hv. destruct (ranged_of_int M HM) as [[Hf _] Hb].
  split; [apply Hr|]. split.
  - apply (rounds_mono_nonneg _ _ Hr). lra.
  - rewrite <- Hb. apply (rnd_above _ _ Hr); [done|]. rewrite Hb. lra.
Qed.

Lemma add_ranged (M N : Z) (x y : float32) :
  ranged M x -> ranged N y -> 0 <= M -> 0 <= N -> M + N <= 2 ^ 24 ->
  ranged (M + N) (x + y)%f32
  /\ (B2R (x + y)%f32 <= (B2R x + B2R y) * (1 + 1 / 8388608) + bpow (-149))%R.
Proof.
  intros (Hx & X0 & XM) (Hy & Y0 & YN) HM HN HMN.
  assert (Hv : (0 <= B2R x + B2R y <= IZR (M + N))%R) by (rewrite plus_IZR; lra).
  assert (Hr : rounds_mono (B2R x + B2R y) (x + y)%f32).
  { apply add_mono; [done..|]. rewrite Rabs_pos_eq by lra.
    apply (Rle_lt_trans _ (IZR (M + N))); [lra|].
    rewrite <- (Rabs_pos_eq (IZR (M + N))) by (apply IZR_le; lia).
    apply IZR_lt_bpow127. lia. }
  split; [apply (rounds_mono_ranged _ _ _ Hr); [lia|done]|].
  apply (rounds_upper _ _ (rnd_rounds _ _ Hr)). lra.
Qed.

Lemma mul_ranged (M N : Z) (x y : float32) :
  ranged M x -> ranged N y -> 0 <= M -> 0 <= N -> M * N <= 2 ^ 24 ->
  ranged (M * N) (x * y)%f32
  /\ (B2R (x * y)%f32 <= B2R x * B2R y * (1 + 1 / 8388608) + bpow (-149))%R.
Proof.
  intros (Hx & X0 & XM) (Hy & Y0 & YN) HM HN HMN.
  assert (Hv : (0 <= B2R x * B2R y <= IZR (M * N))%R).
  { rewrite mult_IZR. split; [by apply Rmult_le_pos|]. apply Rmult_le_compat; lra. }
  assert (Hr : rounds_mono (B2R x * B2R y) (x * y)%f32).
  { apply mul_mono; [done..|]. rewrite Rabs_pos_eq by lra.
    apply (Rle_lt_trans _ (IZR (M * N))); [lra|].
    rewrite <- (Rabs_pos_eq (IZR (M * N))) by (apply IZR_le; nia).
    apply IZR_lt_bpow127. nia. }
  split; [apply (rounds_mono_ranged _ _ _ Hr); [nia|done]|].
  apply (rounds_upper _ _ (rnd_rounds _ _ Hr)). lra.
Qed.

(** ** The resampler *)

Lemma B2R_one : B2R one = 1%R.
Proof. apply (of_int_exact 1). simpl. lia. Qed.

Lemma fin32_one : fin32 one.
Proof. by split. Qed.

Lemma ranged_one : ranged 1 one.
Proof. split; [apply fin32_one|]. rewrite B2R_one. lra. Qed.

Lemma ranged_c255 : ranged 255 c255 /\ B2R c255 = 255%R.
Proof. apply (ranged_of_int 255). simpl. lia. Qed.

(** [i / target], for an index of the target grid. *)
Lemma fraction_spec (i target : Z) :
  0 <= i < target -> target <= 16384 ->
  fin32 (of_int i / of_int target)%f32
  /\ (0 <= B2R (of_int i / of_int target)%f32 <= 1 - 1 / 32768)%R.
Proof.
  intros Hi Ht.
  destruct (of_int_exact i) as [Fi Vi]; [simpl; lia|].
  destruct (of_int_exact target) as [Ft Vt]; [simpl; lia|].
  assert (Hd : (1 <= IZR target <= 16384)%R) by (split; apply IZR_le; lia).
  assert (Hn : (0 <= IZR i <= IZR target - 1)%R).
  { split; [apply IZR_le; lia|]. rewrite <- minus_IZR. apply IZR_le. lia. }
  assert (Hinv : (1 / 16384 <= / IZR target <= 1)%R).
  { split.
    - replace (1 / 16384)%R with (/ 16384)%R by lra.
      apply Rinv_le_contravar; lra.
    - rewrite <- Rinv_1. apply Rinv_le_contravar; lra. }
  assert (Hq : (0 <= IZR i / IZR target <= 1 - 1 / 16384)%R).
  { unfold Rdiv. split; [apply Rmult_le_pos; lra|].
    apply (Rle_trans _ ((IZR target - 1) * / IZR target)).
    - apply Rmult_le_compat_r; lra.
    - rewrite Rmult_minus_distr_r, Rinv_r by lra. lra. }
  assert (Hr : rounds (IZR i / IZR target) (of_int i / of_int target)%f32).
  { rewrite <- Vi, <- Vt. apply div_spec; [done..| rewrite Vt; lra |].
    rewrite Vi, Vt, Rabs_pos_eq by lra.
    apply (Rle_lt_trans _ 1); [lra|]. rewrite <- bpow_0. apply bpow_lt. lia. }
  split; [apply Hr|].
  pose proof (rounds_upper _ _ Hr (proj1 Hq)) as Hu.
  pose proof eta_tiny. lra.
Qed.

(** The source coordinate lies within the source raster. *)
Lemma source_coord_spec (i target size : Z) :
  0 <= i < target -> target <= 16384 -> 1 <= size <= 16384 ->
  fin32 (source_coord i target size)
  /\ (0 <= B2R (source_coord i target size) < IZR size)%R.
Proof.
  intros Hi Ht Hs. unfold source_coord.
  destruct (fraction_spec i target Hi Ht) as (Fq & Q0 & Q1).
  destruct (of_int_exact size) as [Fs Vs]; [simpl; lia|].
  assert (HS : (1 <= IZR size <= 16384)%R) by (split; apply IZR_le; lia).
  set (q := (of_int i / of_int target)%f32) in *.
  assert (Hv : (0 <= B2R q * B2R (of_int size) <= (1 - 1 / 32768) * IZR size)%R).
  { rewrite Vs. split; [apply Rmult_le_pos; lra|]. apply Rmult_le_compat_r; lra. }
  assert (Hr : rounds_mono (B2R q * B2R (of_int size)) (q * of_int size)%f32).
  { apply mul_mono; [done..|]. rewrite Rabs_pos_eq by lra.
    apply (Rle_lt_trans _ (bpow 14)); [|apply bpow_lt; lia].
    rewrite (bpow_IZR 14) by lia. simpl (2 ^ 14). lra. }
  split; [apply Hr|].
  pose proof (rounds_upper _ _ (rnd_rounds _ _ Hr) (proj1 Hv)) as Hu.
  pose proof eta_tiny. lra.
Qed.

(** The truncated coordinate is an index of the source raster. *)
Lemma floor_index (p : float32) (size : Z) :
  fin32 p -> (0 <= B2R p < IZR size)%R ->
  0 <= to_int p <= size - 1
  /\ (IZR (to_int p) <= B2R p < IZR (to_int p) + 1)%R.
Proof.
  intros Hp [H0 Hs]. destruct (to_int_spec p Hp H0) as [Hx Hfl].
  split; [|done]. split; [done|].
  assert (IZR (to_int p) < IZR size)%R by lra.
  apply lt_IZR in H. lia.
Qed.

(** The weights of the interpolation. *)
Lemma weight_spec (p : float32) (x0 : Z) :
  fin32 p -> 0 <= x0 <= 16384 -> (IZR x0 <= B2R p < IZR x0 + 1)%R ->
  ranged 1 (p - of_int x0)%f32.
Proof.
  intros Hp Hx Hfl.
  destruct (of_int_exact x0) as [Fx Vx]; [simpl; lia|].
  assert (Hr : rounds_mono (B2R p - B2R (of_int x0)) (p - of_int x0)%f32).
  { apply sub_mono; [done..|]. rewrite Vx, Rabs_pos_eq by lra.
    apply (Rle_lt_trans _ 1); [lra|]. rewrite <- bpow_0. apply bpow_lt. lia. }
  apply (rounds_mono_ranged _ _ _ Hr); [simpl; lia|]. rewrite Vx. simpl. lra.
Qed.

Lemma complement_spec (a : float32) :
  ranged 1 a ->
  ranged 1 (one - a)%f32
  /\ (B2R a + B2R (one - a)%f32 <= 1 + 1 / 8388608 + bpow (-149))%R.
Proof.
  intros (Ha & A0 & A1). simpl in A1.
  assert (Hr : rounds_mono (B2R one - B2R a) (one - a)%f32).
  { apply sub_mono; [apply fin32_one|done|]. rewrite B2R_one, Rabs_pos_eq by lra.
    apply (Rle_lt_trans _ 1); [lra|]. rewrite <- bpow_0. apply bpow_lt. lia. }
  rewrite B2R_one in Hr.
  split; [apply (rounds_mono_ranged _ _ _ Hr); [simpl; lia|simpl; lra]|].
  assert (Hv : (0 <= 1 - B2R a)%R) by lra.
  pose proof (rounds_upper _ _ (rnd_rounds _ _ Hr) Hv). lra.
Qed.

Lemma texel_spec (img : Image) (idx : Z) :
  image_ok img -> ranged 255 (texel img idx).
Proof.
  intros (_ & _ & Hdata). unfold texel, vget.
  assert (Hv : 0 <= img_data img !!! Z.to_nat idx <= 255).
  { rewrite list_lookup_total_alt.
    destruct (img_data img !! Z.to_nat idx) as [v|] eqn:Hl; simpl.
    - by apply (Forall_lookup_1 _ _ _ _ Hdata Hl).
    - vm_compute. split; discriminate. }
  set (v := img_data img !!! Z.to_nat idx) in *.
  apply (ranged_le v 255); [lia|]. apply ranged_of_int. simpl. lia.
Qed.

(** One term of the interpolation: a texel times two weights. *)
Lemma term_spec (T a b : float32) :
  ranged 255 T -> ranged 1 a -> ranged 1 b ->
  ranged 255 (T * a * b)%f32
  /\ (B2R (T * a * b)%f32
      <= B2R T * B2R a * B2R b * ((1 + 1 / 8388608) * (1 + 1 / 8388608))
         + 3 * bpow (-149))%R.
Proof.
  intros HT Ha Hb.
  destruct (mul_ranged 255 1 T a HT Ha) as [Rp Up]; [simpl; lia..|].
  destruct (mul_ranged (255 * 1) 1 (T * a)%f32 b Rp Hb) as [Rt Ut]; [simpl; lia..|].
  change (255 * 1 * 1) with 255 in Rt. split; [done|].
  destruct HT as (_ & T0 & _). destruct Ha as (_ & A0 & _). destruct Hb as (_ & B0 & B1).
  destruct Rp as (_ & P0 & _). simpl in B1.
  pose proof eta_tiny.
  apply (term_bound (B2R T) (B2R a) (B2R b) (B2R (T * a)%f32)); try lra.
Qed.

(** The four terms, their sum and the division by 255. *)
Lemma interpolation_spec (T00 T01 T10 T11 fx fy : float32) :
  ranged 255 T00 -> ranged 255 T01 -> ranged 255 T10 -> ranged 255 T11 ->
  ranged 1 fx -> ranged 1 fy ->
  let ch := ((T00 * (one - fx) * (one - fy) + T01 * fx * (one - fy)
              + T10 * (one - fx) * fy + T11 * fx * fy) / c255)%f32 in
  fin32 ch /\ (0 <= B2R ch <= 1 + 1 / 524288)%R.
Proof.
  intros H00 H01 H10 H11 Hfx Hfy ch.
  destruct (complement_spec fx Hfx) as [Hgx Sx].
  destruct (complement_spec fy Hfy) as [Hgy Sy].
  destruct (term_spec T00 _ _ H00 Hgx Hgy) as [R00 U00].
  destruct (term_spec T01 _ _ H01 Hfx Hgy) as [R01 U01].
  destruct (term_spec T10 _ _ H10 Hgx Hfy) as [R10 U10].
  destruct (term_spec T11 _ _ H11 Hfx Hfy) as [R11 U11].
  destruct (add_ranged 255 255 _ _ R00 R01) as [R1 U1]; [simpl; lia..|].
  destruct (add_ranged (255 + 255) 255 _ _ R1 R10) as [R2 U2]; [simpl; lia..|].
  destruct (add_ranged (255 + 255 + 255) 255 _ _ R2 R11) as [R3 U3]; [simpl; lia..|].
  set (t00 := (T00 * (one - fx) * (one - fy))%f32) in *.
  set (t01 := (T01 * fx * (one - fy))%f32) in *.
  set (t10 := (T10 * (one - fx) * fy)%f32) in *.
  set (t11 := (T11 * fx * fy)%f32) in *.
  set (s3 := (t00 + t01 + t10 + t11)%f32) in *.
  destruct ranged_c255 as [[Fc _] Vc].
  destruct R3 as (F3 & P3 & B3). change (255 + 255 + 255 + 255) with 1020 in B3.
  assert (Hq : (0 <= B2R s3 / B2R c255 <= 4)%R) by (rewrite Vc; lra).
  assert (Hr : rounds (B2R s3 / B2R c255) ch).
  { apply div_spec; [done..| rewrite Vc; lra |]. rewrite Rabs_pos_eq by lra.
    apply (Rle_lt_trans _ (bpow 2)); [|apply bpow_lt; lia].
    rewrite (bpow_IZR 2) by lia. simpl (2 ^ 2). lra. }
  split; [apply Hr|].
  pose proof (rounds_upper _ _ Hr (proj1 Hq)) as [C0 CU]. split; [done|].
  rewrite Vc in CU.
  destruct H00 as (_ & ? & ?), H01 as (_ & ? & ?), H10 as (_ & ? & ?), H11 as (_ & ? & ?).
  destruct Hfx as (_ & ? & _), Hfy as (_ & ? & _), Hgx as (_ & ? & _), Hgy as (_ & ? & _).
  destruct R10 as (_ & ? & _), R11 as (_ & ? & _).
  pose proof eta_tiny as Heta.
  pose proof (partition_bound (B2R T00) (B2R T01) (B2R T10) (B2R T11)
                (B2R fx) (B2R (one - fx)%f32) (B2R fy) (B2R (one - fy)%f32)
                (1 + 1 / 8388608 + 1 / 1152921504606846976)) as HP.
  apply (channel_bound
           (B2R T00 * B2R (one - fx)%f32 * B2R (one - fy)%f32
            + B2R T01 * B2R fx * B2R (one - fy)%f32
            + B2R T10 * B2R (one - fx)%f32 * B2R fy
            + B2R T11 * B2R fx * B2R fy)%R (B2R t00) (B2R t01) (B2R t10) (B2R t11)
           (B2R (t00 + t01)%f32) (B2R (t00 + t01 + t10)%f32) (B2R s3) _ (bpow (-149)));
    [lra | apply HP; lra | lra | lra | lra | lra | lra | lra | lra].
Qed.

Lemma clamped_next_eq (i size : Z) :
  0 <= i <= size - 1 ->
  (if i + 1 <? size then i + 1 else i) = clamped_next i size.
Proof.
  intros Hi. unfold clamped_next. destruct (Z.ltb_spec (i + 1) size); lia.
Qed.

Lemma bilinear_spec (img : Image) (srcX srcY : float32) (c : Z) :
  image_ok img ->
  fin32 srcX -> (0 <= B2R srcX < IZR (origWidth img))%R ->
  fin32 srcY -> (0 <= B2R srcY < IZR (origHeight img))%R ->
  fin32 (bilinear img srcX srcY c)
  /\ (0 <= B2R (bilinear img srcX srcY c) <= 1 + 1 / 524288)%R.
Proof.
  intros Himg Fx Bx Fy By.
  destruct (floor_index srcX _ Fx Bx) as [Ix Flx].
  destruct (floor_index srcY _ Fy By) as [Iy Fly].
  destruct Himg as (HW & HH & Hdata).
  assert (Himg : image_ok img) by done.
  unfold bilinear.
  apply interpolation_spec; try apply texel_spec; try done.
  - apply weight_spec; [done|lia|done].
  - apply weight_spec; [done|lia|done].
Qed.

Lemma ranged_check (M : Z) (x : float32) :
  0 <= M <= 2 ^ 24 -> fin32 x ->
  (zero <=? x)%f32 = true -> (x <=? of_int M)%f32 = true -> ranged M x.
Proof.
  intros HM Hx H0 H1. destruct (ranged_of_int M HM) as [[Hf _] Hv].
  apply leb_iff in H0; [|apply fin32_zero|done]. apply leb_iff in H1; [|done..].
  rewrite Hv in H1. split; [done|]. split; [exact H0|exact H1].
Qed.

Lemma luma_spec (r g b : float32) :
  ranged 2 r -> ranged 2 g -> ranged 2 b ->
  fin32 (luma r g b) /\ (0 <= B2R (luma r g b))%R.
Proof.
  intros Hr Hg Hb. unfold luma.
  assert (H1 : ranged 1 c0_299) by (by apply ranged_check; [simpl; lia|split|..]).
  assert (H2 : ranged 1 c0_587) by (by apply ranged_check; [simpl; lia|split|..]).
  assert (H3 : ranged 1 c0_114) by (by apply ranged_check; [simpl; lia|split|..]).
  destruct (mul_ranged 1 2 _ _ H1 Hr) as [Rr _]; [simpl; lia..|].
  destruct (mul_ranged 1 2 _ _ H2 Hg) as [Rg _]; [simpl; lia..|].
  destruct (mul_ranged 1 2 _ _ H3 Hb) as [Rb _]; [simpl; lia..|].
  destruct (add_ranged _ _ _ _ Rr Rg) as [R1 _]; [simpl; lia..|].
  destruct (add_ranged _ _ _ _ R1 Rb) as [R2 _]; [simpl; lia..|].
  destruct R2 as (F & P & _). by split.
Qed.

Lemma near_unit_zero : near_unit zero.
Proof. split; [apply fin32_zero|]. simpl. lra. Qed.

Lemma near_unit_ranged (x : float32) : near_unit x -> ranged 2 x.
Proof. intros (Hx & H0 & H1). split; [done|]. simpl. lra. Qed.

Lemma near_unit_within (x : float32) : near_unit x -> within 40 x.
Proof.
  intros (Hx & H0 & H1). split; [done|]. rewrite Rabs_pos_eq by done.
  apply (Rle_trans _ (bpow 1)); [rewrite bpow_1; lra|]. apply bpow_le. lia.
Qed.

Section ResampleCell.
Variable img : Image.
Variables W H threshold sx sy : Z.
Hypothesis Himg : image_ok img.
Hypothesis Hsx : 0 <= sx < W.
Hypothesis HW : W <= 16384.
Hypothesis Hsy : 0 <= sy < H.
Hypothesis HH : H <= 16384.
Hypothesis Ht : 0 <= threshold.

Lemma resample_cell_indices :
  let x0 := to_int (source_coord sx W (origWidth img)) in
  let y0 := to_int (source_coord sy H (origHeight img)) in
  0 <= x0 <= clamped_next x0 (origWidth img)
  /\ clamped_next x0 (origWidth img) <= origWidth img - 1
  /\ 0 <= y0 <= clamped_next y0 (origHeight img)
  /\ clamped_next y0 (origHeight img) <= origHeight img - 1.
Proof.
  destruct Himg as (H0 & H1 & _).
  destruct (source_coord_spec sx W (origWidth img) Hsx HW H0) as [Fx Bx].
  destruct (source_coord_spec sy H (origHeight img) Hsy HH H1) as [Fy By].
  destruct (floor_index _ _ Fx Bx) as [Ix _].
  destruct (floor_index _ _ Fy By) as [Iy _].
  unfold clamped_next. cbv zeta. lia.
Qed.

Lemma resample_cell_bilinear (c : Z) :
  near_unit (bilinear img (source_coord sx W (origWidth img))
                          (source_coord sy H (origHeight img)) c).
Proof.
  destruct Himg as (H0 & H1 & _).
  destruct (source_coord_spec sx W (origWidth img) Hsx HW H0) as [Fx Bx].
  destruct (source_coord_spec sy H (origHeight img) Hsy HH H1) as [Fy By].
  by apply bilinear_spec.
Qed.

Lemma resample_cell_resampled :
  resample_cell img W H threshold sx sy = resampled_cell img W H threshold sx sy.
Proof.
  destruct resample_cell_indices as (Ix & Ix1 & Iy & Iy1).
  pose proof (resample_cell_bilinear 0) as Nr.
  pose proof (resample_cell_bilinear 1) as Ng.
  pose proof (resample_cell_bilinear 2) as Nb.
  destruct (luma_spec _ _ _ (near_unit_ranged _ Nr) (near_unit_ranged _ Ng)
              (near_unit_ranged _ Nb)) as [Fl Pl].
  unfold resample_cell, resampled_cell. cbv zeta.
  fold (source_coord sx W (origWidth img)). fold (source_coord sy H (origHeight img)).
  rewrite !clamped_next_eq by lia.
  fold (bilinear img (source_coord sx W (origWidth img))
                 (source_coord sy H (origHeight img)) 0).
  fold (bilinear img (source_coord sx W (origWidth img))
                 (source_coord sy H (origHeight img)) 1).
  fold (bilinear img (source_coord sx W (origWidth img))
                 (source_coord sy H (origHeight img)) 2).
  match goal with |- context [(?a * ?r + ?b * ?g + ?c * ?d)%f32] =>
    fold (luma r g d) end.
  destruct (Z.ltb_spec 0 threshold) as [Hpos|Hzero]; [done|].
  assert (threshold = 0) as -> by lia.
  change (of_int 0 / c255)%f32 with zero. simpl.
  assert (Hf : (luma (bilinear img (source_coord sx W (origWidth img))
                                 (source_coord sy H (origHeight img)) 0)
                     (bilinear img (source_coord sx W (origWidth img))
                                 (source_coord sy H (origHeight img)) 1)
                     (bilinear img (source_coord sx W (origWidth img))
                                 (source_coord sy H (origHeight img)) 2) <? zero)%f32 = false).
  { apply ltb_false_iff; [done|apply fin32_zero|]. exact Pl. }
  by rewrite Hf.
Qed.

Lemma resample_cell_near_unit :
  near_unit3 (resample_cell img W H threshold sx sy).
Proof.
  rewrite resample_cell_resampled. unfold resampled_cell. cbv zeta.
  destruct (_ <? _)%f32.
  - repeat split; try apply fin32_zero; simpl; lra.
  - split; [|split]; apply resample_cell_bilinear.
Qed.
End ResampleCell.

(** ** The resampling loop *)

Lemma vget_vset_cases {A} `{Inhabited A} (v : list A) (i j : Z) (a : A) :
  vget (vset v i a) j = a \/ vget (vset v i a) j = vget v j.
Proof.
  unfold vget, vset.
  destruct (decide (Z.to_nat i = Z.to_nat j)) as [Heq|Hne].
  - destruct (decide (Z.to_nat i < length v)%nat) as [Hlt|Hge].
    + left. rewrite Heq. apply list_lookup_total_insert_eq. lia.
    + right. by rewrite list_insert_ge by lia.
  - right. by apply list_lookup_total_insert_ne.
Qed.

Lemma cell_unique (W x y x' y' : Z) :
  0 <= x < W -> 0 <= x' < W -> y' * W + x' = y * W + x -> x' = x /\ y' = y.
Proof.
  intros Hx Hx' Heq.
  assert (y' = y) by nia. subst. lia.
Qed.

Lemma resample_store_step img W H threshold x y acc :
  0 <= x < W -> 0 <= y < H ->
  stored img W H threshold (y * W + x) acc ->
  stored img W H threshold (y * W + x + 1) (resample_store img W H threshold x y acc).
Proof.
  intros Hx Hy [Hlen Hcell]. unfold resample_store.
  destruct (resample_cell img W H threshold x y) as [[r g] b] eqn:Hrgb.
  pose proof (cell_index_range W H x y Hx Hy) as Hi.
  set (i := y * W + x) in *.
  split.
  - by rewrite !vset_length.
  - intros x' y' Hx' Hy' Hdone.
    destruct (decide (y' * W + x' = i)) as [Heq|Hne].
    + destruct (cell_unique W x y x' y' Hx Hx' Heq) as [-> ->].
      rewrite Hrgb. fold i. unfold cell_triple.
      rewrite vget_vset_other by lia.
      rewrite vget_vset_other by lia.
      rewrite vget_vset_same by lia.
      rewrite vget_vset_other by lia.
      rewrite vget_vset_same by (rewrite vset_length; lia).
      rewrite vget_vset_same by (rewrite !vset_length; lia).
      done.
    + assert (0 <= y' * W + x' < i) by nia.
      rewrite <- Hcell by (done || lia).
      unfold cell_triple.
      by rewrite !vget_vset_other by lia.
Qed.

Lemma resample_stored img W H threshold :
  0 <= W -> 0 <= H ->
  stored img W H threshold (W * H) (resample img W H threshold).
Proof.
  intros HW HH. unfold resample.
  apply (nested_range_ind (stored img W H threshold)); [done|done| |].
  - split; [rewrite length_replicate; lia|]. intros x y Hx Hy Hlt. nia.
  - intros x y acc Hx Hy Hacc. by apply resample_store_step.
Qed.

Lemma resample_near_unit img W H threshold (j : Z) :
  image_ok img -> 0 <= W <= 16384 -> 0 <= H <= 16384 -> 0 <= threshold ->
  near_unit (vget (resample img W H threshold) j).
Proof.
  intros Himg HW HH Ht. revert j. unfold resample.
  apply (nested_range_ind (fun _ acc => forall j, near_unit (vget acc j))); [lia|lia| |].
  - intros j. unfold vget. rewrite list_lookup_total_alt.
    destruct (replicate _ _ !! _) as [v|] eqn:Hl; simpl.
    + apply lookup_replicate in Hl as [-> _]. apply near_unit_zero.
    + apply near_unit_zero.
  - intros x y acc Hx Hy Hacc j. unfold resample_store.
    pose proof (resample_cell_near_unit img W H threshold x y Himg Hx
                  ltac:(lia) Hy ltac:(lia) Ht) as Hn.
    destruct (resample_cell img W H threshold x y) as [[r g] b].
    destruct Hn as (Hr & Hg & Hb). simpl in Hr, Hg, Hb.
    destruct (vget_vset_cases (vset (vset acc ((y * W + x) * 3) r)
                ((y * W + x) * 3 + 1) g) ((y * W + x) * 3 + 2) j b) as [->| ->]; [done|].
    destruct (vget_vset_cases (vset acc ((y * W + x) * 3) r)
                ((y * W + x) * 3 + 1) j g) as [->| ->]; [done|].
    destruct (vget_vset_cases acc ((y * W + x) * 3) j r) as [->| ->]; [done|].
    apply Hacc.
Qed.

(** ** The classifier *)

Lemma classify_spec (prob : float32) :
  fin32 prob ->
  (classify prob = PIXEL_BLACK <-> (prob <? c0_3)%f32 = true)
  /\ (classify prob = PIXEL_ORANGE <-> (prob >? c0_7)%f32 = true)
  /\ (classify prob = PIXEL_AMBIGUOUS
      <-> (c0_3 <=? prob)%f32 && (prob <=? c0_7)%f32 = true).
Proof.
  intros Hp.
  assert (F3 : fin32 c0_3) by (by split).
  assert (F7 : fin32 c0_7) by (by split).
  assert (Hlt : (B2R c0_3 < B2R c0_7)%R) by (by apply ltb_iff).
  unfold classify, AMBIG_LOW, AMBIG_HIGH.
  rewrite andb_true_iff, !leb_iff by done.
  destruct (prob <? c0_3)%f32 eqn:Hlo.
  - apply ltb_iff in Hlo; [|done..].
    assert (Hhi : (prob >? c0_7)%f32 = false) by (apply ltb_false_iff; [done..|lra]).
    rewrite Hhi. repeat split; try done. intros [? ?]. lra.
  - apply ltb_false_iff in Hlo; [|done..].
    destruct (prob >? c0_7)%f32 eqn:Hhi.
    + apply gtb_iff in Hhi; [|done..]. repeat split; try done. intros [? ?]. lra.
    + apply ltb_false_iff in Hhi; [|done..]. repeat split; try done.
Qed.

Lemma SFcompare_antisym (x y : float32) :
  SFcompare y x = option_map CompOpp (SFcompare x y).
Proof.
  destruct x as [sx|sx| |sx mx ex], y as [sy|sy| |sy my ey]; simpl; try done;
    try (by destruct sx); try (by destruct sy); try (by destruct sx, sy).
  destruct sx, sy; simpl; try done.
  - rewrite (Z.compare_antisym ex ey). destruct (ex ?= ey); simpl; try done.
    by rewrite (Pos.compare_cont_antisym mx my Eq).
  - rewrite (Z.compare_antisym ex ey). destruct (ex ?= ey); simpl; try done.
    by rewrite (Pos.compare_cont_antisym mx my Eq).
Qed.

Lemma ltb_asym (x y : float32) : (x <? y)%f32 = true -> (y <? x)%f32 = false.
Proof.
  unfold ltb, SFltb. rewrite (SFcompare_antisym x y).
  by destruct (SFcompare x y) as [[]|].
Qed.

(** ** The degenerate-colour guard *)

(** X2. For every triple of floats of magnitude at most [2 ^ 40], as
    every resampled triple is, lines 232-236 compute a probability
    without error: the two distances and their sum are finite floats, the
    probability is 0.5 if the sum is below 0.001 and the quotient of the
    black distance by the sum otherwise, and it is a finite float that is
    not negative.  The sum is in fact never below 0.001.  For any triple
    whatever, a sum below 0.001 gives the probability 0.5. *)
Theorem degenerate_guard (r g b : float32) :
  within 40 r -> within 40 g -> within 40 b ->
  let total := totalDist r g b in
  orangeProb r g b
  = (if (total <? c0_001)%f32 then half else (distBlack r g b / total)%f32)
  /\ (total <? c0_001)%f32 = false /\ (total >? c0_001)%f32 = true
  /\ fin32 (distBlack r g b) /\ fin32 (distOrange r g b) /\ fin32 total
  /\ fin32 (orangeProb r g b) /\ is_nan (orangeProb r g b) = false
  /\ (0 <= B2R (orangeProb r g b))%R
  /\ (forall r' g' b' : float32,
        (totalDist r' g' b' <? c0_001)%f32 = true -> orangeProb r' g' b' = half).
Proof.
  intros Hr Hg Hb total.
  pose proof (totalDist_above_guard r g b Hr Hg Hb) as Hgt. fold total in Hgt.
  assert (Hlt : (total <? c0_001)%f32 = false).
  { unfold gtb in Hgt. by apply ltb_asym. }
  destruct (distBlack_within r g b Hr Hg Hb) as ([Fb _] & _).
  destruct (distOrange_within r g b Hr Hg Hb) as ([Fo _] & _).
  destruct (totalDist_within r g b Hr Hg Hb) as ([Ft _] & _).
  destruct (orangeProb_fin r g b Hr Hg Hb) as [Hp Hq].
  assert (Fp : fin32 (orangeProb r g b)) by apply Hp.
  split; [rewrite Hlt; by apply orangeProb_ratio|].
  split; [done|]. split; [done|]. split; [done|]. split; [done|]. split; [done|].
  split; [done|]. split; [by destruct Fp as [Hfin _], (orangeProb r g b)|].
  split; [apply (rounds_nonneg _ _ Hp), Hq|].
  intros r' g' b' Hlow. unfold orangeProb.
  change (totalDist r' g' b' >? c0_001)%f32 with (c0_001 <? totalDist r' g' b')%f32.
  by rewrite (ltb_asym _ _ Hlow).
Qed.

Lemma degenerate_guard_witness :
  within 40 one /\ within 40 half /\ within 40 zero
  /\ orangeProb one half zero
     = (if (totalDist one half zero <? c0_001)%f32 then half
        else (distBlack one half zero / totalDist one half zero)%f32).
Proof.
  assert (H1 : within 40 one) by (by apply within_check; [lia|split|..]).
  assert (H2 : within 40 half) by (by apply within_check; [lia|split|..]).
  assert (H3 : within 40 zero) by (by apply within_check; [lia|split|..]).
  split; [exact H1|]. split; [exact H2|]. split; [exact H3|].
  exact (proj1 (degenerate_guard one half zero H1 H2 H3)).
Defined.

(** ** The partition of the classifier *)

Lemma loaded_cell (img : Image) (W H threshold i : Z) :
  image_ok img -> 0 <= W <= 16384 -> 0 <= H <= 16384 -> 0 <= threshold ->
  0 <= i < W * H ->
  cell_triple (resample img W H threshold) i
  = resample_cell img W H threshold (i mod W) (i / W)
  /\ near_unit3 (cell_triple (resample img W H threshold) i).
Proof.
  intros Himg HW HH Ht Hi.
  assert (0 < W) by nia.
  pose proof (Z.mod_pos_bound i W ltac:(lia)) as Hx.
  pose proof (Z.div_pos i W ltac:(lia) ltac:(lia)) as Hy.
  pose proof (Z.div_mod i W ltac:(lia)) as Hdm.
  destruct (resample_stored img W H threshold) as [_ Hcell]; [lia..|].
  split.
  - rewrite <- (Hcell (i mod W) (i / W)) by (done || lia).
    f_equal. lia.
  - unfold cell_triple, near_unit3. simpl.
    split; [|split]; by apply resample_near_unit.
Qed.

(** X1. After [loadAndPrepareImage], for every cell of the grid, with
    [(r, g, b)] the resampled triple of the cell: the probability is the
    quotient of the black distance by the sum of the two distances, a
    finite float; the cell is Black exactly when the probability is below
    0.3, Accent exactly when it is above 0.7, and Uncertain exactly when
    it is between 0.3 and 0.7, both included; the probability of an
    Uncertain cell is stored; and the two boundary values are classified
    Uncertain. *)
Theorem classifier_partition (img : Image) (screenWidth screenHeight : Z)
    (e0 : Engine) (i : Z) :
  image_ok img -> screen_ok screenWidth screenHeight e0 ->
  let e := loadAndPrepareImage (Some img) screenWidth screenHeight e0 in
  grid_ok e -> 0 <= i < cells e ->
  let W := g_scaledWidth e in
  let '(r, g, b) :=
    resample_cell img W (g_scaledHeight e) (g_threshold e) (i mod W) (i / W) in
  let prob := orangeProb r g b in
  let state := vget (g_pixelStates e) i in
  prob = (distBlack r g b / totalDist r g b)%f32
  /\ fin32 prob
  /\ (state = PIXEL_BLACK <-> (prob <? c0_3)%f32 = true)
  /\ (state = PIXEL_ORANGE <-> (prob >? c0_7)%f32 = true)
  /\ (state = PIXEL_AMBIGUOUS
      <-> (c0_3 <=? prob)%f32 && (prob <=? c0_7)%f32 = true)
  /\ (state = PIXEL_AMBIGUOUS -> vget (g_orangeProb e) i = prob)
  /\ classify c0_3 = PIXEL_AMBIGUOUS /\ classify c0_7 = PIXEL_AMBIGUOUS.
Proof.
  intros Himg (Hw & Hh & Hp) e (GW & GH & Gt) Hi W.
  unfold cells in Hi. subst W e. simpl in *.
  set (W := Z.quot screenWidth (g_pixelSize e0)) in *.
  set (H := Z.quot screenHeight (g_pixelSize e0)) in *.
  assert (HW : 0 <= W) by (by apply quot_nonneg).
  assert (HH : 0 <= H) by (by apply quot_nonneg).
  destruct (loaded_cell img W H (g_threshold e0) i) as [Hcell Hnear]; [done|lia..|].
  destruct (classify_all_classified W H (resample img W H (g_threshold e0)) HW HH)
    as [_ _ Hst Hpr _].
  rewrite Hcell in Hnear.
  destruct (resample_cell img W H (g_threshold e0) (i mod W) (i / W))
    as [[r g] b] eqn:Hrgb.
  destruct Hnear as (Nr & Ng & Nb). simpl in Nr, Ng, Nb.
  apply near_unit_within in Nr, Ng, Nb.
  assert (Hprob : cell_prob (resample img W H (g_threshold e0)) i = orangeProb r g b).
  { unfold cell_prob. unfold cell_triple in Hcell. by injection Hcell as -> -> ->. }
  rewrite (Hst i Hi). unfold cell_state. rewrite Hprob.
  destruct (orangeProb_fin r g b Nr Ng Nb) as [Hf _].
  destruct (classify_spec (orangeProb r g b)) as (HB & HO & HA); [apply Hf|].
  split; [by apply orangeProb_ratio|]. split; [apply Hf|].
  split; [done|]. split; [done|]. split; [done|].
  split; [|done].
  intros Hamb. rewrite <- Hprob. apply Hpr; [done|].
  unfold cell_state. by rewrite Hprob.
Qed.

Lemma classifier_partition_witness :
  image_ok sample_image /\ screen_ok 4 4 (with_algorithm 2 initial_engine)
  /\ grid_ok (sample_engine 2) /\ 0 <= 5 < cells (sample_engine 2)
  /\ (let W := g_scaledWidth (sample_engine 2) in
      let '(r, g, b) :=
        resample_cell sample_image W (g_scaledHeight (sample_engine 2))
          (g_threshold (sample_engine 2)) (5 mod W) (5 / W) in
      let prob := orangeProb r g b in
      let state := vget (g_pixelStates (sample_engine 2)) 5 in
      prob = (distBlack r g b / totalDist r g b)%f32
      /\ fin32 prob
      /\ (state = PIXEL_BLACK <-> (prob <? c0_3)%f32 = true)
      /\ (state = PIXEL_ORANGE <-> (prob >? c0_7)%f32 = true)
      /\ (state = PIXEL_AMBIGUOUS
          <-> (c0_3 <=? prob)%f32 && (prob <=? c0_7)%f32 = true)
      /\ (state = PIXEL_AMBIGUOUS -> vget (g_orangeProb (sample_engine 2)) 5 = prob)
      /\ classify c0_3 = PIXEL_AMBIGUOUS /\ classify c0_7 = PIXEL_AMBIGUOUS).
Proof.
  assert (Himg : image_ok sample_image).
  { unfold image_ok. simpl. split; [lia|]. split; [lia|]. repeat constructor; lia. }
  assert (Hok : screen_ok 4 4 (with_algorithm 2 initial_engine))
    by (unfold screen_ok; simpl; lia).
  assert (Hg : grid_ok (sample_engine 2)) by (vm_compute; repeat split; discriminate).
  assert (Hi : 0 <= 5 < cells (sample_engine 2))
    by (vm_compute; split; [discriminate|reflexivity]).
  split; [exact Himg|]. split; [exact Hok|]. split; [exact Hg|]. split; [exact Hi|].
  exact (classifier_partition sample_image 4 4 (with_algorithm 2 initial_engine) 5
           Himg Hok Hg Hi).
Defined.

(** ** The resampled triples *)

(** X4. A resampled component can exceed 1: the red component of the
    cell (1, 1) of a white image of two by two texels on a grid of seven
    by seven cells is [1 + 2 ^ -23]. *)
Lemma resampled_component_above_one :
  image_ok white_image
  /\ (resample_cell white_image 7 7 40 1 1).1.1 = S754_finite false 8388609 (-23)
  /\ (one <? (resample_cell white_image 7 7 40 1 1).1.1)%f32 = true
  /\ ~ (B2R (resample_cell white_image 7 7 40 1 1).1.1 <= 1)%R.
Proof.
  assert (Hv : (resample_cell white_image 7 7 40 1 1).1.1
               = S754_finite false 8388609 (-23)) by (by vm_compute).
  split; [|split; [exact Hv|split]].
  - unfold image_ok. simpl. split; [lia|]. split; [lia|]. repeat constructor; lia.
  - by rewrite Hv.
  - rewrite Hv. intros Hle.
    assert (Hlt : (one <? S754_finite false 8388609 (-23))%f32 = true) by reflexivity.
    apply ltb_iff in Hlt; [|apply fin32_one|by split].
    rewrite B2R_one in Hlt. lra.
Qed.

(** X3. For every cell [(sx, sy)] of the target grid, the triple the
    resampling loop stores for the cell is the bilinear sample:
    the source coordinates [sx / W * W0] and [sy / H * H0], the four
    neighbouring texels with the second neighbour clamped to the last
    valid index, the bilinear interpolation, and the triple forced to zero
    when its luma is below [threshold / 255].  The four neighbours are
    indices of the source raster.  Every component is a finite float
    between 0 and [1 + 2 ^ -19]. *)
Theorem resample_cell_spec (img : Image) (W H threshold sx sy : Z) :
  image_ok img -> 0 <= sx < W -> W <= 16384 -> 0 <= sy < H -> H <= 16384 ->
  0 <= threshold ->
  let x0 := to_int (source_coord sx W (origWidth img)) in
  let y0 := to_int (source_coord sy H (origHeight img)) in
  cell_triple (resample img W H threshold) (sy * W + sx)
  = resample_cell img W H threshold sx sy
  /\ resample_cell img W H threshold sx sy = resampled_cell img W H threshold sx sy
  /\ 0 <= x0 <= clamped_next x0 (origWidth img)
  /\ clamped_next x0 (origWidth img) <= origWidth img - 1
  /\ 0 <= y0 <= clamped_next y0 (origHeight img)
  /\ clamped_next y0 (origHeight img) <= origHeight img - 1
  /\ near_unit3 (resample_cell img W H threshold sx sy).
Proof.
  intros Himg Hsx HW Hsy HH Ht x0 y0.
  split.
  { destruct (resample_stored img W H threshold) as [_ Hcell]; [lia..|].
    apply Hcell; [done|lia|nia]. }
  split; [by apply resample_cell_resampled|].
  destruct (resample_cell_indices img W H sx sy Himg Hsx HW Hsy HH)
    as (I1 & I2 & I3 & I4).
  split; [exact I1|]. split; [exact I2|]. split; [exact I3|]. split; [exact I4|].
  by apply resample_cell_near_unit.
Qed.

Lemma resample_cell_spec_witness :
  image_ok white_image /\ 0 <= 1 < 7 /\ 7 <= 16384 /\ 0 <= 40
  /\ resample_cell white_image 7 7 40 1 1 = resampled_cell white_image 7 7 40 1 1
  /\ near_unit3 (resample_cell white_image 7 7 40 1 1).
Proof.
  assert (Himg : image_ok white_image).
  { unfold image_ok. simpl. split; [lia|]. split; [lia|]. repeat constructor; lia. }
  assert (H1 : 0 <= 1 < 7) by lia.
  assert (H7 : 7 <= 16384) by lia.
  assert (Ht : 0 <= 40) by lia.
  split; [exact Himg|]. split; [exact H1|]. split; [exact H7|]. split; [exact Ht|].
  pose proof (resample_cell_spec white_image 7 7 40 1 1 Himg H1 H7 H1 H7 Ht) as Hs.
  split; [exact (proj1 (proj2 Hs))|].
  exact (proj2 (proj2 (proj2 (proj2 (proj2 (proj2 Hs)))))).
Defined.

(** ** The animation clock *)

Lemma SFcompare_Eq_finite (x : float32) (m : positive) (e : Z) :
  SFcompare x (S754_finite false m e) = Some Eq -> x = S754_finite false m e.
Proof.
  destruct x as [sx|sx| |sx mx ex]; simpl; try done;
    try (by destruct sx).
  destruct sx; [done|].
  destruct (Z.compare_spec ex e) as [->| |]; try done.
  intros Hc. injection Hc as Hc.
  by apply Pos.compare_eq in Hc as ->.
Qed.

Lemma fin32_eq_pow2f (t : float32) (k : Z) :
  -126 <= k <= 127 -> fin32 t -> B2R t = bpow k -> t = pow2f k.
Proof.
  intros Hk Ht Hv. destruct (pow2f_spec k Hk) as [Hf Hb].
  destruct (SFcompare_spec t (pow2f k) Ht Hf) as (c & Hc & Hp).
  rewrite Hv, Hb in Hp.
  destruct c; simpl in Hp; try lra.
  by apply SFcompare_Eq_finite.
Qed.

(** The floats below [2 ^ 19] are at most [2 ^ 19 - 2 ^ -5]. *)
Lemma below_pow19 (t : float32) :
  fin32 t -> (B2R t < bpow 19)%R -> (B2R t <= bpow 19 - bpow (-5))%R.
Proof.
  intros Ht Hlt.
  assert (H18 : (bpow 18 <= bpow 19 - bpow (-5))%R).
  { assert (bpow 19 = 2 * bpow 18)%R as ->.
    { replace 19 with (1 + 18) by lia. by rewrite bpow_add, bpow_1. }
    pose proof (bpow_le (-5) 18 ltac:(lia)). lra. }
  pose proof (bpow_gt_0 18) as P18.
  destruct t as [s|s| |s m e]; try (cbn [B2R] in *; lra).
  destruct (valid_finite _ _ _ Ht) as [Hc He].
  rewrite B2R_finite in *.
  pose proof (F2R_pos (Zpos m) e ltac:(lia)) as Hpos.
  destruct s; unfold signed in *; [lra|].
  pose proof (F2R_bounds (Zpos m) e ltac:(lia)) as [Hlo Hhi].
  change (Zdigits2 (Zpos m)) with (Zpos (digits2_pos m)) in Hlo, Hhi.
  set (d := Zpos (digits2_pos m)) in *.
  assert (Hd : d - 1 + e < 19).
  { apply bpow_lt_inv. lra. }
  unfold fexp32 in Hc.
  destruct (Z_lt_le_dec e (-5)) as [Hsmall|Hbig].
  - assert (d + e <= 18) by lia.
    pose proof (bpow_le (d + e) 18 ltac:(lia)). lra.
  - assert (e = -5) as -> by lia.
    assert (Hm : Zpos m <= 2 ^ 24 - 1).
    { assert (Zpos m < 2 ^ 24); [|lia].
      destruct (Z_lt_le_dec (Zpos m) (2 ^ 24)) as [|Hge]; [done|].
      apply (F2R_le _ _ (-5)) in Hge.
      assert (F2R (2 ^ 24) (-5) = bpow 19) as Heq.
      { unfold F2R. rewrite <- (bpow_IZR 24) by lia. by rewrite <- bpow_add. }
      lra. }
    apply (F2R_le _ _ (-5)) in Hm.
    assert (F2R (2 ^ 24 - 1) (-5) = bpow 19 - bpow (-5))%R as Heq.
    { unfold F2R. rewrite minus_IZR, <- (bpow_IZR 24) by lia.
      rewrite Rmult_minus_distr_r, <- bpow_add.
      change (24 + -5) with 19. lra. }
    lra.
Qed.

Lemma fin32_c0_016 : fin32 c0_016 /\ (0 <= B2R c0_016 < bpow (-5))%R.
Proof.
  assert (Hf : fin32 c0_016) by (by split).
  destruct (pow2f_spec (-5)) as [Hp Hv]; [lia|].
  split; [done|]. split.
  - assert (Hle : (zero <=? c0_016)%f32 = true) by reflexivity.
    apply leb_iff in Hle; [done|apply fin32_zero|done].
  - assert (Hlt : (c0_016 <? pow2f (-5))%f32 = true) by reflexivity.
    apply ltb_iff in Hlt; [|done..]. by rewrite Hv in Hlt.
Qed.

Lemma clock_step (t : float32) :
  clock_ok t ->
  clock_ok (t + c0_016)%f32 /\ (B2R t <= B2R (t + c0_016)%f32)%R.
Proof.
  intros (Ht & T0 & T1). destruct fin32_c0_016 as (Hc & C0 & C1).
  pose proof (bpow_le (-5) 0 ltac:(lia)) as H50. rewrite bpow_0 in H50.
  assert (Hr : rounds_mono (B2R t + B2R c0_016) (t + c0_016)%f32).
  { apply add_mono; [done..|]. rewrite Rabs_pos_eq by lra.
    apply (Rlt_le_trans _ (bpow 20)); [|apply bpow_le; lia].
    replace 20 with (1 + 19) by lia. rewrite bpow_add, bpow_1.
    pose proof (bpow_le 0 19 ltac:(lia)) as H19. rewrite bpow_0 in H19. lra. }
  assert (Hup : (B2R t <= B2R (t + c0_016)%f32)%R).
  { apply (rnd_below _ _ Hr); [done|lra]. }
  split; [|done]. split; [apply Hr|]. split; [lra|].
  destruct (Rle_lt_or_eq_dec _ _ T1) as [Hlt|Heq].
  - apply (rounds_mono_le_bpow _ _ _ Hr); [lia|].
    pose proof (below_pow19 t Ht Hlt). lra.
  - apply fin32_eq_pow2f in Heq; [|lia|done]. subst t.
    assert ((pow2f 19 + c0_016)%f32 = pow2f 19) as -> by reflexivity.
    destruct (pow2f_spec 19) as [_ ->]; [lia|]. lra.
Qed.

Lemma ditherFrame_clock (sinf : float32 -> float32) (e : Engine) :
  clock_ok (g_time e) ->
  clock_ok (g_time (ditherFrame sinf e))
  /\ (B2R (g_time e) <= B2R (g_time (ditherFrame sinf e)))%R.
Proof.
  intros Hc. rewrite ditherFrame_time. destruct (g_algorithm e =? 0).
  - split; [done|lra].
  - by apply clock_step.
Qed.

Lemma frames_clock (sinf : float32 -> float32) (n : nat) (e : Engine) :
  clock_ok (g_time e) ->
  clock_ok (g_time (frames sinf n e))
  /\ (B2R (g_time e) <= B2R (g_time (frames sinf n e)))%R.
Proof.
  intros Hc. induction n as [|n [IH1 IH2]]; [split; [done|simpl; lra]|].
  rewrite frames_S.
  destruct (ditherFrame_clock sinf (frames sinf n e) IH1) as [H1 H2].
  split; [done|lra].
Qed.

(** ** The clock over the frames *)

(** X6. The clock stops at [2 ^ 19]: under the random or the wave
    strategy a frame at the clock 524288 leaves it there, as the
    increment is less than half the distance to the next float; so do any
    number of frames. *)
Theorem clock_stalls (sinf : float32 -> float32) (e : Engine) (n : nat) :
  g_time e = pow2f 19 ->
  g_time (frames sinf n e) = pow2f 19.
Proof.
  intros Ht. induction n as [|n IH]; [done|].
  rewrite frames_S, ditherFrame_time, IH.
  by destruct (g_algorithm (frames sinf n e) =? 0).
Qed.

Lemma clock_stalls_witness :
  g_time (with_clock (pow2f 19) (sample_engine 1)) = pow2f 19
  /\ g_time (frames sinf_linear 2 (with_clock (pow2f 19) (sample_engine 1)))
     = pow2f 19.
Proof.
  assert (Ht : g_time (with_clock (pow2f 19) (sample_engine 1)) = pow2f 19)
    by reflexivity.
  split; [exact Ht|].
  exact (clock_stalls sinf_linear (with_clock (pow2f 19) (sample_engine 1)) 2 Ht).
Defined.

(** X5. A frame under the random or the wave strategy replaces the clock
    by the float sum of the clock and 0.016, whatever time has passed; a
    frame under the static strategy leaves the clock as it is.  From a
    clock between 0 and [2 ^ 19], as the initial 0 is, the clock after
    any number of frames is a finite float between 0 and [2 ^ 19] and a
    frame never decreases it. *)
Theorem clock_advance (sinf : float32 -> float32) (e : Engine) (n : nat) :
  clock_ok (g_time e) ->
  let e1 := frames sinf n e in
  let e2 := ditherFrame sinf e1 in
  g_time e2 = (if g_algorithm e =? 0 then g_time e1 else (g_time e1 + c0_016)%f32)
  /\ clock_ok (g_time e1) /\ clock_ok (g_time e2)
  /\ (B2R (g_time e) <= B2R (g_time e1) <= B2R (g_time e2))%R.
Proof.
  intros Hc e1 e2.
  destruct (frames_clock sinf n e Hc) as [H1 H2]. fold e1 in H1, H2.
  destruct (ditherFrame_clock sinf e1 H1) as [H3 H4]. fold e2 in H3, H4.
  split.
  - subst e2. rewrite ditherFrame_time.
    destruct (frames_same sinf n e) as (Ha & _). fold e1 in Ha. by rewrite Ha.
  - split; [done|]. split; [done|]. split; done.
Qed.

Lemma clock_advance_witness :
  clock_ok (g_time (sample_engine 2))
  /\ g_time (ditherFrame sinf_linear (frames sinf_linear 3 (sample_engine 2)))
     = (g_time (frames sinf_linear 3 (sample_engine 2)) + c0_016)%f32.
Proof.
  assert (Hc : clock_ok (g_time (sample_engine 2))).
  { split; [apply fin32_zero|]. change (B2R (g_time (sample_engine 2))) with 0%R.
    split; [lra|]. apply Rlt_le, bpow_gt_0. }
  split; [exact Hc|].
  exact (proj1 (clock_advance sinf_linear (sample_engine 2) 3 Hc)).
Defined.

(** ** The wave strategy and its cache *)

Lemma dither_wave_fields (sinf : float32 -> float32) (e : Engine) (i : Z) :
  let c := refresh_cache sinf e (Z.quot i (g_scaledWidth e)) in
  let d := wave_decide (Z.rem i (g_scaledWidth e)) (vget (g_orangeProb e) i)
             c.1.1.2 c.1.2 c.2 (g_rngState e) in
  statics (dither_wave sinf e i) = c
  /\ g_scaledPixels (dither_wave sinf e i) = set_pixel e (i * 4) d.1
  /\ g_time (dither_wave sinf e i) = g_time e.
Proof.
  unfold dither_wave, statics.
  destruct (refresh_cache sinf e (Z.quot i (g_scaledWidth e))) as [[[l s] c] w].
  simpl.
  by destruct (wave_decide (Z.rem i (g_scaledWidth e)) (vget (g_orangeProb e) i)
                 s c w (g_rngState e)).
Qed.

Lemma wave_decide_no_chaos (x : Z) (prob sine invW : float32) (rng : Z) :
  (wave_decide x prob sine zero invW rng).1
  = ((prob + (of_int x * invW - one - sine) * c0_3) >? half)%f32.
Proof. reflexivity. Qed.

Lemma B2R_dyadic (m k : positive) :
  B2R (S754_finite false m (Zneg k)) = (IZR (Zpos m) / IZR (2 ^ Zpos k))%R.
Proof.
  rewrite B2R_finite. unfold signed, F2R.
  change (Zneg k) with (- Zpos k). by rewrite bpow_opp, bpow_IZR.
Qed.

Lemma leb_R (x y : float32) :
  fin32 x -> fin32 y -> (x <=? y)%f32 = true -> (B2R x <= B2R y)%R.
Proof. intros Hx Hy. by apply leb_iff. Qed.

(** The decision for cell 1 with the sine of the current clock. *)
Lemma fresh_decision (s : float32) :
  fin32 s -> (- (1 / 16) <= B2R s <= - (1 / 64))%R ->
  ((prob_165 + (zero - s) * c0_3) >? half)%f32 = true.
Proof.
  intros Hs [Hlo Hhi].
  assert (b4 : bpow (-4) = (1 / 16)%R) by (unfold bpow; simpl; lra).
  assert (b5 : bpow (-5) = (1 / 32)%R) by (unfold bpow; simpl; lra).
  assert (b6 : bpow (-6) = (1 / 64)%R) by (unfold bpow; simpl; lra).
  assert (Rn : rounds_mono (B2R zero - B2R s) (zero - s)%f32).
  { apply sub_mono; [apply fin32_zero|done|]. change (B2R zero) with 0%R.
    apply (Rle_lt_trans _ 1); [apply Rabs_le; lra|].
    rewrite <- bpow_0. apply bpow_lt. lia. }
  change (B2R zero) with 0%R in Rn.
  pose proof (rounds_mono_ge_bpow _ _ (-6) Rn ltac:(lia)) as N1.
  pose proof (rounds_mono_le_bpow _ _ (-4) Rn ltac:(lia)) as N2.
  rewrite b6 in N1. rewrite b4 in N2.
  specialize (N1 ltac:(lra)). specialize (N2 ltac:(lra)).
  (* 9/32 <= 0.3f <= 1/2 *)
  assert (F3 : fin32 c0_3) by (by split).
  assert (C1 : (9 / 32 <= B2R c0_3)%R).
  { pose proof (leb_R (S754_finite false 9437184 (-25)) c0_3) as H.
    rewrite B2R_dyadic in H. change (2 ^ 25) with 33554432 in H.
    specialize (H ltac:(by split) F3 eq_refl). lra. }
  assert (C2 : (B2R c0_3 <= 1 / 2)%R).
  { pose proof (leb_R c0_3 (S754_finite false 8388608 (-24))) as H.
    rewrite B2R_dyadic in H. change (2 ^ 24) with 16777216 in H.
    specialize (H F3 ltac:(by split) eq_refl). lra. }
  set (ns := (zero - s)%f32) in *.
  assert (Fn : fin32 ns) by apply Rn.
  assert (Hprod : (9 / 2048 <= B2R ns * B2R c0_3 <= 1 / 32)%R) by nra.
  assert (Rw : rounds_mono (B2R ns * B2R c0_3) (ns * c0_3)%f32).
  { apply mul_mono; [done..|]. apply (Rle_lt_trans _ 1); [apply Rabs_le; lra|].
    rewrite <- bpow_0. apply bpow_lt. lia. }
  assert (W1 : (9 / 2048 <= B2R (ns * c0_3)%f32)%R).
  { pose proof (rnd_below _ _ Rw (S754_finite false 9437184 (-31))) as H.
    rewrite B2R_dyadic in H. change (2 ^ 31) with 2147483648 in H.
    specialize (H ltac:(by split) ltac:(lra)). lra. }
  pose proof (rounds_mono_le_bpow _ _ (-5) Rw ltac:(lia)) as W2.
  rewrite b5 in W2. specialize (W2 ltac:(lra)).
  set (w := (ns * c0_3)%f32) in *.
  assert (Fw : fin32 w) by apply Rw.
  assert (Fp : fin32 prob_165) by (by split).
  assert (P1 : (127 / 256 <= B2R prob_165)%R).
  { pose proof (leb_R (S754_finite false 16646144 (-25)) prob_165) as H.
    rewrite B2R_dyadic in H. change (2 ^ 25) with 33554432 in H.
    specialize (H ltac:(by split) Fp eq_refl). lra. }
  assert (P2 : (B2R prob_165 <= 1 / 2)%R).
  { pose proof (leb_R prob_165 (S754_finite false 8388608 (-24))) as H.
    rewrite B2R_dyadic in H. change (2 ^ 24) with 16777216 in H.
    specialize (H Fp ltac:(by split) eq_refl). lra. }
  assert (Rt : rounds_mono (B2R prob_165 + B2R w) (prob_165 + w)%f32).
  { apply add_mono; [done..|]. apply (Rle_lt_trans _ 1); [apply Rabs_le; lra|].
    rewrite <- bpow_0. apply bpow_lt. lia. }
  assert (T1 : (1025 / 2048 <= B2R (prob_165 + w)%f32)%R).
  { pose proof (rnd_below _ _ Rt (S754_finite false 8396800 (-24))) as H.
    rewrite B2R_dyadic in H. change (2 ^ 24) with 16777216 in H.
    specialize (H ltac:(by split) ltac:(lra)). lra. }
  apply gtb_iff; [apply Rt|by split|].
  assert (Hh : B2R half = (1 / 2)%R).
  { change half with (S754_finite false 8388608 (-24)).
    rewrite B2R_dyadic. change (2 ^ 24) with 16777216. lra. }
  lra.
Qed.

Section WaveCache.
Variable sinf : float32 -> float32.

Lemma refresh_cache_fresh (e : Engine) (y : Z) :
  y <> lastY e ->
  refresh_cache sinf e y
  = (y, sinf (of_int y * c0_8 - g_time e * two)%f32,
     (of_int (g_chaos e) / c100)%f32, (two / of_int (g_scaledWidth e))%f32).
Proof. intros Hy. unfold refresh_cache. by destruct (decide (y <> lastY e)). Qed.

Lemma refresh_cache_cached (e : Engine) (y : Z) :
  y = lastY e -> refresh_cache sinf e y = statics e.
Proof. intros Hy. unfold refresh_cache. by destruct (decide (y <> lastY e)). Qed.

Lemma dither_cell_wave (e : Engine) (i : Z) :
  g_algorithm e = 2 -> dither_cell sinf e i = dither_wave sinf e i.
Proof. intros H. unfold dither_cell. by rewrite H. Qed.

Lemma ditherFrame_wave (e : Engine) :
  g_algorithm e = 2 ->
  ditherFrame sinf e
  = advance_clock (fold_left (dither_cell sinf) (g_ambiguousIndices e) e).
Proof. intros H. unfold ditherFrame. by rewrite H. Qed.

Lemma wave_cell_statics (e : Engine) (i : Z) :
  g_algorithm e = 2 ->
  statics (dither_cell sinf e i) = refresh_cache sinf e (Z.quot i (g_scaledWidth e)).
Proof.
  intros H. rewrite dither_cell_wave by done. apply dither_wave_fields.
Qed.

Lemma wave_cell_slot (e : Engine) (i : Z) :
  g_algorithm e = 2 -> 0 <= i ->
  i * 4 + 4 <= Z.of_nat (length (g_scaledPixels e)) ->
  slot (g_scaledPixels (dither_cell sinf e i)) i
  = if wave_decision sinf e i then ORANGE_RGBA else BLACK_RGBA.
Proof.
  intros H Hi Hlen. rewrite dither_cell_wave by done.
  destruct (dither_wave_fields sinf e i) as (_ & -> & _).
  unfold set_pixel. fold (wave_decision sinf e i).
  apply slot_memcpy4_same; [done| by destruct (wave_decision sinf e i) |done].
Qed.

Lemma dither_cell_length (e : Engine) (i : Z) :
  length (g_scaledPixels (dither_cell sinf e i)) = length (g_scaledPixels e).
Proof.
  destruct (dither_cell_pixels sinf e i) as [b ->]. apply memcpy4_length.
Qed.

Lemma advance_clock_statics (e : Engine) : statics (advance_clock e) = statics e.
Proof. reflexivity. Qed.

Lemma wave_2_cell (e : Engine) (i : Z) : wave_2 e -> wave_2 (dither_cell sinf e i).
Proof.
  intros [Ha Hc Hw Hp Hl].
  destruct (dither_cell_same sinf e i) as (Ea & _ & _ & Ec & _ & _ & Ew & _ & _ & Ep & _).
  split; [congruence..| |].
  - by rewrite Ep.
  - by rewrite dither_cell_length.
Qed.

Lemma wave_2_clock (e : Engine) : wave_2 e -> wave_2 (advance_clock e).
Proof. by intros [? ? ? ? ?]. Qed.

(** Cell 1 with the sine of the row in the cache: the sine of the clock
    0, which is 0. *)
Lemma stale_decision (e : Engine) :
  wave_2 e -> statics e = (0, zero, zero, one) -> wave_decision sinf e 1 = false.
Proof.
  intros [Ha Hc Hw Hp Hl] Hs. unfold wave_decision. rewrite Hw, Hp.
  rewrite refresh_cache_cached by (by injection Hs).
  rewrite Hs. cbn [fst snd]. by rewrite wave_decide_no_chaos.
Qed.

Hypothesis sinf_finite : fin32 (sinf phase_0_016).
Hypothesis sinf_lower : (SFopp (pow2f (-4)) <=? sinf phase_0_016)%f32 = true.
Hypothesis sinf_upper : (sinf phase_0_016 <=? SFopp (pow2f (-6)))%f32 = true.

(** Cell 1 at the clock 0.016 with the sine computed afresh. *)
Lemma current_decision (e : Engine) :
  wave_2 e -> g_time e = c0_016 -> lastY e <> 0 -> wave_decision sinf e 1 = true.
Proof.
  intros [Ha Hc Hw Hp Hl] Ht Hy. unfold wave_decision. rewrite Hw, Hp.
  rewrite refresh_cache_fresh by done. rewrite Hw, Hc, Ht. cbn [fst snd].
  change (of_int 0 / c100)%f32 with zero.
  rewrite wave_decide_no_chaos.
  change (of_int (Z.quot 1 2) * c0_8 - c0_016 * two)%f32 with phase_0_016.
  change (of_int (Z.rem 1 2) * (two / of_int 2) - one)%f32 with zero.
  apply fresh_decision; [done|].
  destruct (pow2f_spec (-4)) as [F4 V4]; [lia|].
  destruct (pow2f_spec (-6)) as [F6 V6]; [lia|].
  apply leb_R in sinf_lower; [|by apply fin32_opp|done].
  apply leb_R in sinf_upper; [|done|by apply fin32_opp].
  rewrite B2R_opp, V4 in sinf_lower. rewrite B2R_opp, V6 in sinf_upper.
  assert (b4 : bpow (-4) = (1 / 16)%R) by (unfold bpow; simpl; lra).
  assert (b6 : bpow (-6) = (1 / 64)%R) by (unfold bpow; simpl; lra).
  split; lra.
Qed.
End WaveCache.

(** ** The two engines *)

Lemma one_row_wave_2 : wave_2 one_row_engine.
Proof. split; by vm_compute. Qed.

Lemma two_row_wave_2 : wave_2 two_row_engine.
Proof. split; by vm_compute. Qed.

Section TwoHistories.
Variable sinf : float32 -> float32.
Hypothesis sinf_zero : sinf zero = zero.

Lemma one_row_frame :
  let a := frames sinf 1 one_row_engine in
  wave_2 a /\ statics a = (0, zero, zero, one) /\ g_time a = c0_016
  /\ g_ambiguousIndices a = [1].
Proof.
  intros a. subst a. rewrite frames_S. change (frames sinf 0 one_row_engine) with one_row_engine.
  pose proof one_row_wave_2 as Hw.
  assert (Hl : g_ambiguousIndices one_row_engine = [1]) by (by vm_compute).
  split; [|split; [|split]].
  - rewrite ditherFrame_wave by apply Hw. rewrite Hl. cbn [fold_left].
    by apply wave_2_clock, wave_2_cell.
  - rewrite ditherFrame_wave by apply Hw. rewrite Hl. cbn [fold_left].
    rewrite advance_clock_statics, wave_cell_statics by apply Hw.
    rewrite refresh_cache_fresh by (by vm_compute).
    change (Z.quot 1 (g_scaledWidth one_row_engine)) with 0.
    change (of_int 0 * c0_8 - g_time one_row_engine * two)%f32 with zero.
    rewrite sinf_zero. by vm_compute.
  - rewrite ditherFrame_time. by vm_compute.
  - destruct (ditherFrame_same sinf one_row_engine) as (_&_&_&_&_&_&_&_&_&_&->).
    done.
Qed.

Lemma two_row_frame :
  let b := frames sinf 1 two_row_engine in
  wave_2 b /\ lastY b = 1 /\ g_time b = c0_016 /\ g_ambiguousIndices b = [1; 3].
Proof.
  intros b. subst b. rewrite frames_S. change (frames sinf 0 two_row_engine) with two_row_engine.
  pose proof two_row_wave_2 as Hw.
  assert (Hl : g_ambiguousIndices two_row_engine = [1; 3]) by (by vm_compute).
  pose proof (wave_2_cell sinf _ 1 Hw) as Hw1.
  split; [|split; [|split]].
  - rewrite ditherFrame_wave by apply Hw. rewrite Hl. cbn [fold_left].
    by apply wave_2_clock, wave_2_cell.
  - rewrite ditherFrame_wave by apply Hw. rewrite Hl. cbn [fold_left].
    change (lastY ?e) with (statics e).1.1.1.
    rewrite ?advance_clock_statics, wave_cell_statics by apply Hw1.
    rewrite (w2_width _ Hw1).
    rewrite refresh_cache_fresh; [cbn [fst snd]; reflexivity|].
    change (lastY ?e) with (statics e).1.1.1.
    rewrite wave_cell_statics by apply Hw.
    rewrite refresh_cache_fresh by (by vm_compute).
    cbn [fst snd]. by vm_compute.
  - rewrite ditherFrame_time. by vm_compute.
  - destruct (ditherFrame_same sinf two_row_engine) as (_&_&_&_&_&_&_&_&_&_&->).
    done.
Qed.
End TwoHistories.

(** ** The history in the decision of the wave strategy *)

(** X7. With chaos 0 the decision of the wave strategy depends on the
    frames before.  The sine of the row is kept in a
    static of [ditherFrame] that outlives the frame, and is computed again
    only when the row differs from the row of the cell decided last, in
    this frame or in an earlier one.  After one frame the two engines
    agree on the cell 1, that is on [x] and [y], on the clock, on the
    stored probability, on the width of the grid and on chaos 0; in the
    second frame the first decides the cell Black, with the sine of the
    clock 0 it has kept, and the second decides it Accent, with the sine
    of the clock 0.016.  The [sinf] of the C library is only taken to give
    0 at 0 and a float between [-1/16] and [-1/64] at [-0.032]. *)
Theorem wave_decision_depends_on_history (sinf : float32 -> float32) :
  sinf zero = zero ->
  fin32 (sinf phase_0_016) ->
  (SFopp (pow2f (-4)) <=? sinf phase_0_016)%f32 = true ->
  (sinf phase_0_016 <=? SFopp (pow2f (-6)))%f32 = true ->
  let a := frames sinf 1 one_row_engine in
  let b := frames sinf 1 two_row_engine in
  g_chaos a = 0 /\ g_chaos b = 0
  /\ g_scaledWidth a = g_scaledWidth b
  /\ g_time a = g_time b
  /\ vget (g_orangeProb a) 1 = vget (g_orangeProb b) 1
  /\ wave_decision sinf a 1 = false
  /\ wave_decision sinf b 1 = true
  /\ slot (g_scaledPixels (frames sinf 2 one_row_engine)) 1 = BLACK_RGBA
  /\ slot (g_scaledPixels (frames sinf 2 two_row_engine)) 1 = ORANGE_RGBA.
Proof.
  intros H0 Hf Hlo Hhi.
  destruct (one_row_frame sinf H0) as (Wa & Sa & Ta & La).
  destruct (two_row_frame sinf) as (Wb & Yb & Tb & Lb).
  cbv zeta. rewrite !(frames_S sinf 1).
  remember (frames sinf 1 one_row_engine) as a eqn:Ea.
  remember (frames sinf 1 two_row_engine) as b eqn:Eb.
  clear Ea Eb.
  pose proof (stale_decision sinf a Wa Sa) as Da.
  assert (Db : wave_decision sinf b 1 = true).
  { apply current_decision; [exact Hf|exact Hlo|exact Hhi|exact Wb|exact Tb|].
    rewrite Yb. lia. }
  split; [apply Wa|]. split; [apply Wb|].
  split; [rewrite (w2_width _ Wa), (w2_width _ Wb); reflexivity|].
  split; [rewrite Ta, Tb; reflexivity|].
  split; [rewrite (w2_prob _ Wa), (w2_prob _ Wb); reflexivity|].
  split; [exact Da|]. split; [exact Db|]. split.
  - rewrite ditherFrame_wave by apply Wa.
    rewrite La. cbn [fold_left].
    change (g_scaledPixels (advance_clock ?e)) with (g_scaledPixels e).
    rewrite wave_cell_slot; [rewrite Da; reflexivity|apply Wa|lia|].
    rewrite (w2_length _ Wa). lia.
  - rewrite ditherFrame_wave by apply Wb.
    rewrite Lb. cbn [fold_left].
    change (g_scaledPixels (advance_clock ?e)) with (g_scaledPixels e).
    change (dither_cell sinf (dither_cell sinf b 1) 3)
      with (fold_left (dither_cell sinf) [3] (dither_cell sinf b 1)).
    assert (H3 : Forall (fun i => 0 <= i) [3]) by (apply Forall_cons_2; [lia|apply Forall_nil_2]).
    assert (N3 : 1 ∉ [3]) by (apply not_elem_of_cons; split; [lia|apply not_elem_of_nil]).
    rewrite (dither_cells_untouched sinf [3] (dither_cell sinf b 1) 1 H3 ltac:(lia) N3).
    rewrite wave_cell_slot; [rewrite Db; reflexivity|apply Wb|lia|].
    rewrite (w2_length _ Wb). lia.
Qed.

Lemma wave_decision_depends_on_history_witness :
  sinf_linear zero = zero
  /\ fin32 (sinf_linear phase_0_016)
  /\ (SFopp (pow2f (-4)) <=? sinf_linear phase_0_016)%f32 = true
  /\ (sinf_linear phase_0_016 <=? SFopp (pow2f (-6)))%f32 = true
  /\ slot (g_scaledPixels (frames sinf_linear 2 one_row_engine)) 1 = BLACK_RGBA
  /\ slot (g_scaledPixels (frames sinf_linear 2 two_row_engine)) 1 = ORANGE_RGBA.
Proof.
  assert (H0 : sinf_linear zero = zero) by reflexivity.
  assert (Hf : fin32 (sinf_linear phase_0_016)) by (split; reflexivity).
  assert (Hlo : (SFopp (pow2f (-4)) <=? sinf_linear phase_0_016)%f32 = true)
    by reflexivity.
  assert (Hhi : (sinf_linear phase_0_016 <=? SFopp (pow2f (-6)))%f32 = true)
    by reflexivity.
  split; [exact H0|]. split; [exact Hf|]. split; [exact Hlo|]. split; [exact Hhi|].
  exact (proj2 (proj2 (proj2 (proj2 (proj2 (proj2 (proj2
           (wave_decision_depends_on_history sinf_linear H0 Hf Hlo Hhi)))))))).
Defined.

(** * The generator as a map of 32-bit states *)

(** ** The generator *)

Lemma word32_bits (x : Z) :
  word32 x <-> 0 <= x /\ forall i, 32 <= i -> Z.testbit x i = false.
Proof.
  unfold word32. split.
  - intros Hx. split; [lia|]. intros i Hi.
    rewrite <- (Z.mod_small x (2 ^ 32)) by lia.
    apply Z.mod_pow2_bits_high. lia.
  - intros [H0 Hhi].
    assert (Hx : x mod 2 ^ 32 = x).
    { apply Z.bits_inj'. intros i Hi.
      destruct (Z_lt_le_dec i 32) as [Hlt|Hge].
      - apply Z.mod_pow2_bits_low. lia.
      - rewrite Z.mod_pow2_bits_high by lia. symmetry. by apply Hhi. }
    pose proof (Z.mod_pos_bound x (2 ^ 32) ltac:(lia)). lia.
Qed.

Lemma u32_bits (z i : Z) :
  0 <= i -> Z.testbit (u32 z) i = Z.testbit z i && (i <? 32).
Proof.
  intros Hi. unfold u32. rewrite Z.land_spec.
  change 0xFFFFFFFF with (Z.ones 32).
  destruct (Z.ltb_spec i 32).
  - by rewrite Z.ones_spec_low by lia.
  - by rewrite Z.ones_spec_high by lia.
Qed.

Lemma word32_u32 (z : Z) : word32 (u32 z).
Proof.
  unfold u32. change 0xFFFFFFFF with (Z.ones 32). rewrite Z.land_ones by lia.
  apply Z.mod_pos_bound. lia.
Qed.

Lemma word32_lxor (a b : Z) : word32 a -> word32 b -> word32 (Z.lxor a b).
Proof.
  rewrite !word32_bits. intros [Ha Ha'] [Hb Hb']. split.
  - by apply Z.lxor_nonneg.
  - intros i Hi. by rewrite Z.lxor_spec, Ha', Hb'.
Qed.

Lemma word32_shiftr (a k : Z) : 0 <= k -> word32 a -> word32 (Z.shiftr a k).
Proof.
  intros Hk. rewrite !word32_bits. intros [Ha Ha']. split.
  - by apply Z.shiftr_nonneg.
  - intros i Hi. rewrite Z.shiftr_spec by lia. apply Ha'. lia.
Qed.

(** [s ^= s << k] and [s ^= s >> k] on a [uint32_t]. *)
Lemma xor_shiftl_inj (k x y : Z) :
  0 < k -> 0 <= x -> 0 <= y ->
  Z.lxor x (u32 (Z.shiftl x k)) = Z.lxor y (u32 (Z.shiftl y k)) -> x = y.
Proof.
  intros Hk Hx Hy Heq. apply Z.bits_inj'.
  assert (Hall : forall n : nat, forall i, 0 <= i < Z.of_nat n ->
            Z.testbit x i = Z.testbit y i).
  { induction n as [|n IH]; [lia|]. intros i Hi.
    destruct (decide (i < Z.of_nat n)) as [Hlt|Hge]; [apply IH; lia|].
    assert (Hb : Z.testbit (Z.lxor x (u32 (Z.shiftl x k))) i
                 = Z.testbit (Z.lxor y (u32 (Z.shiftl y k))) i) by (by rewrite Heq).
    rewrite !Z.lxor_spec, !u32_bits, !Z.shiftl_spec in Hb by lia.
    assert (Hprev : Z.testbit x (i - k) = Z.testbit y (i - k)).
    { destruct (Z_lt_le_dec (i - k) 0) as [Hneg|Hpos].
      - by rewrite !Z.testbit_neg_r.
      - apply IH. lia. }
    rewrite Hprev in Hb.
    by destruct (Z.testbit x i), (Z.testbit y i), (Z.testbit y (i - k)), (i <? 32). }
  intros i Hi. apply (Hall (Z.to_nat (i + 1))). lia.
Qed.

Lemma xor_shiftr_inj (k x y : Z) :
  0 < k -> word32 x -> word32 y ->
  Z.lxor x (Z.shiftr x k) = Z.lxor y (Z.shiftr y k) -> x = y.
Proof.
  intros Hk Hx Hy Heq. apply word32_bits in Hx as [Hx Hx'], Hy as [Hy Hy'].
  apply Z.bits_inj'.
  assert (Hall : forall n : nat, forall i, 0 <= i -> 32 - Z.of_nat n <= i ->
            Z.testbit x i = Z.testbit y i).
  { induction n as [|n IH]; intros i Hi Hn.
    - by rewrite Hx', Hy' by lia.
    - assert (Hb : Z.testbit (Z.lxor x (Z.shiftr x k)) i
                   = Z.testbit (Z.lxor y (Z.shiftr y k)) i) by (by rewrite Heq).
      rewrite !Z.lxor_spec, !Z.shiftr_spec in Hb by lia.
      rewrite (IH (i + k)) in Hb by lia.
      by destruct (Z.testbit x i), (Z.testbit y i), (Z.testbit y (i + k)). }
  intros i Hi. apply (Hall 32%nat); lia.
Qed.

Lemma fastRand_word32 (s : Z) : word32 s -> word32 (fastRand s).
Proof.
  intros Hs. unfold fastRand.
  assert (H1 : word32 (Z.lxor s (u32 (Z.shiftl s 13))))
    by (apply word32_lxor; [done|apply word32_u32]).
  assert (H2 : word32 (Z.lxor (Z.lxor s (u32 (Z.shiftl s 13)))
                         (Z.shiftr (Z.lxor s (u32 (Z.shiftl s 13))) 17)))
    by (apply word32_lxor; [done|by apply word32_shiftr]).
  apply word32_lxor; [done|apply word32_u32].
Qed.

Lemma fastRand_inj (s s' : Z) :
  word32 s -> word32 s' -> fastRand s = fastRand s' -> s = s'.
Proof.
  intros Hs Hs' Heq. unfold fastRand in Heq.
  assert (H1 : word32 (Z.lxor s (u32 (Z.shiftl s 13))))
    by (apply word32_lxor; [done|apply word32_u32]).
  assert (H1' : word32 (Z.lxor s' (u32 (Z.shiftl s' 13))))
    by (apply word32_lxor; [done|apply word32_u32]).
  apply xor_shiftl_inj in Heq; [|lia|..].
  - apply xor_shiftr_inj in Heq; [|lia|done..].
    apply xor_shiftl_inj in Heq; [done|lia|apply Hs|apply Hs'].
  - apply Z.lxor_nonneg. split; intros _; [apply Z.shiftr_nonneg|]; apply H1.
  - apply Z.lxor_nonneg. split; intros _; [apply Z.shiftr_nonneg|]; apply H1'.
Qed.

(** X8. [fastRand] maps the values of a [uint32_t] to values of a
    [uint32_t], one to one; it maps 0 to 0, and so no other state to 0. *)
Theorem fastRand_one_to_one (s s' : Z) :
  word32 s -> word32 s' ->
  word32 (fastRand s)
  /\ (fastRand s = fastRand s' -> s = s')
  /\ (fastRand s = 0 <-> s = 0).
Proof.
  intros Hs Hs'. split; [by apply fastRand_word32|]. split; [by apply fastRand_inj|].
  split.
  - intros H0. apply fastRand_inj; [done| unfold word32; lia |by rewrite H0].
  - by intros ->.
Qed.

Lemma fastRand_one_to_one_witness :
  word32 12345 /\ word32 1 /\ word32 (fastRand 12345)
  /\ (fastRand 12345 = 0 <-> 12345 = 0).
Proof.
  assert (H1 : word32 12345) by (unfold word32; lia).
  assert (H2 : word32 1) by (unfold word32; lia).
  split; [exact H1|]. split; [exact H2|].
  pose proof (fastRand_one_to_one 12345 1 H1 H2) as H.
  split; [exact (proj1 H)|exact (proj2 (proj2 H))].
Defined.

(** X9. From the seed of line 135 the state of the generator is a value
    of a [uint32_t] and is never 0, after any number of calls: the
    generator does not get stuck at 0. *)
Theorem rng_never_zero (n : nat) :
  word32 (rng_after n) /\ rng_after n <> 0.
Proof.
  induction n as [|n [IH1 IH2]].
  - split; [unfold word32, rng_after; simpl; lia|done].
  - change (rng_after (S n)) with (fastRand (rng_after n)).
    split; [by apply fastRand_word32|].
    intros H0. apply IH2.
    apply fastRand_inj; [done| unfold word32; lia |by rewrite H0].
Qed.

(** * The generator and the sine cache over the frames *)

(** ** The draws of a frame *)

Lemma chaos_level_positive (c : Z) :
  1 <= c <= 100 -> (of_int c / c100 >? zero)%f32 = true.
Proof.
  intros Hc.
  destruct (of_int_exact c) as [Fc Vc]; [simpl; lia|].
  destruct (of_int_exact 100) as [F100 V100]; [simpl; lia|].
  change (of_int 100) with c100 in F100, V100.
  assert (Hv : (1 / 100 <= IZR c / 100 <= 1)%R).
  { assert (1 <= IZR c <= 100)%R by (split; apply IZR_le; lia). lra. }
  assert (Hr : rounds (B2R (of_int c) / B2R c100) (of_int c / c100)%f32).
  { apply div_spec; [done..| rewrite V100; lra |]. rewrite Vc, V100.
    rewrite Rabs_pos_eq by lra. apply (Rle_lt_trans _ 1); [lra|].
    rewrite <- bpow_0. apply bpow_lt. lia. }
  rewrite Vc, V100 in Hr.
  apply gtb_iff; [apply Hr|apply fin32_zero|]. change (B2R zero) with 0%R.
  pose proof (rounds_close _ _ Hr) as Hcl. unfold close in Hcl.
  rewrite bpow_m23, (Rabs_pos_eq (IZR c / 100)) in Hcl by lra.
  apply Rabs_le_inv in Hcl. pose proof eta_tiny. lra.
Qed.

Lemma wave_decide_rng (x : Z) (prob sine chaos invW : float32) (rng : Z) :
  (wave_decide x prob sine chaos invW rng).2
  = if (chaos >? zero)%f32 then fastRand rng else rng.
Proof. unfold wave_decide. by destruct (chaos >? zero)%f32. Qed.

Section Draws.
Variable sinf : float32 -> float32.

Lemma dither_wave_rng (e : Engine) (i : Z) :
  g_rngState (dither_wave sinf e i)
  = if ((refresh_cache sinf e (Z.quot i (g_scaledWidth e))).1.2 >? zero)%f32
    then fastRand (g_rngState e) else g_rngState e.
Proof.
  unfold dither_wave.
  destruct (refresh_cache sinf e (Z.quot i (g_scaledWidth e))) as [[[l s] c] w].
  cbn [fst snd].
  rewrite <- (wave_decide_rng (Z.rem i (g_scaledWidth e)) (vget (g_orangeProb e) i) s c w).
  by destruct (wave_decide _ _ _ _ _ _).
Qed.

Lemma dither_wave_chaos (e : Engine) (i : Z) :
  0 <= Z.quot i (g_scaledWidth e) -> chaos_cached e ->
  (refresh_cache sinf e (Z.quot i (g_scaledWidth e))).1.2 = chaos_level e
  /\ cachedChaos (dither_wave sinf e i) = chaos_level e.
Proof.
  intros Hy Hc.
  destruct (dither_wave_fields sinf e i) as (Hs & _).
  assert (Hr : (refresh_cache sinf e (Z.quot i (g_scaledWidth e))).1.2 = chaos_level e).
  { unfold refresh_cache. destruct (decide _) as [Hne|Heq]; [done|].
    cbn [fst snd]. destruct Hc as [Hc|Hc]; [done|]. lia. }
  split; [done|].
  change (cachedChaos ?x) with (statics x).1.2. by rewrite Hs.
Qed.

Lemma random_cells_rng (l : list Z) (e : Engine) :
  g_algorithm e = 1 ->
  g_rngState (fold_left (dither_cell sinf) l e)
  = Nat.iter (length l) fastRand (g_rngState e).
Proof.
  revert e. induction l as [|i l IH]; intros e H1; [done|].
  cbn [fold_left length].
  destruct (dither_cell_same sinf e i) as (Ea & _).
  rewrite IH by congruence.
  unfold dither_cell. rewrite H1. cbn [Z.eqb Pos.eqb].
  by rewrite dither_random_rng, Nat.iter_succ_r.
Qed.

Lemma wave_cells_rng (l : list Z) (e : Engine) :
  g_algorithm e <> 1 -> chaos_cached e ->
  Forall (fun i => 0 <= i) l -> 0 <= g_scaledWidth e ->
  g_rngState (fold_left (dither_cell sinf) l e)
  = (if (chaos_level e >? zero)%f32
     then Nat.iter (length l) fastRand (g_rngState e)
     else g_rngState e)
  /\ chaos_cached (fold_left (dither_cell sinf) l e).
Proof.
  revert e. induction l as [|i l IH]; intros e H1 Hc Hl HW.
  - cbn [fold_left length Nat.iter nat_rect]. split; [by destruct (_ >? _)%f32|done].
  - cbn [fold_left length].
    destruct (dither_cell_same sinf e i) as (Ea & _ & _ & Ec & _ & _ & Ew & _).
    assert (Hlvl : chaos_level (dither_cell sinf e i) = chaos_level e)
      by (unfold chaos_level; by rewrite Ec).
    assert (Hy : 0 <= Z.quot i (g_scaledWidth e)).
    { inversion Hl; subst. destruct (decide (g_scaledWidth e = 0)) as [->|Hne].
      - by destruct i.
      - apply Z.quot_pos; lia. }
    destruct (dither_wave_chaos e i Hy Hc) as [Hused Hnew].
    assert (Hw : dither_cell sinf e i = dither_wave sinf e i).
    { unfold dither_cell. apply Z.eqb_neq in H1. by rewrite H1. }
    destruct (IH (dither_cell sinf e i)) as [Hrng Hcached].
    + congruence.
    + left. by rewrite Hlvl, Hw.
    + by inversion Hl.
    + by rewrite Ew.
    + split; [|done]. rewrite Hrng, Hlvl, Hw, dither_wave_rng, Hused.
      destruct (chaos_level e >? zero)%f32; [by rewrite Nat.iter_succ_r|done].
Qed.

Lemma advance_clock_same (e : Engine) : same_classification e (advance_clock e).
Proof. by repeat split. Qed.

Lemma frames_rng_random (n : nat) (e : Engine) :
  g_algorithm e = 1 ->
  g_rngState (frames sinf n e)
  = Nat.iter (n * length (g_ambiguousIndices e)) fastRand (g_rngState e).
Proof.
  intros H1. induction n as [|n IH]; [done|].
  rewrite frames_S.
  destruct (frames_same sinf n e) as (Ea & _ & _ & _ & _ & _ & _ & _ & _ & _ & Ei).
  unfold ditherFrame. rewrite Ea, H1. cbn [Z.eqb Pos.eqb].
  change (g_rngState (advance_clock ?x)) with (g_rngState x).
  rewrite random_cells_rng by congruence.
  rewrite Ei, IH. cbn [Nat.mul]. by rewrite Nat.iter_add.
Qed.

Lemma frames_rng_wave (n : nat) (e : Engine) :
  g_algorithm e <> 0 -> g_algorithm e <> 1 -> chaos_cached e ->
  Forall (fun i => 0 <= i) (g_ambiguousIndices e) -> 0 <= g_scaledWidth e ->
  g_rngState (frames sinf n e)
  = (if (chaos_level e >? zero)%f32
     then Nat.iter (n * length (g_ambiguousIndices e)) fastRand (g_rngState e)
     else g_rngState e)
  /\ chaos_cached (frames sinf n e).
Proof.
  intros H0 H1 Hc Hl HW. induction n as [|n [IH1 IH2]].
  - cbn [Nat.mul Nat.iter nat_rect]. split; [by destruct (_ >? _)%f32|done].
  - rewrite frames_S.
    destruct (frames_same sinf n e) as (Ea & _ & _ & Ec & _ & _ & Ew & _ & _ & _ & Ei).
    assert (Hlvl : chaos_level (frames sinf n e) = chaos_level e)
      by (unfold chaos_level; by rewrite Ec).
    unfold ditherFrame. apply Z.eqb_neq in H0. rewrite Ea, H0.
    change (g_rngState (advance_clock ?x)) with (g_rngState x).
    destruct (wave_cells_rng (g_ambiguousIndices (frames sinf n e)) (frames sinf n e))
      as [Hrng Hcached]; [congruence|done|by rewrite Ei|by rewrite Ew|].
    split; [|exact Hcached].
    rewrite Hrng, Hlvl, Ei, IH1.
    destruct (chaos_level e >? zero)%f32; [|done].
    cbn [Nat.mul]. by rewrite Nat.iter_add.
Qed.
End Draws.

(** ** The sine cache over the frames *)

Section SineCache.
Variable sinf : float32 -> float32.

Lemma wave_cells_cached (l : list Z) (e : Engine) :
  g_algorithm e <> 1 ->
  Forall (fun i => Z.quot i (g_scaledWidth e) = lastY e) l ->
  statics (fold_left (dither_cell sinf) l e) = statics e.
Proof.
  revert e. induction l as [|i l IH]; intros e H1 Hl; [done|].
  cbn [fold_left].
  destruct (dither_cell_same sinf e i) as (Ea & _ & _ & _ & _ & _ & Ew & _).
  assert (Hw : dither_cell sinf e i = dither_wave sinf e i).
  { unfold dither_cell. apply Z.eqb_neq in H1. by rewrite H1. }
  assert (Hs : statics (dither_cell sinf e i) = statics e).
  { rewrite Hw. destruct (dither_wave_fields sinf e i) as (-> & _).
    apply refresh_cache_cached. by inversion Hl. }
  rewrite IH; [done|congruence|].
  rewrite Ew. change (lastY ?x) with (statics x).1.1.1. rewrite Hs.
  by inversion Hl.
Qed.

Lemma sine_cache_frozen (n : nat) (e : Engine) :
  g_algorithm e <> 0 -> g_algorithm e <> 1 ->
  Forall (fun i => Z.quot i (g_scaledWidth e) = lastY e) (g_ambiguousIndices e) ->
  statics (frames sinf n e) = statics e.
Proof.
  intros H0 H1 Hl. induction n as [|n IH]; [done|].
  rewrite frames_S.
  destruct (frames_same sinf n e) as (Ea & _ & _ & _ & _ & _ & Ew & _ & _ & _ & Ei).
  unfold ditherFrame. apply Z.eqb_neq in H0. rewrite Ea, H0.
  rewrite advance_clock_statics, wave_cells_cached, IH; [done|congruence|].
  rewrite Ei, Ew. change (lastY ?x) with (statics x).1.1.1. by rewrite IH.
Qed.

(** X11. Under the wave strategy, when every uncertain cell lies in the
    row [y0], the statics after any number of frames, one at least, are
    the ones the first cell of the first frame computes: the sine the
    later frames use is the sine at the clock of the first frame. *)
Theorem sine_computed_once (e : Engine) (y0 : Z) (n : nat) :
  g_algorithm e <> 0 -> g_algorithm e <> 1 ->
  g_ambiguousIndices e <> [] ->
  Forall (fun i => Z.quot i (g_scaledWidth e) = y0) (g_ambiguousIndices e) ->
  lastY e <> y0 ->
  statics (frames sinf (S n) e)
  = (y0, sinf (of_int y0 * c0_8 - g_time e * two)%f32,
     (of_int (g_chaos e) / c100)%f32, (two / of_int (g_scaledWidth e))%f32).
Proof.
  intros H0 H1 Hne Hl Hy.
  assert (Hshift : forall k x, frames sinf (S k) x = frames sinf k (ditherFrame sinf x)).
  { induction k as [|k IH]; intros x; [done|].
    rewrite (frames_S sinf (S k)), IH. by rewrite frames_S. }
  rewrite Hshift.
  destruct (ditherFrame_same sinf e) as (Ea & _ & _ & _ & _ & _ & Ew & _ & _ & _ & Ei).
  assert (Hfirst : statics (ditherFrame sinf e)
            = (y0, sinf (of_int y0 * c0_8 - g_time e * two)%f32,
               (of_int (g_chaos e) / c100)%f32, (two / of_int (g_scaledWidth e))%f32)).
  { unfold ditherFrame. pose proof H0 as H0'. apply Z.eqb_neq in H0'. rewrite H0'.
    rewrite advance_clock_statics.
    destruct (g_ambiguousIndices e) as [|i l] eqn:Hidx; [done|].
    cbn [fold_left].
    destruct (dither_cell_same sinf e i) as (Fa & _ & _ & _ & _ & _ & Fw & _).
    assert (Hw : dither_cell sinf e i = dither_wave sinf e i).
    { unfold dither_cell. pose proof H1 as H1'. apply Z.eqb_neq in H1'. by rewrite H1'. }
    assert (Hs : statics (dither_cell sinf e i)
              = (y0, sinf (of_int y0 * c0_8 - g_time e * two)%f32,
                 (of_int (g_chaos e) / c100)%f32,
                 (two / of_int (g_scaledWidth e))%f32)).
    { rewrite Hw. destruct (dither_wave_fields sinf e i) as (-> & _).
      apply Forall_cons in Hl as [Hi Hl'].
      rewrite refresh_cache_fresh by (rewrite Hi; congruence). by rewrite Hi. }
    rewrite wave_cells_cached; [done|congruence|].
    rewrite Fw. change (lastY ?x) with (statics x).1.1.1. rewrite Hs. cbn [fst snd].
    by apply Forall_cons in Hl as [_ Hl']. }
  rewrite sine_cache_frozen; [done|congruence..|].
  rewrite Ei, Ew. change (lastY ?x) with (statics x).1.1.1. rewrite Hfirst.
  cbn [fst snd]. done.
Qed.
End SineCache.

Lemma sine_computed_once_witness :
  g_algorithm one_row_engine <> 0 /\ g_algorithm one_row_engine <> 1
  /\ g_ambiguousIndices one_row_engine <> []
  /\ Forall (fun i => Z.quot i (g_scaledWidth one_row_engine) = 0)
       (g_ambiguousIndices one_row_engine)
  /\ lastY one_row_engine <> 0
  /\ statics (frames sinf_linear 3 one_row_engine)
     = (0, sinf_linear (of_int 0 * c0_8 - g_time one_row_engine * two)%f32,
        (of_int (g_chaos one_row_engine) / c100)%f32,
        (two / of_int (g_scaledWidth one_row_engine))%f32).
Proof.
  assert (H0 : g_algorithm one_row_engine <> 0) by discriminate.
  assert (H1 : g_algorithm one_row_engine <> 1) by discriminate.
  assert (Hne : g_ambiguousIndices one_row_engine <> []) by (vm_compute; discriminate).
  assert (Hl : Forall (fun i => Z.quot i (g_scaledWidth one_row_engine) = 0)
                 (g_ambiguousIndices one_row_engine))
    by (vm_compute; repeat constructor).
  assert (Hy : lastY one_row_engine <> 0) by discriminate.
  split; [exact H0|]. split; [exact H1|]. split; [exact Hne|]. split; [exact Hl|].
  split; [exact Hy|].
  exact (sine_computed_once sinf_linear one_row_engine 0 2 H0 H1 Hne Hl Hy).
Defined.

(** ** The draws of any number of frames *)

Lemma chaos_level_gtb (e : Engine) :
  0 <= g_chaos e <= 100 ->
  (chaos_level e >? zero)%f32 = negb (g_chaos e =? 0).
Proof.
  intros Hc. unfold chaos_level. destruct (Z.eqb_spec (g_chaos e) 0) as [->|Hne].
  - reflexivity.
  - apply chaos_level_positive. lia.
Qed.

(** X10. The generator is advanced once for every uncertain cell of every
    frame under the random strategy and under the wave strategy with a
    chaos above 0, and not at all under the static strategy and under the
    wave strategy with chaos 0. *)
Theorem draws_per_frame (sinf : float32 -> float32) (e : Engine) (n : nat) :
  0 <= g_chaos e <= 100 -> chaos_cached e ->
  Forall (fun i => 0 <= i) (g_ambiguousIndices e) -> 0 <= g_scaledWidth e ->
  g_rngState (frames sinf n e)
  = if (g_algorithm e =? 0) || (negb (g_algorithm e =? 1) && (g_chaos e =? 0))
    then g_rngState e
    else Nat.iter (n * length (g_ambiguousIndices e)) fastRand (g_rngState e).
Proof.
  intros Hc Hcached Hl HW.
  destruct (Z.eqb_spec (g_algorithm e) 0) as [H0|H0].
  - cbn [orb]. by rewrite frames_static.
  - destruct (Z.eqb_spec (g_algorithm e) 1) as [H1|H1].
    + cbn [orb negb andb]. by apply frames_rng_random.
    + cbn [orb negb andb].
      destruct (frames_rng_wave sinf n e H0 H1 Hcached Hl HW) as [-> _].
      rewrite chaos_level_gtb by done. by destruct (g_chaos e =? 0).
Qed.

Lemma draws_per_frame_witness :
  0 <= g_chaos (sample_engine 2) <= 100 /\ chaos_cached (sample_engine 2)
  /\ Forall (fun i => 0 <= i) (g_ambiguousIndices (sample_engine 2))
  /\ 0 <= g_scaledWidth (sample_engine 2)
  /\ g_rngState (frames sinf_linear 2 (sample_engine 2))
     = Nat.iter (2 * 12) fastRand 12345.
Proof.
  assert (Hc : 0 <= g_chaos (sample_engine 2) <= 100)
    by (vm_compute; split; discriminate).
  assert (Hcached : chaos_cached (sample_engine 2)) by (by right).
  assert (Hl : Forall (fun i => 0 <= i) (g_ambiguousIndices (sample_engine 2)))
    by (vm_compute; repeat (constructor; [discriminate|]); constructor).
  assert (HW : 0 <= g_scaledWidth (sample_engine 2)) by (vm_compute; discriminate).
  split; [exact Hc|]. split; [exact Hcached|]. split; [exact Hl|]. split; [exact HW|].
  exact (draws_per_frame sinf_linear (sample_engine 2) 2 Hc Hcached Hl HW).
Defined.

(** * The command line and the start of the program *)

(** ** The command line *)

Ltac split_ltb :=
  repeat match goal with
  | |- context [?a <? ?b] =>
      lazymatch a with context [Z.ltb] => fail | _ => idtac end;
      lazymatch b with context [Z.ltb] => fail | _ => idtac end;
      destruct (Z.ltb_spec a b); simpl
  end.

Lemma validate_valid (c : Config) : valid_config (validate c).
Proof.
  unfold valid_config, validate. cbn [c_algorithm c_threshold c_pixelSize c_maxFps c_chaos].
  split_ltb; lia.
Qed.

Lemma validate_id (c : Config) : valid_config c -> validate c = c.
Proof.
  intros (Ha & Ht & Hp & Hf & Hc). destruct c as [a t p f pr ch].
  unfold validate. cbn [c_algorithm c_threshold c_pixelSize c_maxFps c_chaos c_profile] in *.
  split_ltb; try reflexivity; lia.
Qed.

(** X12. Whatever the command line holds, after the validation of lines
    767-773 the algorithm is 0, 1 or 2, the threshold is between 0 and
    255, the block size is at least 1, the frame limit is not negative and
    chaos is between 0 and 100.  An algorithm out of range becomes 1, the
    random strategy, not the default 2; the other values are clamped to
    the nearest bound.  A configuration in range is left as it is, and
    validating twice is validating once. *)
Theorem validate_spec (c : Config) :
  let v := validate c in
  valid_config v
  /\ (valid_config c -> v = c)
  /\ validate v = v
  /\ (c_algorithm c < 0 \/ 2 < c_algorithm c -> c_algorithm v = 1)
  /\ c_threshold v = Z.max 0 (Z.min 255 (c_threshold c))
  /\ c_pixelSize v = Z.max 1 (c_pixelSize c)
  /\ c_maxFps v = Z.max 0 (c_maxFps c)
  /\ c_chaos v = Z.max 0 (Z.min 100 (c_chaos c))
  /\ c_profile v = c_profile c.
Proof.
  intros v. split; [apply validate_valid|]. split; [apply validate_id|].
  split; [apply validate_id, validate_valid|].
  subst v. unfold validate.
  cbn [c_algorithm c_threshold c_pixelSize c_maxFps c_chaos c_profile].
  repeat split; split_ltb; lia.
Qed.

(** ** The start of the program *)

Lemma engine_of_default : engine_of default_config = initial_engine.
Proof. reflexivity. Qed.




(** * The rendering of X11 *)

(** ** The rendering loop *)

Lemma vset4_memcpy4 (data : list Z) (i a b c d : Z) :
  0 <= i ->
  vset (vset (vset (vset data (i + 0) a) (i + 1) b) (i + 2) c) (i + 3) d
  = memcpy4 data i [a; b; c; d].
Proof.
  intros Hi. unfold vset, memcpy4. cbn [list_inserts].
  replace (Z.to_nat (i + 0)) with (Z.to_nat i) by lia.
  replace (Z.to_nat (i + 1)) with (S (Z.to_nat i)) by lia.
  replace (Z.to_nat (i + 2)) with (S (S (Z.to_nat i))) by lia.
  replace (Z.to_nat (i + 3)) with (S (S (S (Z.to_nat i)))) by lia.
  set (n := Z.to_nat i).
  rewrite (list_insert_insert_ne _ (S (S (S n))) (S (S n))) by lia.
  rewrite (list_insert_insert_ne _ (S (S (S n))) (S n)) by lia.
  rewrite (list_insert_insert_ne _ (S (S (S n))) n) by lia.
  rewrite (list_insert_insert_ne _ (S (S n)) (S n)) by lia.
  rewrite (list_insert_insert_ne _ (S (S n)) n) by lia.
  rewrite (list_insert_insert_ne _ (S n) n) by lia.
  done.
Qed.

Lemma slot_bgrx (buf : list Z) (i : Z) :
  0 <= i -> i * 4 + 4 <= Z.of_nat (length buf) ->
  bgrx (slot buf i) = [vget buf (i * 4 + 2); vget buf (i * 4 + 1); vget buf (i * 4 + 0); 0].
Proof.
  intros Hi Hlen. unfold bgrx, vget.
  assert (Hk : forall k : nat, (k < 4)%nat ->
            slot buf i !!! k = buf !!! (Z.to_nat (i * 4) + k)%nat).
  { intros k Hk. rewrite !list_lookup_total_alt, slot_lookup.
    by destruct (decide (k < 4)%nat). }
  change (Z.to_nat 2) with 2%nat. change (Z.to_nat 1) with 1%nat.
  change (Z.to_nat 0) with 0%nat.
  rewrite !Hk by lia.
  repeat f_equal; lia.
Qed.

Lemma clamp_min (n q : Z) : (if n <=? q then n - 1 else q) = Z.min q (n - 1).
Proof. destruct (Z.leb_spec n q); lia. Qed.

Lemma cell_of_pixel_range (e : Engine) (x y : Z) :
  geometry_ok e -> 0 <= x -> 0 <= y ->
  0 <= cell_of_pixel e x y < g_scaledWidth e * g_scaledHeight e.
Proof.
  intros (Hp & _ & _ & HW & HH & _) Hx Hy. unfold cell_of_pixel.
  pose proof (Z.div_pos x (g_pixelSize e) Hx ltac:(lia)).
  pose proof (Z.div_pos y (g_pixelSize e) Hy ltac:(lia)).
  apply cell_index_range; lia.
Qed.

Lemma render_pixel_memcpy4 (e : Engine) (x y : Z) (data : list Z) :
  geometry_ok e -> 0 <= x -> 0 <= y -> 0 <= g_imgWidth e ->
  render_pixel e x y data
  = memcpy4 data ((y * g_imgWidth e + x) * 4)
      (bgrx (slot (g_scaledPixels e) (cell_of_pixel e x y))).
Proof.
  intros Hg Hx Hy Hw.
  pose proof (cell_of_pixel_range e x y Hg Hx Hy) as Hc.
  destruct Hg as (Hp & _ & _ & HW & HH & Hlen).
  unfold render_pixel. cbv zeta. rewrite !clamp_min.
  rewrite !Z.quot_div_nonneg by lia.
  fold (cell_of_pixel e x y).
  rewrite vset4_memcpy4 by nia.
  rewrite slot_bgrx by nia. done.
Qed.

Lemma render_pixel_step (e : Engine) (x y : Z) (data : list Z) :
  geometry_ok e -> 0 <= x < g_imgWidth e -> 0 <= y < g_imgHeight e ->
  rendered e (y * g_imgWidth e + x) data ->
  rendered e (y * g_imgWidth e + x + 1) (render_pixel e x y data).
Proof.
  intros Hg Hx Hy [Hlen Hpix].
  rewrite render_pixel_memcpy4 by (done || lia).
  pose proof (cell_index_range (g_imgWidth e) (g_imgHeight e) x y Hx Hy) as Hi.
  split.
  - by rewrite memcpy4_length.
  - intros x' y' Hx' Hy' Hdone.
    destruct (decide (y' * g_imgWidth e + x' = y * g_imgWidth e + x)) as [Heq|Hne].
    + destruct (cell_unique (g_imgWidth e) x y x' y' Hx Hx' Heq) as [-> ->].
      apply slot_memcpy4_same; [lia|done|lia].
    + rewrite slot_memcpy4_other by (done || nia). apply Hpix; [done..|lia].
Qed.

Lemma platformRender_rendered (e : Engine) (data : list Z) :
  geometry_ok e -> 0 <= g_imgWidth e -> 0 <= g_imgHeight e ->
  Z.of_nat (length data) = g_imgWidth e * g_imgHeight e * 4 ->
  rendered e (g_imgWidth e * g_imgHeight e) (platformRender e data).
Proof.
  intros Hg Hw Hh Hlen. unfold platformRender.
  apply (nested_range_ind (rendered e)); [done|done| |].
  - split; [done|]. intros x y Hx Hy Hlt. nia.
  - intros x y acc Hx Hy Hacc. by apply render_pixel_step.
Qed.

Lemma loaded_geometry (sinf : float32 -> float32) (img : Image)
    (screenWidth screenHeight : Z) (e0 : Engine) (n : nat) :
  screen_ok screenWidth screenHeight e0 ->
  g_pixelSize e0 <= screenWidth -> g_pixelSize e0 <= screenHeight ->
  let e := frames sinf n (loadAndPrepareImage (Some img) screenWidth screenHeight e0) in
  geometry_ok e /\ ready e
  /\ g_imgWidth e = screenWidth /\ g_imgHeight e = screenHeight.
Proof.
  intros Hok Hpw Hph e.
  pose proof (load_ready img _ _ _ Hok) as Hr0.
  pose proof (frames_ready sinf n _ Hr0) as Hr. fold e in Hr.
  destruct (frames_same sinf n (loadAndPrepareImage (Some img) screenWidth screenHeight e0))
    as (_ & _ & Ep & _ & Eiw & Eih & Ew & Eh & _).
  fold e in Ep, Eiw, Eih, Ew, Eh.
  cbn [loadAndPrepareImage g_pixelSize g_imgWidth g_imgHeight g_scaledWidth
       g_scaledHeight] in Ep, Eiw, Eih, Ew, Eh.
  destruct Hok as (Hw & Hh & Hp).
  split; [|split; [done|split; done]].
  unfold geometry_ok. rewrite Ep, Eiw, Eih, Ew, Eh.
  pose proof (rd_pixels_len _ Hr) as Hlen. unfold cells in Hlen. rewrite Ew, Eh in Hlen.
  assert (1 <= Z.quot screenWidth (g_pixelSize e0)).
  { rewrite Z.quot_div_nonneg by lia. apply Z.div_le_lower_bound; lia. }
  assert (1 <= Z.quot screenHeight (g_pixelSize e0)).
  { rewrite Z.quot_div_nonneg by lia. apply Z.div_le_lower_bound; lia. }
  repeat split; done || lia.
Qed.

(** X14. [platformRender] of X11 writes every pixel of the screen: after
    any number of frames the four bytes of the pixel [(x, y)] are the
    blue, green and red bytes of the cell [(min (x / pixelSize) (W - 1),
    min (y / pixelSize) (H - 1))], a cell of the grid, and a 0; they are
    the bytes of black or of the accent colour; and where the grid covers
    the screen the cell is [(x / pixelSize, y / pixelSize)], the clamp
    only serving the margin the blocks leave at the right and at the
    bottom. *)
Theorem platformRender_spec (sinf : float32 -> float32) (img : Image)
    (screenWidth screenHeight : Z) (e0 : Engine) (n : nat)
    (data : list Z) (x y : Z) :
  screen_ok screenWidth screenHeight e0 ->
  g_pixelSize e0 <= screenWidth -> g_pixelSize e0 <= screenHeight ->
  Z.of_nat (length data) = screenWidth * screenHeight * 4 ->
  0 <= x < screenWidth -> 0 <= y < screenHeight ->
  let e := frames sinf n (loadAndPrepareImage (Some img) screenWidth screenHeight e0) in
  let out := platformRender e data in
  let cell := cell_of_pixel e x y in
  length out = length data
  /\ 0 <= cell < cells e
  /\ slot out (y * screenWidth + x) = bgrx (slot (g_scaledPixels e) cell)
  /\ (slot out (y * screenWidth + x) = [0; 0; 0; 0]
      \/ slot out (y * screenWidth + x) = [0; 140; 255; 0])
  /\ (x < g_scaledWidth e * g_pixelSize e -> y < g_scaledHeight e * g_pixelSize e ->
      cell = y / g_pixelSize e * g_scaledWidth e + x / g_pixelSize e).
Proof.
  intros Hok Hpw Hph Hlen Hx Hy e out cell.
  destruct (loaded_geometry sinf img _ _ e0 n Hok Hpw Hph) as (Hg & Hr & Ew & Eh).
  fold e in Hg, Hr, Ew, Eh.
  destruct (platformRender_rendered e data Hg) as [Hol Hop];
    [rewrite Ew; lia | rewrite Eh; lia | by rewrite Ew, Eh |].
  fold out in Hol, Hop.
  pose proof (cell_of_pixel_range e x y Hg ltac:(lia) ltac:(lia)) as Hc. fold cell in Hc.
  assert (Hslot : slot out (y * screenWidth + x) = bgrx (slot (g_scaledPixels e) cell)).
  { rewrite <- Ew. apply Hop; rewrite ?Ew, ?Eh; [lia|lia|nia]. }
  split; [rewrite Ew, Eh in Hol; lia|].
  split; [done|]. split; [done|]. split.
  - rewrite Hslot. destruct (rd_two _ Hr cell Hc) as [-> | ->]; [by left|by right].
  - intros Hxc Hyc. subst cell. unfold cell_of_pixel.
    destruct Hg as (Hp & _ & _ & HW & HH & _).
    assert (x / g_pixelSize e < g_scaledWidth e) by (apply Z.div_lt_upper_bound; lia).
    assert (y / g_pixelSize e < g_scaledHeight e) by (apply Z.div_lt_upper_bound; lia).
    by rewrite !Z.min_l by lia.
Qed.

Lemma platformRender_spec_witness :
  screen_ok 5 5 (configured 1 40 2 10)
  /\ g_pixelSize (configured 1 40 2 10) <= 5
  /\ Z.of_nat (length (replicate 100 0)) = 5 * 5 * 4
  /\ 0 <= 4 < 5
  /\ slot (platformRender
             (frames sinf_linear 1
                (loadAndPrepareImage (Some sample_image) 5 5 (configured 1 40 2 10)))
             (replicate 100 0)) (4 * 5 + 4)
     = bgrx (slot (g_scaledPixels
                     (frames sinf_linear 1
                        (loadAndPrepareImage (Some sample_image) 5 5
                           (configured 1 40 2 10))))
                  (cell_of_pixel
                     (frames sinf_linear 1
                        (loadAndPrepareImage (Some sample_image) 5 5
                           (configured 1 40 2 10))) 4 4)).
Proof.
  assert (Hok : screen_ok 5 5 (configured 1 40 2 10)) by (unfold screen_ok; simpl; lia).
  assert (Hp : g_pixelSize (configured 1 40 2 10) <= 5) by (simpl; lia).
  assert (Hlen : Z.of_nat (length (replicate 100 0)) = 5 * 5 * 4) by reflexivity.
  assert (H4 : 0 <= 4 < 5) by lia.
  split; [exact Hok|]. split; [exact Hp|]. split; [exact Hlen|]. split; [exact H4|].
  exact (proj1 (proj2 (proj2 (platformRender_spec sinf_linear sample_image 5 5
                  (configured 1 40 2 10) 1 (replicate 100 0) 4 4
                  Hok Hp Hp Hlen H4 H4)))).
Defined.

Lemma slots_eq (l l' : list Z) (n : Z) :
  Z.of_nat (length l) = n * 4 -> Z.of_nat (length l') = n * 4 ->
  (forall i, 0 <= i < n -> slot l i = slot l' i) ->
  l = l'.
Proof.
  intros Hl Hl' Hs. apply list_eq. intros k.
  destruct (decide (Z.of_nat k < n * 4)) as [Hlt|Hge].
  - assert (Hi : 0 <= Z.of_nat k / 4 < n).
    { split; [apply Z.div_pos; lia|apply Z.div_lt_upper_bound; lia]. }
    pose proof (Z.div_mod (Z.of_nat k) 4 ltac:(lia)) as Hdm.
    pose proof (Z.mod_pos_bound (Z.of_nat k) 4 ltac:(lia)) as Hr.
    pose proof (f_equal (fun s => s !! Z.to_nat (Z.of_nat k mod 4)) (Hs _ Hi)) as Hk.
    cbv beta in Hk. rewrite !slot_lookup in Hk.
    destruct (decide _) as [_|Hbad] in Hk; [|lia].
    replace (Z.to_nat (Z.of_nat k / 4 * 4) + Z.to_nat (Z.of_nat k mod 4))%nat with k
      in Hk by lia.
    done.
  - rewrite !lookup_ge_None_2 by lia. done.
Qed.

(** X15. [platformRender] of X11 overwrites the whole of [g_imageData]:
    what it hands to [XPutImage] does not depend on what the buffer held
    before, so nothing of an earlier frame is left on the screen. *)
Theorem platformRender_overwrites (sinf : float32 -> float32) (img : Image)
    (screenWidth screenHeight : Z) (e0 : Engine) (n : nat) (data data' : list Z) :
  screen_ok screenWidth screenHeight e0 ->
  g_pixelSize e0 <= screenWidth -> g_pixelSize e0 <= screenHeight ->
  Z.of_nat (length data) = screenWidth * screenHeight * 4 ->
  Z.of_nat (length data') = screenWidth * screenHeight * 4 ->
  let e := frames sinf n (loadAndPrepareImage (Some img) screenWidth screenHeight e0) in
  platformRender e data = platformRender e data'.
Proof.
  intros Hok Hpw Hph Hlen Hlen' e.
  destruct (loaded_geometry sinf img _ _ e0 n Hok Hpw Hph) as (Hg & Hr & Ew & Eh).
  fold e in Hg, Hr, Ew, Eh.
  destruct Hok as (Hw & Hh & Hp).
  destruct (platformRender_rendered e data Hg) as [Hol Hop];
    [rewrite Ew; lia | rewrite Eh; lia | by rewrite Ew, Eh |].
  destruct (platformRender_rendered e data' Hg) as [Hol' Hop'];
    [rewrite Ew; lia | rewrite Eh; lia | by rewrite Ew, Eh |].
  apply (slots_eq _ _ (g_imgWidth e * g_imgHeight e)); [done|done|].
  intros i Hi.
  assert (0 < g_imgWidth e) by nia.
  pose proof (Z.mod_pos_bound i (g_imgWidth e) ltac:(lia)) as Hx.
  pose proof (Z.div_pos i (g_imgWidth e) ltac:(lia) ltac:(lia)) as Hy.
  pose proof (Z.div_mod i (g_imgWidth e) ltac:(lia)) as Hdm.
  replace i with (i / g_imgWidth e * g_imgWidth e + i mod g_imgWidth e) by lia.
  rewrite Hop, Hop' by (done || lia). done.
Qed.

Lemma platformRender_overwrites_witness :
  screen_ok 5 5 (configured 1 40 2 10)
  /\ g_pixelSize (configured 1 40 2 10) <= 5
  /\ Z.of_nat (length (replicate 100 0)) = 5 * 5 * 4
  /\ Z.of_nat (length (replicate 100 7)) = 5 * 5 * 4
  /\ platformRender
       (frames sinf_linear 1
          (loadAndPrepareImage (Some sample_image) 5 5 (configured 1 40 2 10)))
       (replicate 100 0)
     = platformRender
         (frames sinf_linear 1
            (loadAndPrepareImage (Some sample_image) 5 5 (configured 1 40 2 10)))
         (replicate 100 7).
Proof.
  assert (Hok : screen_ok 5 5 (configured 1 40 2 10)) by (unfold screen_ok; simpl; lia).
  assert (Hp : g_pixelSize (configured 1 40 2 10) <= 5) by (simpl; lia).
  assert (Hlen : Z.of_nat (length (replicate 100 0)) = 5 * 5 * 4) by reflexivity.
  assert (Hlen' : Z.of_nat (length (replicate 100 7)) = 5 * 5 * 4) by reflexivity.
  split; [exact Hok|]. split; [exact Hp|]. split; [exact Hlen|]. split; [exact Hlen'|].
  exact (platformRender_overwrites sinf_linear sample_image 5 5 (configured 1 40 2 10) 1
           (replicate 100 0) (replicate 100 7) Hok Hp Hp Hlen Hlen').
Defined.

(** * The picture, the stored probabilities and the strategies *)

(** ** The buffer after [loadAndPrepareImage] *)

Lemma load_painted img screenWidth screenHeight e0 i :
  screen_ok screenWidth screenHeight e0 ->
  let e := loadAndPrepareImage (Some img) screenWidth screenHeight e0 in
  0 <= i < cells e ->
  slot (g_scaledPixels e) i = colour_of (vget (g_pixelStates e) i).
Proof.
  intros (Hw & Hh & Hp) e Hi. subst e. unfold cells in Hi.
  cbn [loadAndPrepareImage g_scaledPixels g_pixelStates g_scaledWidth g_scaledHeight] in *.
  apply init_buffer_painted; [by apply quot_nonneg..|done].
Qed.

(** X16. After [loadAndPrepareImage] the slot of a Black cell holds
    black and the slot of every other cell, Accent or Uncertain, holds the
    accent colour; under the static strategy this is the picture after
    any number of frames. *)
Theorem initial_picture (sinf : float32 -> float32) (img : Image)
    (screenWidth screenHeight : Z) (e0 : Engine) (n : nat) (i : Z) :
  screen_ok screenWidth screenHeight e0 ->
  let e := loadAndPrepareImage (Some img) screenWidth screenHeight e0 in
  0 <= i < cells e ->
  (vget (g_pixelStates e) i = PIXEL_BLACK -> slot (g_scaledPixels e) i = BLACK_RGBA)
  /\ (vget (g_pixelStates e) i <> PIXEL_BLACK -> slot (g_scaledPixels e) i = ORANGE_RGBA)
  /\ (g_algorithm e0 = 0 ->
      slot (g_scaledPixels (frames sinf n e)) i = slot (g_scaledPixels e) i).
Proof.
  intros Hok e Hi. pose proof (load_painted img _ _ e0 i Hok Hi) as Hs. fold e in Hs.
  unfold colour_of in Hs. split; [|split].
  - intros Hb. rewrite Hs. by destruct (decide _).
  - intros Hb. rewrite Hs. by destruct (decide _).
  - intros H0. by rewrite frames_static.
Qed.

Lemma initial_picture_witness :
  screen_ok 4 4 (with_algorithm 0 initial_engine)
  /\ 0 <= 5 < cells (sample_engine 0)
  /\ (vget (g_pixelStates (sample_engine 0)) 5 <> PIXEL_BLACK ->
      slot (g_scaledPixels (sample_engine 0)) 5 = ORANGE_RGBA).
Proof.
  assert (Hok : screen_ok 4 4 (with_algorithm 0 initial_engine))
    by (unfold screen_ok; simpl; lia).
  assert (Hi : 0 <= 5 < cells (sample_engine 0))
    by (vm_compute; split; [discriminate|reflexivity]).
  split; [exact Hok|]. split; [exact Hi|].
  exact (proj1 (proj2 (initial_picture sinf_linear sample_image 4 4
                  (with_algorithm 0 initial_engine) 0 5 Hok Hi))).
Defined.

(** ** The stored probabilities *)

Lemma classify_cell_sparse W imgFloat n x y c :
  0 <= y * W + x < n ->
  sparse imgFloat n (y * W + x) c ->
  sparse imgFloat n (y * W + x + 1) (classify_cell W imgFloat x y c).
Proof.
  intros Hi [Hlen Hz]. unfold classify_cell.
  set (i := y * W + x) in *.
  replace ((y * W + x) * 3) with (i * 3) by (subst i; lia).
  fold (cell_prob imgFloat i). fold (cell_state imgFloat i).
  destruct (cell_state imgFloat i) eqn:Hst; split; cbn [c_prob];
    rewrite ?vset_length; try done.
  - intros j Hj Hcase. apply Hz; [done|]. destruct Hcase; [left; lia|by right].
  - intros j Hj Hcase. apply Hz; [done|]. destruct Hcase; [left; lia|by right].
  - intros j Hj Hcase. destruct (decide (j = i)) as [->|Hne].
    + destruct Hcase; [lia|congruence].
    + rewrite vget_vset_other by lia. apply Hz; [done|].
      destruct Hcase; [left; lia|by right].
Qed.

Lemma classify_all_sparse (W H : Z) (imgFloat : list float32) :
  0 <= W -> 0 <= H ->
  sparse imgFloat (W * H) (W * H) (classify_all W H imgFloat).
Proof.
  intros HW HH. unfold classify_all.
  apply (nested_range_ind (sparse imgFloat (W * H))); [done|done| |].
  - split; cbn [c_prob]; [rewrite length_replicate; lia|].
    intros i Hi _. unfold vget. rewrite list_lookup_total_alt.
    destruct (replicate _ _ !! _) as [v|] eqn:Hl; [|done].
    by apply lookup_replicate in Hl as [-> _].
  - intros x y acc Hx Hy Hacc. apply classify_cell_sparse; [|done].
    by apply cell_index_range.
Qed.

(** X17. After [loadAndPrepareImage] and any number of frames,
    [g_orangeProb] holds the zero of [resize] for every cell that is not
    Uncertain, and for an Uncertain cell a finite float between 0.3 and
    0.7, both included. *)
Theorem stored_probabilities (sinf : float32 -> float32) (img : Image)
    (screenWidth screenHeight : Z) (e0 : Engine) (n : nat) (i : Z) :
  image_ok img -> screen_ok screenWidth screenHeight e0 ->
  let e := loadAndPrepareImage (Some img) screenWidth screenHeight e0 in
  grid_ok e -> 0 <= i < cells e ->
  let prob := vget (g_orangeProb (frames sinf n e)) i in
  (vget (g_pixelStates e) i <> PIXEL_AMBIGUOUS -> prob = zero)
  /\ (vget (g_pixelStates e) i = PIXEL_AMBIGUOUS ->
      fin32 prob /\ (c0_3 <=? prob)%f32 = true /\ (prob <=? c0_7)%f32 = true).
Proof.
  intros Himg (Hw & Hh & Hp) e (GW & GH & Gt) Hi prob.
  destruct (frames_same sinf n e) as (_&_&_&_&_&_&_&_&_& Eprob &_).
  subst prob. rewrite Eprob. clear Eprob.
  unfold cells in Hi. subst e.
  cbn [loadAndPrepareImage g_scaledWidth g_scaledHeight g_threshold g_pixelStates
       g_orangeProb] in *.
  set (W := Z.quot screenWidth (g_pixelSize e0)) in *.
  set (H := Z.quot screenHeight (g_pixelSize e0)) in *.
  assert (HW : 0 <= W) by (by apply quot_nonneg).
  assert (HH : 0 <= H) by (by apply quot_nonneg).
  set (imgFloat := resample img W H (g_threshold e0)) in *.
  destruct (classify_all_classified W H imgFloat HW HH) as [_ _ Hst Hpr _].
  destruct (classify_all_sparse W H imgFloat HW HH) as [_ Hz].
  rewrite (Hst i Hi). split.
  - intros Hne. apply Hz; [done|by right].
  - intros Hamb. rewrite (Hpr i Hi Hamb).
    destruct (loaded_cell img W H (g_threshold e0) i) as [_ Hnear]; [done|lia..|].
    fold imgFloat in Hnear. destruct Hnear as (Nr & Ng & Nb).
    unfold cell_triple in Nr, Ng, Nb. cbn [fst snd] in Nr, Ng, Nb.
    apply near_unit_within in Nr, Ng, Nb.
    destruct (orangeProb_fin _ _ _ Nr Ng Nb) as [Hf _].
    fold (cell_prob imgFloat i) in Hf.
    split; [apply Hf|].
    destruct (classify_spec (cell_prob imgFloat i)) as (_ & _ & HA); [apply Hf|].
    apply andb_true_iff. by apply HA.
Qed.

Lemma stored_probabilities_witness :
  image_ok sample_image /\ screen_ok 4 4 (with_algorithm 2 initial_engine)
  /\ grid_ok (sample_engine 2) /\ 0 <= 0 < cells (sample_engine 2)
  /\ (vget (g_pixelStates (sample_engine 2)) 0 <> PIXEL_AMBIGUOUS ->
      vget (g_orangeProb (frames sinf_linear 1 (sample_engine 2))) 0 = zero).
Proof.
  assert (Himg : image_ok sample_image).
  { unfold image_ok. simpl. split; [lia|]. split; [lia|]. repeat constructor; lia. }
  assert (Hok : screen_ok 4 4 (with_algorithm 2 initial_engine))
    by (unfold screen_ok; simpl; lia).
  assert (Hg : grid_ok (sample_engine 2)) by (vm_compute; repeat split; discriminate).
  assert (Hi : 0 <= 0 < cells (sample_engine 2))
    by (vm_compute; split; [discriminate|reflexivity]).
  split; [exact Himg|]. split; [exact Hok|]. split; [exact Hg|]. split; [exact Hi|].
  exact (proj1 (stored_probabilities sinf_linear sample_image 4 4
                  (with_algorithm 2 initial_engine) 1 0 Himg Hok Hg Hi)).
Defined.

(** ** The wave strategy with chaos 0 and the generator *)

Section WaveGenerator.
Variable sinf : float32 -> float32.

Lemma dither_wave_with_rng (r : Z) (e : Engine) (i : Z) :
  ((refresh_cache sinf e (Z.quot i (g_scaledWidth e))).1.2 >? zero)%f32 = false ->
  dither_wave sinf (with_rng r e) i = with_rng r (dither_wave sinf e i).
Proof.
  intros Hc. unfold dither_wave.
  change (refresh_cache sinf (with_rng r e) ?y) with (refresh_cache sinf e y).
  cbn [with_rng g_scaledWidth g_orangeProb g_rngState].
  destruct (refresh_cache sinf e (Z.quot i (g_scaledWidth e))) as [[[l s] c] w].
  cbn [fst snd] in Hc. unfold wave_decide. by rewrite Hc.
Qed.

Lemma wave_cells_with_rng (l : list Z) (e : Engine) (r : Z) :
  g_algorithm e <> 1 -> g_chaos e = 0 -> chaos_cached e ->
  Forall (fun i => 0 <= i) l -> 0 <= g_scaledWidth e ->
  fold_left (dither_cell sinf) l (with_rng r e)
  = with_rng r (fold_left (dither_cell sinf) l e).
Proof.
  revert e. induction l as [|i l IH]; intros e H1 Hc Hcached Hl HW; [done|].
  cbn [fold_left].
  destruct (dither_cell_same sinf e i) as (Ea & _ & _ & Ec & _ & _ & Ew & _).
  assert (Hy : 0 <= Z.quot i (g_scaledWidth e)).
  { apply Forall_cons in Hl as [Hi _].
    destruct (decide (g_scaledWidth e = 0)) as [->|Hne]; [by destruct i|].
    apply Z.quot_pos; lia. }
  destruct (dither_wave_chaos sinf e i Hy Hcached) as [Hused Hnew].
  assert (Hzero : ((refresh_cache sinf e (Z.quot i (g_scaledWidth e))).1.2 >? zero)%f32
                  = false).
  { rewrite Hused. unfold chaos_level. by rewrite Hc. }
  assert (Hw : dither_cell sinf e i = dither_wave sinf e i).
  { unfold dither_cell. apply Z.eqb_neq in H1. by rewrite H1. }
  assert (Hw' : dither_cell sinf (with_rng r e) i = dither_wave sinf (with_rng r e) i).
  { unfold dither_cell. cbn [with_rng g_algorithm]. apply Z.eqb_neq in H1. by rewrite H1. }
  rewrite Hw', dither_wave_with_rng, <- Hw by done.
  apply IH; [congruence|congruence| |by apply Forall_cons in Hl as [_ Hl]|by rewrite Ew].
  left. rewrite Hw, Hnew. unfold chaos_level. by rewrite <- Hw, Ec.
Qed.

(** X18. Under the wave strategy with chaos 0 the frames do not read the
    generator: from two engines that differ in the state of the generator
    only, any number of frames gives engines that differ in the state of
    the generator only, so the same picture. *)
Theorem wave_ignores_generator (e : Engine) (r : Z) (n : nat) :
  g_algorithm e <> 1 -> g_chaos e = 0 -> chaos_cached e ->
  Forall (fun i => 0 <= i) (g_ambiguousIndices e) -> 0 <= g_scaledWidth e ->
  frames sinf n (with_rng r e) = with_rng r (frames sinf n e)
  /\ g_scaledPixels (frames sinf n (with_rng r e)) = g_scaledPixels (frames sinf n e).
Proof.
  intros H1 Hc Hcached Hl HW.
  assert (Heq : frames sinf n (with_rng r e) = with_rng r (frames sinf n e)
                /\ chaos_cached (frames sinf n e)).
  { induction n as [|n [IH Hcn]]; [done|].
    rewrite !frames_S, IH.
    destruct (frames_same sinf n e) as (Ea & _ & _ & Ec & _ & _ & Ew & _ & _ & _ & Ei).
    set (en := frames sinf n e) in *.
    unfold ditherFrame. cbn [with_rng g_algorithm g_ambiguousIndices].
    destruct (g_algorithm en =? 0) eqn:H0; [done|].
    destruct (wave_cells_rng sinf (g_ambiguousIndices en) en) as [_ Hcached'];
      [congruence|done|by rewrite Ei|by rewrite Ew|].
    split; [|exact Hcached'].
    rewrite wave_cells_with_rng; [done|congruence|congruence|done| |].
    - by rewrite Ei.
    - by rewrite Ew. }
  destruct Heq as [Heq _]. split; [done|]. by rewrite Heq.
Qed.
End WaveGenerator.

Lemma wave_ignores_generator_witness :
  g_algorithm one_row_engine <> 1 /\ g_chaos one_row_engine = 0
  /\ chaos_cached one_row_engine
  /\ Forall (fun i => 0 <= i) (g_ambiguousIndices one_row_engine)
  /\ 0 <= g_scaledWidth one_row_engine
  /\ g_scaledPixels (frames sinf_linear 2 (with_rng 1 one_row_engine))
     = g_scaledPixels (frames sinf_linear 2 one_row_engine).
Proof.
  assert (H1 : g_algorithm one_row_engine <> 1) by discriminate.
  assert (Hc : g_chaos one_row_engine = 0) by reflexivity.
  assert (Hcached : chaos_cached one_row_engine) by (by right).
  assert (Hl : Forall (fun i => 0 <= i) (g_ambiguousIndices one_row_engine))
    by (vm_compute; repeat (constructor; [discriminate|]); constructor).
  assert (HW : 0 <= g_scaledWidth one_row_engine) by (vm_compute; discriminate).
  split; [exact H1|]. split; [exact Hc|]. split; [exact Hcached|]. split; [exact Hl|].
  split; [exact HW|].
  exact (proj2 (wave_ignores_generator sinf_linear one_row_engine 1 2 H1 Hc Hcached Hl HW)).
Defined.

(** ** The random strategy and the stream of draws *)

Section RandomStream.
Variable sinf : float32 -> float32.

Lemma dither_cells_length (l : list Z) (e : Engine) :
  length (g_scaledPixels (fold_left (dither_cell sinf) l e)) = length (g_scaledPixels e).
Proof.
  revert e. induction l as [|i l IH]; intros e; [done|].
  cbn [fold_left]. by rewrite IH, dither_cell_length.
Qed.

Lemma random_fold_slot (l1 l2 : list Z) (i : Z) (e : Engine) :
  g_algorithm e = 1 -> 0 <= i ->
  i * 4 + 4 <= Z.of_nat (length (g_scaledPixels e)) ->
  Forall (fun j => 0 <= j) l2 -> i ∉ l2 ->
  slot (g_scaledPixels (fold_left (dither_cell sinf) (l1 ++ i :: l2) e)) i
  = if ((fastRandFloat (Nat.iter (length l1) fastRand (g_rngState e))).1
        <? vget (g_orangeProb e) i)%f32
    then ORANGE_RGBA else BLACK_RGBA.
Proof.
  intros H1 Hi Hlen Hl2 Hnot.
  rewrite fold_left_app. cbn [fold_left].
  set (e1 := fold_left (dither_cell sinf) l1 e).
  destruct (dither_cells_same sinf l1 e) as (Ea & _ & _ & _ & _ & _ & _ & _ & _ & Ep & _).
  fold e1 in Ea, Ep.
  rewrite dither_cells_untouched by done.
  unfold dither_cell. rewrite Ea, H1. cbn [Z.eqb Pos.eqb].
  rewrite dither_random_pixels.
  rewrite slot_memcpy4_same;
    [|done|by destruct (random_decide _ _).1|subst e1; by rewrite dither_cells_length].
  subst e1. rewrite random_cells_rng, Ep by done.
  unfold random_decide.
  by destruct (fastRandFloat _) as [u rng'].
Qed.

(** X19. Under the random strategy the cells are decided with the draws
    of the generator in the order of the list of uncertain cells: in the
    frame [n + 1] the cell at the position [j] of the list is decided by
    the draw number [n * L + j + 1] from the state the engine started
    with, [L] being the number of uncertain cells, and it is Accent when
    that draw is below its stored probability, Black otherwise. *)
Theorem random_frame_stream (e : Engine) (n j : nat) (i : Z) :
  ready e -> g_algorithm e = 1 ->
  g_ambiguousIndices e !! j = Some i ->
  slot (g_scaledPixels (frames sinf (S n) e)) i
  = if (draw (Z.land (Nat.iter (n * length (g_ambiguousIndices e) + S j) fastRand
                        (g_rngState e)) 0xFFFF)
        <? vget (g_orangeProb e) i)%f32
    then ORANGE_RGBA else BLACK_RGBA.
Proof.
  intros Hr H1 Hj.
  rewrite frames_S.
  pose proof (frames_ready sinf n e Hr) as Hrn.
  destruct (frames_same sinf n e) as (Ea & _ & _ & _ & _ & _ & _ & _ & _ & Ep & Ei).
  pose proof (frames_rng_random sinf n e H1) as Hrng.
  set (en := frames sinf n e) in *.
  assert (Hin : i ∈ g_ambiguousIndices en).
  { rewrite Ei. by eapply list_elem_of_lookup_2. }
  destruct (ready_index en i Hrn Hin) as [Hrange _].
  assert (Hnodup : NoDup (g_ambiguousIndices e)).
  { rewrite (rd_indices e Hr). apply NoDup_filter, NoDup_seqZ. }
  pose proof (take_drop_middle _ _ _ Hj) as Hsplit.
  pose proof (lookup_lt_Some _ _ _ Hj) as Hlt.
  pose proof (length_take (g_ambiguousIndices e) j) as Htake.
  rewrite Nat.min_l in Htake by lia.
  set (L := length (g_ambiguousIndices e)) in *.
  set (l1 := take j (g_ambiguousIndices e)) in *.
  set (l2 := drop (S j) (g_ambiguousIndices e)) in *.
  unfold ditherFrame. rewrite Ea, H1. cbn [Z.eqb Pos.eqb].
  change (g_scaledPixels (advance_clock ?x)) with (g_scaledPixels x).
  rewrite Ei, <- Hsplit.
  rewrite <- Hsplit in Hnodup.
  apply NoDup_app in Hnodup as (_ & _ & Hnd2). apply NoDup_cons in Hnd2 as [Hnot _].
  assert (Hpos : Forall (fun k => 0 <= k) l2).
  { apply Forall_forall. intros k Hk.
    assert (Hk' : k ∈ g_ambiguousIndices en).
    { rewrite Ei. rewrite <- Hsplit. apply elem_of_app. right. by apply elem_of_cons; right. }
    destruct (ready_index en k Hrn Hk') as [? _]. lia. }
  rewrite random_fold_slot; [|congruence|lia| |done|done].
  - rewrite Ep, Hrng, Htake, <- Nat.iter_add.
    replace (n * L + S j)%nat with (S (j + n * L))%nat by lia.
    reflexivity.
  - rewrite (rd_pixels_len en Hrn). lia.
Qed.

(** X20. Under the static and the random strategy the frames do not
    call [sinf] and do not write the statics of the wave strategy. *)
Theorem random_ignores_sine (sinf' : float32 -> float32) (e : Engine) (n : nat) :
  g_algorithm e = 0 \/ g_algorithm e = 1 ->
  frames sinf n e = frames sinf' n e /\ statics (frames sinf n e) = statics e.
Proof.
  intros Ha.
  assert (Hcells : forall l x, g_algorithm x = 1 ->
            fold_left (dither_cell sinf) l x = fold_left (dither_cell sinf') l x
            /\ statics (fold_left (dither_cell sinf) l x) = statics x).
  { induction l as [|i l IH]; intros x Hx; [done|]. cbn [fold_left].
    assert (Hd : forall f, dither_cell f x i = dither_random x i).
    { intros f. unfold dither_cell. by rewrite Hx. }
    rewrite !Hd. destruct (IH (dither_random x i)) as [-> ->]; [done|done]. }
  induction n as [|n [IH1 IH2]]; [done|].
  rewrite !frames_S, <- IH1.
  destruct (frames_same sinf n e) as (Ea & _).
  unfold ditherFrame. destruct Ha as [H0|H1].
  - rewrite Ea, H0. cbn [Z.eqb]. done.
  - rewrite Ea, H1. cbn [Z.eqb Pos.eqb].
    destruct (Hcells (g_ambiguousIndices (frames sinf n e)) (frames sinf n e)) as [-> Hs];
      [congruence|].
    split; [done|]. rewrite advance_clock_statics. by rewrite <- IH2, <- Hs at 1.
Qed.
End RandomStream.

Lemma random_frame_stream_witness :
  ready (sample_engine 1) /\ g_algorithm (sample_engine 1) = 1
  /\ g_ambiguousIndices (sample_engine 1) !! 1%nat = Some 3
  /\ slot (g_scaledPixels (frames sinf_linear 2 (sample_engine 1))) 3
     = if (draw (Z.land (Nat.iter (1 * length (g_ambiguousIndices (sample_engine 1)) + 2)
                           fastRand (g_rngState (sample_engine 1))) 0xFFFF)
           <? vget (g_orangeProb (sample_engine 1)) 3)%f32
       then ORANGE_RGBA else BLACK_RGBA.
Proof.
  assert (Hr : ready (sample_engine 1)).
  { apply load_ready. unfold screen_ok. simpl. lia. }
  assert (H1 : g_algorithm (sample_engine 1) = 1) by reflexivity.
  assert (Hj : g_ambiguousIndices (sample_engine 1) !! 1%nat = Some 3) by (by vm_compute).
  split; [exact Hr|]. split; [exact H1|]. split; [exact Hj|].
  exact (random_frame_stream sinf_linear (sample_engine 1) 1 1 3 Hr H1 Hj).
Defined.

Lemma random_ignores_sine_witness :
  (g_algorithm (sample_engine 1) = 0 \/ g_algorithm (sample_engine 1) = 1)
  /\ statics (frames sinf_linear 2 (sample_engine 1)) = statics (sample_engine 1).
Proof.
  assert (Ha : g_algorithm (sample_engine 1) = 0 \/ g_algorithm (sample_engine 1) = 1)
    by (by right).
  split; [exact Ha|].
  exact (proj2 (random_ignores_sine sinf_linear sinf_linear (sample_engine 1) 2 Ha)).
Defined.


(** ** The brightness threshold *)

Lemma zero_triple_black : classify (orangeProb zero zero zero) = PIXEL_BLACK.
Proof. by vm_compute. Qed.

Lemma frames_fixed_slot (sinf : float32 -> float32) (e : Engine) (n : nat) (i : Z) :
  ready e -> 0 <= i < cells e -> vget (g_pixelStates e) i <> PIXEL_AMBIGUOUS ->
  slot (g_scaledPixels (frames sinf n e)) i = colour_of (vget (g_pixelStates e) i).
Proof.
  intros Hr Hi Hne.
  pose proof (frames_ready sinf n e Hr) as Hrn.
  destruct (frames_same sinf n e) as (_&_&_&_&_&_& Ew & Eh & Es &_).
  rewrite <- Es. apply (rd_fixed _ Hrn); [unfold cells in *; by rewrite Ew, Eh|].
  by rewrite Es.
Qed.

(** X21. A cell whose bilinear sample has a luma below [threshold / 255],
    for a threshold above 0, is classified Black, and its slot holds
    black after any number of frames under any strategy. *)
Theorem dark_cells_black (sinf : float32 -> float32) (img : Image)
    (screenWidth screenHeight : Z) (e0 : Engine) (n : nat) (x y : Z) :
  image_ok img -> screen_ok screenWidth screenHeight e0 ->
  let e := loadAndPrepareImage (Some img) screenWidth screenHeight e0 in
  grid_ok e -> 0 < g_threshold e ->
  0 <= x < g_scaledWidth e -> 0 <= y < g_scaledHeight e ->
  let srcX := source_coord x (g_scaledWidth e) (origWidth img) in
  let srcY := source_coord y (g_scaledHeight e) (origHeight img) in
  (luma (bilinear img srcX srcY 0) (bilinear img srcX srcY 1) (bilinear img srcX srcY 2)
   <? of_int (g_threshold e) / c255)%f32 = true ->
  vget (g_pixelStates e) (y * g_scaledWidth e + x) = PIXEL_BLACK
  /\ slot (g_scaledPixels (frames sinf n e)) (y * g_scaledWidth e + x) = BLACK_RGBA.
Proof.
  intros Himg Hok e (GW & GH & Gt) Ht Hx Hy srcX srcY Hdark.
  pose proof (load_ready img _ _ _ Hok) as Hr. fold e in Hr.
  assert (Hst : vget (g_pixelStates e) (y * g_scaledWidth e + x) = PIXEL_BLACK).
  { subst e srcX srcY. destruct Hok as (Hw & Hh & Hp).
    cbn [loadAndPrepareImage g_scaledWidth g_scaledHeight g_threshold g_pixelStates] in *.
    set (W := Z.quot screenWidth (g_pixelSize e0)) in *.
    set (H := Z.quot screenHeight (g_pixelSize e0)) in *.
    assert (HW : 0 <= W) by lia. assert (HH : 0 <= H) by lia.
    set (imgFloat := resample img W H (g_threshold e0)) in *.
    destruct (classify_all_classified W H imgFloat HW HH) as [_ _ Hcs _ _].
    rewrite Hcs by (by apply cell_index_range).
    destruct (resample_stored img W H (g_threshold e0) HW HH) as [_ Hcell].
    specialize (Hcell x y Hx ltac:(lia) ltac:(nia)). fold imgFloat in Hcell.
    rewrite resample_cell_resampled in Hcell by (done || lia).
    unfold resampled_cell in Hcell. cbv zeta in Hcell. rewrite Hdark in Hcell.
    unfold cell_state, cell_prob. unfold cell_triple in Hcell.
    injection Hcell as -> -> ->. apply zero_triple_black. }
  split; [done|].
  rewrite frames_fixed_slot; [by rewrite Hst|done| |by rewrite Hst].
  unfold cells. apply cell_index_range; lia.
Qed.

Lemma dark_cells_black_witness :
  image_ok sample_image /\ screen_ok 4 4 (with_algorithm 2 initial_engine)
  /\ grid_ok (sample_engine 2) /\ 0 < g_threshold (sample_engine 2)
  /\ 0 <= 0 < g_scaledWidth (sample_engine 2)
  /\ (luma (bilinear sample_image (source_coord 0 4 2) (source_coord 0 4 2) 0)
           (bilinear sample_image (source_coord 0 4 2) (source_coord 0 4 2) 1)
           (bilinear sample_image (source_coord 0 4 2) (source_coord 0 4 2) 2)
      <? of_int 40 / c255)%f32 = true
  /\ slot (g_scaledPixels (frames sinf_linear 2 (sample_engine 2))) 0 = BLACK_RGBA.
Proof.
  assert (Himg : image_ok sample_image).
  { unfold image_ok. simpl. split; [lia|]. split; [lia|]. repeat constructor; lia. }
  assert (Hok : screen_ok 4 4 (with_algorithm 2 initial_engine))
    by (unfold screen_ok; simpl; lia).
  assert (Hg : grid_ok (sample_engine 2)) by (vm_compute; repeat split; discriminate).
  assert (Ht : 0 < g_threshold (sample_engine 2)) by reflexivity.
  assert (Hx : 0 <= 0 < g_scaledWidth (sample_engine 2))
    by (vm_compute; split; [discriminate|reflexivity]).
  assert (Hd : (luma (bilinear sample_image (source_coord 0 4 2) (source_coord 0 4 2) 0)
                     (bilinear sample_image (source_coord 0 4 2) (source_coord 0 4 2) 1)
                     (bilinear sample_image (source_coord 0 4 2) (source_coord 0 4 2) 2)
                <? of_int 40 / c255)%f32 = true) by (by vm_compute).
  split; [exact Himg|]. split; [exact Hok|]. split; [exact Hg|]. split; [exact Ht|].
  split; [exact Hx|]. split; [exact Hd|].
  exact (proj2 (dark_cells_black sinf_linear sample_image 4 4
                  (with_algorithm 2 initial_engine) 2 0 0 Himg Hok Hg Ht Hx Hx Hd)).
Defined.


(** ** The wave strategy with chaos 100 *)

Lemma mul_zero_finite (w : float32) :
  is_finite w = true -> exists s, (w * zero)%f32 = S754_zero s.
Proof. destruct w as [s|s| |s m e]; try done; intros _; by eexists. Qed.

Lemma within_lt_bpow127 (k : Z) (x : float32) :
  k <= 126 -> within k x -> (Rabs (B2R x) < bpow 127)%R.
Proof.
  intros Hk [_ Hb]. eapply Rle_lt_trans; [exact Hb|]. apply bpow_lt. lia.
Qed.

Lemma mul_one_exact (k : Z) (y : float32) :
  k <= 126 -> within k y -> fin32 (y * one)%f32 /\ B2R (y * one)%f32 = B2R y.
Proof.
  intros Hk Hy. pose proof (within_lt_bpow127 k y Hk Hy) as Hlt. destruct Hy as [Fy _].
  assert (Hr : rounds_mono (B2R y * B2R one) (y * one)%f32).
  { apply mul_mono; [done|apply fin32_one|]. by rewrite B2R_one, Rmult_1_r. }
  split; [apply Hr|].
  rewrite (rounds_mono_eq _ _ y Hr Fy); rewrite B2R_one; lra.
Qed.

Lemma add_zero_exact (k : Z) (s : bool) (y : float32) :
  k <= 126 -> within k y ->
  fin32 (S754_zero s + y)%f32 /\ B2R (S754_zero s + y)%f32 = B2R y.
Proof.
  intros Hk Hy. pose proof (within_lt_bpow127 k y Hk Hy) as Hlt. destruct Hy as [Fy _].
  assert (Hr : rounds_mono (B2R (S754_zero s) + B2R y) (S754_zero s + y)%f32).
  { apply add_mono; [apply fin32_zero|done|].
    change (B2R (S754_zero s)) with 0%R. by rewrite Rplus_0_l. }
  split; [apply Hr|].
  rewrite (rounds_mono_eq _ _ y Hr Fy); change (B2R (S754_zero s)) with 0%R; lra.
Qed.

Lemma draw_within (k : Z) : 0 <= k <= 65535 -> within 1 (draw k).
Proof.
  intros Hk. unfold draw.
  destruct (of_int_exact k) as [Fk Vk]; [simpl; lia|].
  destruct (of_int_exact 65535) as [Fc Vc]; [simpl; lia|].
  change (of_int 65535) with c65535 in Fc, Vc.
  assert (Hv : (0 <= IZR k / 65535 <= 1)%R).
  { assert (0 <= IZR k <= 65535)%R by (split; apply IZR_le; lia). lra. }
  assert (Hr : rounds (B2R (of_int k) / B2R c65535) (of_int k / c65535)%f32).
  { apply div_spec; [done..| rewrite Vc; lra |]. rewrite Vk, Vc, Rabs_pos_eq by lra.
    apply (Rle_lt_trans _ 1); [lra|]. rewrite <- bpow_0. apply bpow_lt. lia. }
  rewrite Vk, Vc in Hr.
  split; [apply Hr|].
  destruct (rounds_upper _ _ Hr (proj1 Hv)) as [H0 H1].
  rewrite Rabs_pos_eq by done. rewrite bpow_1. pose proof eta_tiny. lra.
Qed.

Lemma random_threshold_within (prob u : float32) :
  within 40 prob -> within 1 u ->
  within 41 (prob + (u - half) * c0_4)%f32.
Proof.
  intros Hp Hu.
  assert (Hh : within 1 half) by (by apply within_check; [lia|split|..]).
  assert (H4 : within 0 c0_4) by (by apply within_check; [lia|split|..]).
  destruct (sub_within 1 u half Hu Hh) as [_ H1]; [lia|].
  destruct (mul_within (1 + 1) 0 _ _ H1 H4) as [_ H2]; [lia|].
  apply (within_le _ 40) in H2; [|lia].
  destruct (add_within 40 _ _ Hp H2) as [_ H3]; [lia|]. exact H3.
Qed.

(** X22. With chaos 100 the statics hold the chaos level 1.0, the wave
    threshold is multiplied by [1.0f - 1.0f] and vanishes, and the
    decision of the wave strategy is the one of the random threshold
    alone: the cell is Accent exactly when [prob + (u - 0.5) * 0.4 > 0.5]
    for the draw [u], whatever the column, the row, the clock and the
    sine, as long as the wave threshold is a finite number. *)
Theorem chaos_100_is_random (x : Z) (prob sine invW : float32) (rng : Z) :
  within 40 prob ->
  is_finite (prob + (of_int x * invW - one - sine) * c0_3)%f32 = true ->
  (of_int 100 / c100)%f32 = one
  /\ (wave_decide x prob sine (of_int 100 / c100) invW rng).1
     = ((prob + ((fastRandFloat rng).1 - half) * c0_4) >? half)%f32
  /\ (wave_decide x prob sine (of_int 100 / c100) invW rng).2 = fastRand rng.
Proof.
  intros Hp Hfin. split; [reflexivity|].
  change (of_int 100 / c100)%f32 with one.
  unfold wave_decide. change (one >? zero)%f32 with true. cbv iota.
  rewrite fastRandFloat_draw. cbn [fst snd].
  split; [|reflexivity].
  change (one - one)%f32 with zero.
  destruct (mul_zero_finite _ Hfin) as [s ->].
  set (u := draw (Z.land (fastRand rng) 0xFFFF)).
  assert (Hu : within 1 u) by apply draw_within, low16_range.
  pose proof (random_threshold_within prob u Hp Hu) as Hrt.
  set (rt := (prob + (u - half) * c0_4)%f32) in *.
  destruct (mul_one_exact 41 rt ltac:(lia) Hrt) as [F1 V1].
  assert (H1 : within 41 (rt * one)%f32) by (split; [done|rewrite V1; apply Hrt]).
  destruct (add_zero_exact 41 s _ ltac:(lia) H1) as [F2 V2].
  assert (Fh : fin32 half) by (by split).
  destruct (rt >? half)%f32 eqn:Hd.
  - apply gtb_iff in Hd; [|apply Hrt|done].
    apply gtb_iff; [done..|]. rewrite V2, V1. exact Hd.
  - apply ltb_false_iff in Hd; [|done|apply Hrt].
    apply ltb_false_iff; [done..|]. rewrite V2, V1. exact Hd.
Qed.

Lemma chaos_100_is_random_witness :
  within 40 prob_165
  /\ is_finite (prob_165 + (of_int 1 * one - one - zero) * c0_3)%f32 = true
  /\ (wave_decide 1 prob_165 zero (of_int 100 / c100) one 12345).1
     = ((prob_165 + ((fastRandFloat 12345).1 - half) * c0_4) >? half)%f32.
Proof.
  assert (Hp : within 40 prob_165) by (by apply within_check; [lia|split|..]).
  assert (Hf : is_finite (prob_165 + (of_int 1 * one - one - zero) * c0_3)%f32 = true)
    by reflexivity.
  split; [exact Hp|]. split; [exact Hf|].
  exact (proj1 (proj2 (chaos_100_is_random 1 prob_165 zero one 12345 Hp Hf))).
Defined.
(** * The claims *)

(** ** C10 *)

(** C10. For every state of the generator, [fastRandFloat] returns the
    binary32 quotient of [k = fastRand() & 0xFFFF] by 65535, with
    [0 <= k <= 65535]; the value lies in the closed interval [0, 1], and it
    is 1.0 exactly when all 16 low bits are set, which happens at the
    1034th draw from the seed of the source. *)
Theorem fastRandFloat_closed_unit_interval :
  (forall s : Z,
     let k := Z.land (fastRand s) 0xFFFF in
     let u := fst (fastRandFloat s) in
     0 <= k <= 65535
     /\ u = (of_int k / of_int 65535)%f32
     /\ snd (fastRandFloat s) = fastRand s
     /\ (zero <=? u)%f32 = true
     /\ (u <=? one)%f32 = true
     /\ (eqb u one = true <-> k = 65535))
  /\ fst (fastRandFloat (rng_after 1033)) = one.
Proof.
  split; [|by vm_compute].
  intros s k u. subst k u. rewrite fastRandFloat_draw. simpl.
  set (k := Z.land (fastRand s) 65535).
  pose proof (low16_range (fastRand s)) as Hk. fold k in Hk.
  destruct (draw_unit_interval k Hk) as [H0 H1].
  pose proof (draw_is_one k Hk) as H.
  split; [exact Hk|]. split; [reflexivity|]. split; [reflexivity|].
  split; [exact H0|]. split; [exact H1|]. split.
  - intros He. apply Z.eqb_eq. congruence.
  - intros He. rewrite H. by apply Z.eqb_eq.
Qed.

(** ** C3 *)

(** C3, refuted as stated: the draw is not always below 1.  At the state
    the generator has after 1033 draws from the seed of the source, the
    next draw is exactly 1.0, and a cell whose stored probability is 1 is
    then decided Black. *)
Lemma random_probability_one_decided_black :
  fst (fastRandFloat (rng_after 1033)) = one
  /\ (fst (fastRandFloat (rng_after 1033)) <? one)%f32 = false
  /\ fst (random_decide one (rng_after 1033)) = false.
Proof. by vm_compute. Qed.

(** C3, amended.  Under the random strategy the decision of a cell draws
    [u = k / 65535] with [k] the low 16 bits of the generator's next
    value, so [u] lies in the closed interval [0, 1]; the cell is written
    Accent iff [u < storedProbability], otherwise Black, and the generator
    advances by one step.  A stored probability of 0 always gives Black; a
    stored probability of 1 gives Accent for every draw but [k = 65535]. *)
Theorem random_strategy_decision (e : Engine) (pixIdx : Z) :
  0 <= pixIdx ->
  pixIdx * 4 + 4 <= Z.of_nat (length (g_scaledPixels e)) ->
  let k := Z.land (fastRand (g_rngState e)) 0xFFFF in
  let u := (of_int k / of_int 65535)%f32 in
  let prob := vget (g_orangeProb e) pixIdx in
  let e' := dither_random e pixIdx in
  0 <= k <= 65535
  /\ (zero <=? u)%f32 = true /\ (u <=? one)%f32 = true
  /\ g_rngState e' = fastRand (g_rngState e)
  /\ slot (g_scaledPixels e') pixIdx
     = (if (u <? prob)%f32 then ORANGE_RGBA else BLACK_RGBA)
  /\ (forall s, prob = S754_zero s -> slot (g_scaledPixels e') pixIdx = BLACK_RGBA)
  /\ (prob = one ->
      slot (g_scaledPixels e') pixIdx
      = if k =? 65535 then BLACK_RGBA else ORANGE_RGBA).
Proof.
  intros Hi Hlen k u prob e'.
  pose proof (low16_range (fastRand (g_rngState e))) as Hk. fold k in Hk.
  assert (H01 : (zero <=? u)%f32 = true /\ (u <=? one)%f32 = true)
    by exact (draw_unit_interval k Hk).
  destruct H01 as [H0 H1].
  assert (Hslot : slot (g_scaledPixels e') pixIdx
                  = if (u <? prob)%f32 then ORANGE_RGBA else BLACK_RGBA).
  { subst e'. rewrite dither_random_pixels.
    rewrite slot_memcpy4_same; [done|done| |done].
    by destruct (fst _). }
  split; [exact Hk|]. split; [exact H0|]. split; [exact H1|].
  split; [reflexivity|]. split; [exact Hslot|]. split.
  - intros s Hs. rewrite Hslot, Hs.
    assert (Hnn : (u <? S754_zero s)%f32 = false).
    { assert (Hn : (u <? zero)%f32 = false) by exact (draw_not_negative k Hk).
      clear -Hn. clearbody u. destruct u; exact Hn. }
    by rewrite Hnn.
  - intros Hp. rewrite Hslot, Hp.
    assert (Hb : (u <? one)%f32 = negb (k =? 65535)) by exact (draw_below_one k Hk).
    rewrite Hb. by destruct (k =? 65535).
Qed.

Lemma random_strategy_decision_witness :
  0 <= 2
  /\ 2 * 4 + 4 <= Z.of_nat (length (g_scaledPixels (sample_engine 1)))
  /\ slot (g_scaledPixels (dither_random (sample_engine 1) 2)) 2
     = (if ((of_int (Z.land (fastRand (g_rngState (sample_engine 1))) 0xFFFF)
             / of_int 65535)
            <? vget (g_orangeProb (sample_engine 1)) 2)%f32
        then ORANGE_RGBA else BLACK_RGBA).
Proof.
  assert (H0 : 0 <= 2) by lia.
  assert (H1 : 2 * 4 + 4 <= Z.of_nat (length (g_scaledPixels (sample_engine 1))))
    by (vm_compute; discriminate).
  split; [exact H0|]. split; [exact H1|].
  exact (proj1 (proj2 (proj2 (proj2 (proj2
           (random_strategy_decision (sample_engine 1) 2 H0 H1)))))).
Defined.

(** ** C4 *)

(** C4. Under the static strategy a frame changes nothing: after any
    number of frames the output buffer, and the whole engine, are what
    they were after classification. *)
Theorem static_frames_keep_buffer (sinf : float32 -> float32) (n : nat) (e : Engine) :
  g_algorithm e = 0 ->
  g_scaledPixels (frames sinf n e) = g_scaledPixels e /\ frames sinf n e = e.
Proof. intros H. by rewrite frames_static. Qed.

Lemma static_frames_keep_buffer_witness :
  g_algorithm (sample_engine 0) = 0
  /\ g_scaledPixels (frames sinf_linear 3 (sample_engine 0))
     = g_scaledPixels (sample_engine 0).
Proof.
  split; [reflexivity|].
  exact (proj1 (static_frames_keep_buffer sinf_linear 3 (sample_engine 0) eq_refl)).
Defined.

(** ** C5 *)

(** C5. After [loadAndPrepareImage] and any number of frames under any
    strategy, the slot of a cell classified Black holds the black RGBA
    constant and the slot of a cell classified Accent holds the accent
    one; every slot holds one of the two constants; and a frame leaves the
    slot of a cell that is not Uncertain as it finds it, whatever the
    buffer holds. *)
Theorem fixed_cells_keep_colour (sinf : float32 -> float32) (img : Image)
    (screenWidth screenHeight : Z) (e0 : Engine) (n : nat) (i : Z) :
  screen_ok screenWidth screenHeight e0 ->
  let e := loadAndPrepareImage (Some img) screenWidth screenHeight e0 in
  0 <= i < cells e ->
  let buf := g_scaledPixels (frames sinf n e) in
  (vget (g_pixelStates e) i = PIXEL_BLACK -> slot buf i = BLACK_RGBA)
  /\ (vget (g_pixelStates e) i = PIXEL_ORANGE -> slot buf i = ORANGE_RGBA)
  /\ (slot buf i = BLACK_RGBA \/ slot buf i = ORANGE_RGBA)
  /\ (vget (g_pixelStates e) i <> PIXEL_AMBIGUOUS ->
      forall e' : Engine,
        g_ambiguousIndices e' = g_ambiguousIndices e ->
        slot (g_scaledPixels (ditherFrame sinf e')) i = slot (g_scaledPixels e') i).
Proof.
  intros Hok e Hi buf.
  pose proof (load_ready img screenWidth screenHeight e0 Hok) as Hr. fold e in Hr.
  pose proof (frames_ready sinf n e Hr) as Hrn.
  destruct (frames_same sinf n e) as (_&_&_&_&_&_& HW & HH & Hst &_& Hix).
  assert (Hcells : cells (frames sinf n e) = cells e) by (unfold cells; congruence).
  assert (Hfix : vget (g_pixelStates e) i <> PIXEL_AMBIGUOUS ->
                 slot buf i = colour_of (vget (g_pixelStates e) i)).
  { intros Hne. subst buf. rewrite <- Hst. apply (rd_fixed _ Hrn); [lia|congruence]. }
  split; [|split; [|split]].
  - intros Hb. rewrite Hfix by congruence. by rewrite Hb.
  - intros Hb. rewrite Hfix by congruence. by rewrite Hb.
  - apply (rd_two _ Hrn). lia.
  - intros Hne e' He'. apply ditherFrame_untouched; [| lia |].
    + rewrite He', (rd_indices e Hr). apply Forall_forall. intros j Hj.
      apply list_elem_of_filter in Hj. rewrite elem_of_seqZ in Hj. lia.
    + rewrite He'. intros Hin. by destruct (ready_index e i Hr Hin).
Qed.

Lemma fixed_cells_keep_colour_witness :
  screen_ok 4 4 (with_algorithm 1 initial_engine)
  /\ 0 <= 0 < cells (sample_engine 1)
  /\ (vget (g_pixelStates (sample_engine 1)) 0 = PIXEL_BLACK ->
      slot (g_scaledPixels (frames sinf_linear 2 (sample_engine 1))) 0 = BLACK_RGBA).
Proof.
  assert (Hok : screen_ok 4 4 (with_algorithm 1 initial_engine))
    by (unfold screen_ok; simpl; lia).
  assert (Hi : 0 <= 0 < cells (sample_engine 1)) by (vm_compute; split; discriminate || reflexivity).
  split; [exact Hok|]. split; [exact Hi|].
  exact (proj1 (fixed_cells_keep_colour sinf_linear sample_image 4 4
                  (with_algorithm 1 initial_engine) 2 0 Hok Hi)).
Defined.

(** ** C9 *)

(** C9. The list of uncertain cells that [loadAndPrepareImage] builds
    holds exactly the indices [y * W + x] of the cells classified
    Uncertain, in the order of the row-major scan, hence strictly
    increasing; no frame changes the list, the states or the stored
    probabilities. *)
Theorem uncertain_index_list (sinf : float32 -> float32) (img : Image)
    (screenWidth screenHeight : Z) (e0 : Engine) (n : nat) :
  screen_ok screenWidth screenHeight e0 ->
  let e := loadAndPrepareImage (Some img) screenWidth screenHeight e0 in
  g_ambiguousIndices e
  = filter (fun i => vget (g_pixelStates e) i = PIXEL_AMBIGUOUS) (seqZ 0 (cells e))
  /\ (forall i, i ∈ g_ambiguousIndices e
                <-> 0 <= i < cells e /\ vget (g_pixelStates e) i = PIXEL_AMBIGUOUS)
  /\ StronglySorted Z.lt (g_ambiguousIndices e)
  /\ g_ambiguousIndices (frames sinf n e) = g_ambiguousIndices e
  /\ g_pixelStates (frames sinf n e) = g_pixelStates e
  /\ g_orangeProb (frames sinf n e) = g_orangeProb e.
Proof.
  intros Hok e.
  pose proof (load_ready img screenWidth screenHeight e0 Hok) as Hr. fold e in Hr.
  destruct (frames_same sinf n e) as (_&_&_&_&_&_&_&_& Hst & Hpr & Hix).
  split; [exact (rd_indices e Hr)|]. split; [|split; [|done]].
  - intros i. rewrite (rd_indices e Hr) at 1.
    rewrite list_elem_of_filter, elem_of_seqZ. intuition lia.
  - destruct Hok as (Hw & Hh & Hp).
    subst e. unfold loadAndPrepareImage. simpl.
    set (W := Z.quot screenWidth (g_pixelSize e0)).
    set (H := Z.quot screenHeight (g_pixelSize e0)).
    rewrite (cl_indices _ _ _ _ (classify_all_classified W H _
               (quot_nonneg _ _ Hw Hp) (quot_nonneg _ _ Hh Hp))).
    apply uncertain_cells_sorted.
Qed.

Lemma uncertain_index_list_witness :
  screen_ok 4 4 (with_algorithm 2 initial_engine)
  /\ g_ambiguousIndices (sample_engine 2) = [2; 3; 4; 5; 6; 7; 9; 10; 11; 13; 14; 15]
  /\ StronglySorted Z.lt (g_ambiguousIndices (sample_engine 2)).
Proof.
  assert (Hok : screen_ok 4 4 (with_algorithm 2 initial_engine))
    by (unfold screen_ok; simpl; lia).
  split; [exact Hok|]. split; [by vm_compute|].
  exact (proj1 (proj2 (proj2 (uncertain_index_list sinf_linear sample_image 4 4
                  (with_algorithm 2 initial_engine) 0 Hok)))).
Defined.
